(** * The live-analytics dashboard client: reconnecting WebSocket hook and
      metrics store

    Shallow embedding of
    - the hook that is integrated in [frontend/src/App.jsx] (the connection
      manager), and in the module [HookFile] the hook of
      [frontend/src/hooks/useWebSocket.js], which has no [readyState] and its
      own [buildDefaultUrl]; [mirrors_run] relates the two,
    - the update effect and [updateHistory] of [App] in
      [frontend/src/App.jsx] (the metrics store),
    - what [App] renders from them: [connectionStatus] and the header badge,
      [AlertIndicator] (also in [frontend/src/components/AlertIndicator.jsx]),
      the colour of the z-score box, the effect of [StatBox], and the series
      of [renderHedgeRatioChart] and [renderSpreadVelocityChart],
    - the earlier [App] that App.jsx keeps after the current one: its update
      effect, [fetchHistoricalData] and the candlestick trace, and
    - [handleDownload] of
      [frontend/src/components/DateDownloadButton.jsx.jsx].

    Conventions.
    - A JavaScript number is a double: [NaN], an infinity, or a finite
      double given by its exact value ([Fin q]).  Every operation that
      produces a number rounds to the nearest double, ties to even
      ([double_of]); the two zeros are one value, which nothing in the code
      tells apart.  A number of a JSON message is held by the value of its
      literal ([JNum q]), and the code sees the double [double_of q].
    - A string is a sequence of 8-bit characters.
    - A React ref is a field of the state record; a React state variable is a
      field too, and each call of its setter is also appended to a log, so
      that "nothing is emitted" can be stated.
    - Handlers and effects are written in a small state-and-exception monad;
      [try]/[catch]/[finally] keep their JavaScript meaning: the state
      reached before a throw is kept.
    - The browser is part of the state: the sockets constructed so far, the
      pending timeouts with their due times, and a clock in milliseconds.
      What the browser and React do to the hook is a list of events.
    - Console output is kept only where a claim speaks of it (the URL
      builder). *)

From Stdlib Require Import QArith Qabs Qround Qpower DecimalN DecimalPos Lia Lqa.
From stdpp Require Import base list strings.
From Stdlib Require Import Ascii String.

Open Scope string_scope.
Set Warnings "-register-all".

(* ================================================================== *)
(** * Numbers and their decimal text *)
(* ================================================================== *)

(** A JavaScript number: a double.  [Fin q] is the finite double of value
    [q] (the two zeros are one); the functions below produce a [Fin] only
    through [double_of], so its argument is always a value a double has. *)
Inductive num : Type :=
  | NaN
  | Inf (negative : bool)
  | Fin (q : Q).

(** ** Rounding to a double *)

(** [floor (log2 q)], for [0 < q]. *)
Definition binade (q : Q) : Z :=
  let b := (Z.log2 (Qnum q) - Z.log2 (Zpos (Qden q)))%Z in
  if Qle_bool (2 ^ b) q then b else (b - 1)%Z.

(** The integer nearest to [y], the even one of two that are equally
    near. *)
Definition round_half_even (y : Q) : Z :=
  let f := Qfloor y in
  match (y - inject_Z f ?= 1 # 2)%Q with
  | Lt => f
  | Gt => (f + 1)%Z
  | Eq => if Z.even f then f else (f + 1)%Z
  end.

(** The largest finite double, [(2^53 - 1) * 2^971]. *)
Definition max_double : Q := inject_Z (2 ^ 53 - 1) * 2 ^ 971.

(** The exponent of the grid of doubles around [q]: 53 significant bits,
    and the grid of the subnormal numbers, [2^-1074], below [2^-1022]. *)
Definition grid (q : Q) : Z := Z.max (binade q - 52) (-1074).

(** For [0 <= q]: the multiple of the grid step nearest to [q], ties to the
    even multiple. *)
Definition nearest_double (q : Q) : Q :=
  inject_Z (round_half_even (q / 2 ^ grid q)) * 2 ^ grid q.

(** The Number value for the real [q]: round to nearest, ties to even; what
    rounds beyond the largest double is an infinity. *)
Definition double_of (q : Q) : num :=
  let r := Qred q in
  let negative := (Qnum r <? 0)%Z in
  if (Qnum r =? 0)%Z then Fin 0
  else
    let a := nearest_double (Qabs r) in
    if Qle_bool a max_double then Fin (Qred (if negative then - a else a))
    else Inf negative.

(** The value of the double of [q], and 0 for an infinity. *)
Definition double_of_value (q : Q) : Q :=
  match double_of q with
  | Fin v => v
  | _ => 0
  end.

(** ** Arithmetic and comparison *)

(** [a - b] on numbers. *)
Definition num_sub (a b : num) : num :=
  match a, b with
  | NaN, _ | _, NaN => NaN
  | Inf s, Inf t => if Bool.eqb s t then NaN else Inf s
  | Inf s, Fin _ => Inf s
  | Fin _, Inf t => Inf (negb t)
  | Fin x, Fin y => double_of (x - y)
  end.

(** ToBoolean on a number: [NaN] and zero are falsy. *)
Definition num_truthy (a : num) : bool :=
  match a with
  | NaN => false
  | Inf _ => true
  | Fin q => negb (Qnum q =? 0)%Z
  end.

(** [Math.abs] and [isNaN] on numbers. *)
Definition Math_abs (a : num) : num :=
  match a with
  | NaN => NaN
  | Inf _ => Inf false
  | Fin q => Fin (Qabs q)
  end.

Definition isNaN (a : num) : bool :=
  match a with
  | NaN => true
  | _ => false
  end.

(** [a > b], [a < b] and [a >= b]: false as soon as one side is [NaN]. *)
Definition num_gt (a b : num) : bool :=
  match a, b with
  | Fin x, Fin y => negb (Qle_bool x y)
  | Inf false, Fin _ | Inf false, Inf true | Fin _, Inf true => true
  | _, _ => false
  end.

Definition num_lt (a b : num) : bool := num_gt b a.

Definition num_ge (a b : num) : bool :=
  match a, b with
  | Fin x, Fin y => Qle_bool y x
  | Inf false, Fin _ | Inf false, Inf _ | Fin _, Inf true
  | Inf true, Inf true => true
  | _, _ => false
  end.

(** ** Writing a number: [toFixed] *)

Definition ascii_of_digit (d : N) : ascii := ascii_of_N (48 + d).

Definition digit_of_ascii (c : ascii) : option N :=
  let n := N_of_ascii c in
  if ((48 <=? n) && (n <=? 57))%N then Some (n - 48)%N else None.

(** The characters of a decimal numeral, most significant digit first. *)
Fixpoint string_of_uint (u : Decimal.uint) : string :=
  match u with
  | Decimal.Nil => EmptyString
  | Decimal.D0 u => String "0" (string_of_uint u)
  | Decimal.D1 u => String "1" (string_of_uint u)
  | Decimal.D2 u => String "2" (string_of_uint u)
  | Decimal.D3 u => String "3" (string_of_uint u)
  | Decimal.D4 u => String "4" (string_of_uint u)
  | Decimal.D5 u => String "5" (string_of_uint u)
  | Decimal.D6 u => String "6" (string_of_uint u)
  | Decimal.D7 u => String "7" (string_of_uint u)
  | Decimal.D8 u => String "8" (string_of_uint u)
  | Decimal.D9 u => String "9" (string_of_uint u)
  end.

(** A natural number in decimal, without leading zeros (a single 0 for zero). *)
Definition string_of_N (n : N) : string := string_of_uint (N.to_uint n).

(** Exactly [k] decimal digits of [f], most significant first
    (for [f < 10^k]). *)
Fixpoint fixed_digits (k : nat) (f : N) : string :=
  match k with
  | O => EmptyString
  | S k' =>
      String (ascii_of_digit (f / 10 ^ N.of_nat k'))
             (fixed_digits k' (f mod 10 ^ N.of_nat k'))
  end.

(** The integer nearest to [|q| * 10^d], ties away from zero: the [n] of the
    Number.prototype.toFixed algorithm. *)
Definition round_scaled (q : Q) (d : nat) : N :=
  let a := Z.abs_N (Qnum q) in
  let den := Npos (Qden q) in
  ((2 * a * 10 ^ N.of_nat d + den) / (2 * den))%N.

(** The digits [toFixed] writes for a number below [10^21] in absolute
    value. *)
Definition decimal (q : Q) (d : nat) : string :=
  let n := round_scaled q d in
  let p := (10 ^ N.of_nat d)%N in
  string_of_N (n / p)
    ++ (match d with O => EmptyString | S _ => "." ++ fixed_digits d (n mod p) end).

(** Number::toString on an integer [x] of [10^21] or more, step 5: among
    the decimals [s * 10^(n-k)] of [k] digits that denote [x], one with the
    least [k], and of these the nearest to [x] (the even [s] of two equally
    near); the text has the exponent form. *)
Definition rounds_to (x c : N) : bool :=
  match double_of (inject_Z (Z.of_N c)) with
  | Fin v => (Qnum v =? Z.of_N x)%Z && (Qden v =? 1)%positive
  | _ => false
  end.

(** The [(s, n)] with [k] digits, if one denotes [x]; [n] is the number of
    digits of [x].  The two candidates are the multiples of [10^(n-k)] on
    either side of [x]. *)
Definition digits_at (x : N) (n k : nat) : option (N * nat) :=
  let p := (10 ^ N.of_nat (n - k))%N in
  let lo := (x / p)%N in
  let hi := (lo + 1)%N in
  let above :=
    if (hi =? 10 ^ N.of_nat k)%N then ((10 ^ N.of_nat (k - 1))%N, S n)
    else (hi, n) in
  match rounds_to x (lo * p), rounds_to x (hi * p) with
  | true, true =>
      if (x - lo * p <? hi * p - x)%N then Some (lo, n)
      else if (hi * p - x <? x - lo * p)%N then Some above
      else if N.even lo then Some (lo, n) else Some above
  | true, false => Some (lo, n)
  | false, true => Some above
  | false, false => None
  end.

(** The [(s, k, n)] with the least [k], looked for from [k] on; with all
    its [n] digits [x] denotes itself. *)
Fixpoint shortest (fuel k : nat) (x : N) (n : nat) : N * nat * nat :=
  match fuel with
  | O => (x, n, n)
  | S fuel' =>
      match digits_at x n k with
      | Some (s, n') => (s, k, n')
      | None => shortest fuel' (S k) x n
      end
  end.

Definition significand (x : N) : N * nat * nat :=
  let n := Decimal.nb_digits (N.to_uint x) in
  shortest (n - 1) 1 x n.

(** The text [d.ddd...e+n]. *)
Definition exponential (x : N) : string :=
  let '(s, k, n) := significand x in
  let p := (10 ^ N.of_nat (k - 1))%N in
  string_of_N (s / p)
    ++ (match (k - 1)%nat with
        | O => EmptyString
        | S _ => "." ++ fixed_digits (k - 1) (s mod p)
        end)
    ++ "e+" ++ string_of_N (N.of_nat (n - 1)).

(** [x.toFixed(d)], for [d] from 0 to 100. *)
Definition toFixed (x : num) (d : nat) : string :=
  match x with
  | NaN => "NaN"
  | Inf negative => if negative then "-Infinity" else "Infinity"
  | Fin q =>
      (if (Qnum q <? 0)%Z then "-" else EmptyString)
        ++ (if Qle_bool (10 ^ 21) (Qabs q)
            then exponential (Z.to_N (Qfloor (Qabs q)))
            else decimal q d)
  end.

Arguments double_of : simpl never.
Arguments toFixed : simpl never.

(** ** Reading a number: [parseFloat] and ToNumber *)

(** White space and line terminators, among the characters below 256. *)
Definition is_white (c : ascii) : bool :=
  let n := N_of_ascii c in
  ((9 <=? n) && (n <=? 13) || (n =? 32) || (n =? 160))%N.

Fixpoint trim_start (s : string) : string :=
  match s with
  | EmptyString => s
  | String c s' => if is_white c then trim_start s' else s
  end.

(** Read the longest run of decimal digits at the head of [s], continuing
    the value [acc] and the digit count [cnt]. *)
Fixpoint read_digits (s : string) (acc : N) (cnt : nat) : N * nat * string :=
  match s with
  | EmptyString => (acc, cnt, s)
  | String c s' =>
      match digit_of_ascii c with
      | Some d => read_digits s' (acc * 10 + d)%N (S cnt)
      | None => (acc, cnt, s)
      end
  end.

Definition read_sign (s : string) : bool * string :=
  match s with
  | String "-" s' => (true, s')
  | String "+" s' => (false, s')
  | _ => (false, s)
  end.

(** The exponent part [e] or [E], a sign, digits; without digits there is
    no exponent part and nothing is read. *)
Definition read_exponent (s : string) : Z * string :=
  match s with
  | String c s1 =>
      if Ascii.eqb c "e" || Ascii.eqb c "E" then
        let '(negative, s2) := read_sign s1 in
        let '(x, n, s3) := read_digits s2 0%N O in
        match n with
        | O => (0%Z, s)
        | S _ => ((if negative then - Z.of_N x else Z.of_N x)%Z, s3)
        end
      else (0%Z, s)
  | EmptyString => (0%Z, s)
  end.

(** [s] without the prefix [p], if it begins with it. *)
Fixpoint after_prefix (p s : string) : option string :=
  match p, s with
  | EmptyString, _ => Some s
  | String a p', String b s' => if Ascii.eqb a b then after_prefix p' s' else None
  | String _ _, EmptyString => None
  end.

(** The real a decimal literal denotes: [m * 10^(ex - nf)], with its
    sign. *)
Definition literal_value (negative : bool) (m : N) (nf : nat) (ex : Z) : Q :=
  inject_Z (if negative then - Z.of_N m else Z.of_N m)
  * 10 ^ (ex - Z.of_nat nf).

(** The longest StrDecimalLiteral at the head of [s] and the rest of the
    string: a sign, then [Infinity], or digits with an optional fraction
    and an optional exponent part; at least one digit is required.  The
    number is the double nearest to the real the literal denotes. *)
Definition read_literal (s : string) : option (num * string) :=
  let '(negative, s1) := read_sign s in
  match after_prefix "Infinity" s1 with
  | Some rest => Some (Inf negative, rest)
  | None =>
      let '(ip, ni, s2) := read_digits s1 0%N O in
      let '(m, nf, s3) :=
        match s2 with
        | String "." s2' =>
            let '(m, nf, s3) := read_digits s2' ip O in
            match ni, nf with
            | O, O => (ip, O, s2)
            | _, _ => (m, nf, s3)
            end
        | _ => (ip, O, s2)
        end in
      match ni, nf with
      | O, O => None
      | _, _ =>
          let '(ex, s4) := read_exponent s3 in
          Some (double_of (literal_value negative m nf ex), s4)
      end
  end.

(** The global [parseFloat]: leading white space is skipped and the longest
    decimal literal is read; [NaN] if there is none. *)
Definition parseFloat (s : string) : num :=
  match read_literal (trim_start s) with
  | Some (x, _) => x
  | None => NaN
  end.

(** A digit of a binary, octal or hexadecimal literal. *)
Definition digit_in (radix : N) (c : ascii) : option N :=
  let n := N_of_ascii c in
  let v :=
    if ((48 <=? n) && (n <=? 57))%N then Some (n - 48)%N
    else if ((97 <=? n) && (n <=? 102))%N then Some (n - 87)%N
    else if ((65 <=? n) && (n <=? 70))%N then Some (n - 55)%N
    else None in
  match v with
  | Some d => if (d <? radix)%N then Some d else None
  | None => None
  end.

Fixpoint read_radix (radix : N) (s : string) (acc : N) (cnt : nat)
    : N * nat * string :=
  match s with
  | EmptyString => (acc, cnt, s)
  | String c s' =>
      match digit_in radix c with
      | Some d => read_radix radix s' (acc * radix + d)%N (S cnt)
      | None => (acc, cnt, s)
      end
  end.

Definition radix_of (c : ascii) : option N :=
  if Ascii.eqb c "x" || Ascii.eqb c "X" then Some 16%N
  else if Ascii.eqb c "o" || Ascii.eqb c "O" then Some 8%N
  else if Ascii.eqb c "b" || Ascii.eqb c "B" then Some 2%N
  else None.

(** A NonDecimalIntegerLiteral at the head of [s]: [0x], [0o] or [0b] and
    at least one digit. *)
Definition read_nondecimal (s : string) : option (num * string) :=
  match s with
  | String "0" (String c s') =>
      match radix_of c with
      | Some radix =>
          let '(v, n, rest) := read_radix radix s' 0%N O in
          match n with
          | O => None
          | S _ => Some (double_of (inject_Z (Z.of_N v)), rest)
          end
      | None => None
      end
  | _ => None
  end.

(** What was read, if only white space follows it. *)
Definition whole (r : option (num * string)) : option num :=
  match r with
  | Some (x, rest) =>
      match trim_start rest with
      | EmptyString => Some x
      | _ => None
      end
  | None => None
  end.

(** ToNumber on a string: white space on both sides is dropped; what is
    left is empty (zero), or one numeric literal (decimal, or binary, octal
    or hexadecimal), or the result is [NaN]. *)
Definition StringToNumber (s : string) : num :=
  match trim_start s with
  | EmptyString => Fin 0
  | t =>
      match whole (read_literal t) with
      | Some x => x
      | None => default NaN (whole (read_nondecimal t))
      end
  end.

(** The value of the numeral [u] read after digits that gave [acc]. *)
Fixpoint horner (u : Decimal.uint) (acc : N) : N :=
  match u with
  | Decimal.Nil => acc
  | Decimal.D0 u => horner u (acc * 10 + 0)
  | Decimal.D1 u => horner u (acc * 10 + 1)
  | Decimal.D2 u => horner u (acc * 10 + 2)
  | Decimal.D3 u => horner u (acc * 10 + 3)
  | Decimal.D4 u => horner u (acc * 10 + 4)
  | Decimal.D5 u => horner u (acc * 10 + 5)
  | Decimal.D6 u => horner u (acc * 10 + 6)
  | Decimal.D7 u => horner u (acc * 10 + 7)
  | Decimal.D8 u => horner u (acc * 10 + 8)
  | Decimal.D9 u => horner u (acc * 10 + 9)
  end%N.

(** [s] does not begin with a decimal digit. *)
Definition no_digit_head (s : string) : Prop :=
  match s with
  | EmptyString => True
  | String c _ => digit_of_ascii c = None
  end.

(** [q] rounded to [d] decimals, ties away from zero: the real the decimal
    text of [toFixed] denotes. *)
Definition rounded (q : Q) (d : nat) : Q :=
  let z := Z.of_N (round_scaled q d) in
  Qred ((if (Qnum q <? 0)%Z then - z else z)%Z # Pos.of_nat (Nat.pow 10 d)).

(** The real the text [toFixed (Fin q) d] denotes: [q] rounded to [d]
    decimals, or the decimal of the exponent form. *)
Definition shown (q : Q) (d : nat) : Q :=
  if Qle_bool (10 ^ 21) (Qabs q) then
    let '(s, k, n) := significand (Z.to_N (Qfloor (Qabs q))) in
    literal_value (Qnum q <? 0)%Z s (k - 1) (Z.of_nat (n - 1))
  else rounded q d.

(* ================================================================== *)
(** * Exceptions *)
(* ================================================================== *)

Inductive exn : Type :=
  | TypeError
  | SyntaxError.

(** The result of evaluating code that may throw. *)
Inductive outcome (A : Type) : Type :=
  | Ok (a : A)
  | Throw (e : exn).
Arguments Ok {A} a.
Arguments Throw {A} e.

#[global] Instance outcome_ret : MRet outcome := fun A a => Ok a.
#[global] Instance outcome_bind : MBind outcome := fun A B f m =>
  match m with
  | Ok a => f a
  | Throw e => Throw e
  end.

(* ================================================================== *)
(** * Values carried by the stream *)
(* ================================================================== *)

(** A value produced by [JSON.parse].  An object lists each of its
    properties once ([JSON.parse] keeps the last of duplicate keys).  A
    number is held by the real its literal denotes: the Number it stands
    for is [double_of q], and that is what every use of it below takes. *)
Inductive json : Type :=
  | JNull
  | JBool (b : bool)
  | JNum (q : Q)
  | JStr (s : string)
  | JArr (items : list json)
  | JObj (fields : list (string * json)).

(** [event.data] of a message event: text, or a binary frame. *)
Inductive payload : Type :=
  | Text (s : string)
  | Binary (bytes : list Byte.byte).

(** The values the hook stores in [liveData]: the initial [null], a parsed
    message, or the raw [event.data] of a message that did not parse. *)
Inductive live_value : Type :=
  | LNull
  | LJson (j : json)
  | LRaw (p : payload).

Definition str_truthy (s : string) : bool :=
  match s with
  | EmptyString => false
  | _ => true
  end.

(** ToBoolean. *)
Definition json_truthy (j : json) : bool :=
  match j with
  | JNull => false
  | JBool b => b
  | JNum q => num_truthy (double_of q)
  | JStr s => str_truthy s
  | JArr _ | JObj _ => true
  end.

Definition live_truthy (v : live_value) : bool :=
  match v with
  | LNull => false
  | LJson j => json_truthy j
  | LRaw (Text s) => str_truthy s
  | LRaw (Binary _) => true
  end.

Fixpoint assoc (k : string) (fields : list (string * json)) : option json :=
  match fields with
  | [] => None
  | (k', v) :: rest => if String.eqb k k' then Some v else assoc k rest
  end.

(** [v.name] for the five message fields the dashboard reads; [None] is
    [undefined].  Only an object has such a property: strings, numbers,
    booleans, arrays and binary payloads inherit none of these names. *)
Definition member (v : live_value) (name : string) : option json :=
  match v with
  | LJson (JObj fields) => assoc name fields
  | _ => None
  end.

(** [v.toFixed(d)]: calling the method on [null] or on a value that has no
    callable [toFixed] is a TypeError. *)
Definition call_toFixed (v : json) (d : nat) : outcome string :=
  match v with
  | JNum q => Ok (toFixed (double_of q) d)
  | _ => Throw TypeError
  end.

(* ================================================================== *)
(** * The metrics store: [App] in App.jsx *)
(* ================================================================== *)

Record Analytics : Type := {
  z_score : string;
  hedge_ratio : string;
  latest_spread : string;
  symbol_pair : json;
  pie_summary : json
}.

Record History : Type := {
  hedgeRatio : list (option string);   (* [None] is [null] *)
  spreadVelocity : list num;
  timestamps : list string
}.

(** The three state variables of [App] that the update effect touches. *)
Record App : Type := {
  analytics : Analytics;
  history : History;
  prevAnalytics : Analytics
}.

Definition DEFAULT_SYMBOL : string := "BTCUSDT".

Definition initial_analytics : Analytics := {|
  z_score := "---";
  hedge_ratio := "---";
  latest_spread := "---";
  symbol_pair := JStr (DEFAULT_SYMBOL ++ " / ETHUSDT");
  pie_summary := JObj [("long", JNum (1 # 10)); ("short", JNum (1 # 10));
                       ("neutral", JNum (8 # 10))]
|}.

Definition initial_history : History := {|
  hedgeRatio := replicate 10 None;
  spreadVelocity := replicate 10 (Fin 0);
  timestamps := replicate 10 EmptyString
|}.

Definition initial_app : App := {|
  analytics := initial_analytics;
  history := initial_history;
  prevAnalytics := initial_analytics
|}.

(** The value of [parseFloat(prevAnalytics.latest_spread) || currentSpread]:
    a number, or the string [currentSpread]. *)
Inductive num_or_str : Type :=
  | IsNum (n : num)
  | IsStr (s : string).

Definition ToNumber (v : num_or_str) : num :=
  match v with
  | IsNum n => n
  | IsStr s => StringToNumber s
  end.

(** The updater that [updateHistory(currentData)] hands to [setHistory].
    [prevAnalytics] is the value the callback closed over, [now] the
    formatted wall-clock time, [prev] the history being replaced.
    [slice(1)] is [tail]. *)
Definition updateHistory (prevAnalytics : Analytics) (now : string)
    (currentData : Analytics) (prev : History) : History :=
  let newHedge := (tail (hedgeRatio prev) ++ [Some (hedge_ratio currentData)])%list in
  let currentSpread := latest_spread currentData in
  let prevSpread :=
    let p := parseFloat (latest_spread prevAnalytics) in
    if num_truthy p then IsNum p else IsStr currentSpread in
  let velocity := num_sub (StringToNumber currentSpread) (ToNumber prevSpread) in
  let newVelocity := (tail (spreadVelocity prev) ++ [velocity])%list in
  let newTimestamps := (tail (timestamps prev) ++ [now])%list in
  {| hedgeRatio := newHedge;
     spreadVelocity := newVelocity;
     timestamps := newTimestamps |}.

(** [f !== undefined ? f.toFixed(d) : held]. *)
Definition fixed_or_held (f : option json) (d : nat) (held : string)
    : outcome string :=
  match f with
  | Some v => call_toFixed v d
  | None => Ok held
  end.

(** [f || held]. *)
Definition value_or_held (f : option json) (held : json) : json :=
  match f with
  | Some v => if json_truthy v then v else held
  | None => held
  end.

Definition newAnalytics (liveData : live_value) (analytics : Analytics)
    : outcome Analytics :=
  z ← fixed_or_held (member liveData "z_score") 2 (z_score analytics);
  h ← fixed_or_held (member liveData "hedge_ratio") 4 (hedge_ratio analytics);
  l ← fixed_or_held (member liveData "latest_spread") 3
        (latest_spread analytics);
  mret {| z_score := z;
          hedge_ratio := h;
          latest_spread := l;
          symbol_pair :=
            value_or_held (member liveData "symbol_pair") (symbol_pair analytics);
          pie_summary :=
            value_or_held (member liveData "pie_summary") (pie_summary analytics) |}.

(** The condition [liveData && liveData.z_score !== undefined]. *)
Definition accepts (liveData : live_value) : bool :=
  live_truthy liveData && bool_decide (is_Some (member liveData "z_score")).

(** One run of the update effect.  The body reads the [liveData],
    [analytics] and [updateHistory] of the render that scheduled it, and
    that [updateHistory] closed over the same render's [prevAnalytics]; the
    three setters it calls give the next state.  [now] is the time string
    [updateHistory] obtains from the clock.  A throw leaves the effect (and
    React unmounts the tree), so no state is returned then. *)
Definition update_effect (now : string) (liveData : live_value) (s : App)
    : outcome App :=
  if accepts liveData then
    na ← newAnalytics liveData (analytics s);
    mret {| prevAnalytics := analytics s;
            analytics := na;
            history := updateHistory (prevAnalytics s) now na (history s) |}
  else mret s.

(** The effect run once for each of a sequence of [liveData] values (a
    re-run of the effect on an unchanged [liveData] is one more element). *)
Fixpoint feed (updates : list (string * live_value)) (s : App) : outcome App :=
  match updates with
  | [] => mret s
  | (now, v) :: rest => s' ← update_effect now v s; feed rest s'
  end.

Definition metric_update (z h l : Q) : live_value :=
  LJson (JObj [("z_score", JNum z); ("hedge_ratio", JNum h);
               ("latest_spread", JNum l)]).

Definition scenario_updates : list (string * live_value) :=
  [("10:00:01", metric_update 0 1 10); ("10:00:02", metric_update 0 2 12);
   ("10:00:03", metric_update 0 3 9); ("10:00:04", metric_update 0 4 9)].

(** [j] is a number. *)
Definition is_number (j : json) : bool :=
  match j with
  | JNum _ => true
  | _ => false
  end.

(** The three series have the same length, [S n]. *)
Definition full (n : nat) (h : History) : Prop :=
  List.length (hedgeRatio h) = S n /\
  List.length (spreadVelocity h) = S n /\
  List.length (timestamps h) = S n.

(* ================================================================== *)
(** * URL resolution: [buildDefaultUrl] and [getUrl] *)
(* ================================================================== *)

Definition DEFAULT_BACKEND_PORT : string := "8000".
Definition DEFAULT_PATH : string := "/ws/live-analytics".
Definition RECONNECT_MS : N := 5000.

Record Location : Type := {
  protocol : string;
  hostname : string
}.

(** The properties of the global [window] that are read; [None] is
    [undefined].  The two configuration globals hold strings when set. *)
Record Window : Type := {
  __WS_URL__ : option string;
  __WS_PORT__ : option string;
  location : option Location
}.

(** The hook's argument: a string, or anything else ([undefined] when the
    hook is called without argument). *)
Inductive override : Type :=
  | NotAString
  | OverrideString (s : string).

(** What the hook finds around it: the global [window] ([None] when
    [typeof window] is "undefined") and [JSON.parse], which throws a
    SyntaxError on text that is not JSON. *)
Record Env : Type := {
  window : option Window;
  JSON_parse : string -> outcome json
}.

Definition opt_truthy (v : option string) : bool :=
  match v with
  | Some s => str_truthy s
  | None => false
  end.

(** [try body catch handler] on code without state. *)
Definition catching {A : Type} (body : outcome A) (handler : exn -> outcome A)
    : outcome A :=
  match body with
  | Ok a => Ok a
  | Throw e => handler e
  end.

(** [window.location]; reading a property of it throws when it is
    [undefined]. *)
Definition the_location (w : Window) : outcome Location :=
  match location w with
  | Some l => Ok l
  | None => Throw TypeError
  end.

Definition fallback_url : string :=
  "ws://localhost:" ++ DEFAULT_BACKEND_PORT ++ DEFAULT_PATH.

(** The body of the [try] block of [buildDefaultUrl], for a defined
    [window]. *)
Definition url_from_window (w : Window) : outcome string :=
  if opt_truthy (__WS_URL__ w) then mret (default EmptyString (__WS_URL__ w))
  else
    let port :=
      if opt_truthy (__WS_PORT__ w) then default EmptyString (__WS_PORT__ w)
      else DEFAULT_BACKEND_PORT in
    loc ← the_location w;
    let proto := if String.eqb (protocol loc) "https:" then "wss:" else "ws:" in
    let host := if str_truthy (hostname loc) then hostname loc else "localhost" in
    mret (proto ++ "//" ++ host ++ ":" ++ port ++ DEFAULT_PATH).

(** [buildDefaultUrl] of hooks/useWebSocket.js: the URL and the lines written
    with [console.error]. *)
Definition buildDefaultUrl (window : option Window)
    : outcome (string * list string) :=
  match window with
  | Some w =>
      catching (u ← url_from_window w; mret (u, []))
               (fun _ => mret (fallback_url, ["Error building default WS URL:"]))
  | None => mret (fallback_url, [])
  end.

Definition getUrl (urlOverride : override) (window : option Window)
    : outcome (string * list string) :=
  match urlOverride with
  | OverrideString s =>
      if (0 <? String.length s)%nat then mret (s, [])
      else buildDefaultUrl window
  | NotAString => buildDefaultUrl window
  end.

(** A page served over https whose window sets the URL global, for the
    examples. *)
Definition configured_window : Window := {|
  __WS_URL__ := Some "ws://feed.example/live";
  __WS_PORT__ := None;
  location := Some {| protocol := "https:"; hostname := "dash.example" |}
|}.

(** The same page with the port global set instead. *)
Definition port_window : Window := {|
  __WS_URL__ := None;
  __WS_PORT__ := Some "9000";
  location := Some {| protocol := "https:"; hostname := "dash.example" |}
|}.

(** A plain page: neither global is set. *)
Definition plain_window : Window := {|
  __WS_URL__ := None;
  __WS_PORT__ := None;
  location := Some {| protocol := "http:"; hostname := "dash.example" |}
|}.

(** [buildDefaultUrl] and [getUrl] as App.jsx has them: the port is the
    number 8000 and the window's configuration globals are not read.  The
    hook below, which is the hook of App.jsx, resolves its URL with this
    [getUrl]. *)
Module AppJsx.

Definition url_from_window (w : Window) : outcome string :=
  let port := 8000%N in
  loc ← the_location w;
  let proto := if String.eqb (protocol loc) "https:" then "wss:" else "ws:" in
  let host := if str_truthy (hostname loc) then hostname loc else "localhost" in
  mret (proto ++ "//" ++ host ++ ":" ++ string_of_N port ++ "/ws/live-analytics").

Definition buildDefaultUrl (window : option Window)
    : outcome (string * list string) :=
  match window with
  | Some w =>
      catching (u ← url_from_window w; mret (u, []))
               (fun _ => mret ("ws://localhost:8000/ws/live-analytics",
                               ["Error building default WS URL:"]))
  | None => mret ("ws://localhost:8000/ws/live-analytics", [])
  end.

Definition getUrl (urlOverride : override) (window : option Window)
    : outcome (string * list string) :=
  match urlOverride with
  | OverrideString s =>
      if (0 <? String.length s)%nat then mret (s, [])
      else buildDefaultUrl window
  | NotAString => buildDefaultUrl window
  end.

End AppJsx.

(* ================================================================== *)
(** * The connection manager: the [useWebSocket] hook *)
(* ================================================================== *)

(** [WebSocket.CONNECTING] .. [WebSocket.CLOSED] (0 .. 3); App.jsx adds
    [UNSENT] (4) for the state variable before the first connect. *)
Inductive ReadyState : Type :=
  | CONNECTING
  | OPEN
  | CLOSING
  | CLOSED
  | UNSENT.

(** A WebSocket object.  The four handler slots hold either the closure
    [connect] installs ([true]) or [null] ([false]).  [close_args] records
    the first call of [close] that started the closing handshake, with its
    code and reason if it had any. *)
Record Socket : Type := {
  ws_url : string;
  ws_readyState : ReadyState;
  onopen : bool;
  onmessage : bool;
  onerror : bool;
  onclose : bool;
  close_args : option (option (N * string))
}.

(** A call of one of the two state setters. *)
Inductive emission : Type :=
  | StateChange (r : ReadyState)
  | MessageDelivered (v : live_value).

(** The refs and state of one hook instance, and the part of the browser it
    acts on.  The hook of hooks/useWebSocket.js has no [readyState] and
    leaves that field alone. *)
Record Hook : Type := {
  shouldConnectRef : bool;
  wsRef : option nat;
  reconnectTimerRef : option nat;
  connectRef : bool;
  liveData : live_value;
  readyState : ReadyState;
  sockets : list Socket;
  timers : list (nat * N);
  next_timer : nat;
  clock : N;
  mounted : bool;
  emitted : list emission;
  uncaught : list exn
}.

(** Field by field:
    - [shouldConnectRef]: [shouldConnectRef.current]
    - [wsRef]: [wsRef.current]: index into [sockets], [None] is [null]
    - [reconnectTimerRef]: [reconnectTimerRef.current]: a timeout id, [None] is [null]
    - [connectRef]: [connectRef.current] holds [connect] ([false]: still [null])
    - [liveData]: React state
    - [readyState]: React state (the hook of App.jsx only)
    - [sockets]: every WebSocket constructed so far
    - [timers]: timeouts pending in the browser: id and due time
    - [next_timer]: the id the next [setTimeout] returns
    - [clock]: milliseconds elapsed
    - [mounted]: the lifecycle effect is active
    - [emitted]: setter calls, newest first
    - [uncaught]: exceptions that left a callback *)

Definition set_shouldConnectRef (v : bool) (s : Hook) : Hook :=
  {| shouldConnectRef := v; wsRef := wsRef s;
     reconnectTimerRef := reconnectTimerRef s; connectRef := connectRef s;
     liveData := liveData s; readyState := readyState s;
     sockets := sockets s; timers := timers s; next_timer := next_timer s;
     clock := clock s; mounted := mounted s; emitted := emitted s;
     uncaught := uncaught s |}.

Definition set_wsRef (v : option nat) (s : Hook) : Hook :=
  {| shouldConnectRef := shouldConnectRef s; wsRef := v;
     reconnectTimerRef := reconnectTimerRef s; connectRef := connectRef s;
     liveData := liveData s; readyState := readyState s;
     sockets := sockets s; timers := timers s; next_timer := next_timer s;
     clock := clock s; mounted := mounted s; emitted := emitted s;
     uncaught := uncaught s |}.

Definition set_reconnectTimerRef (v : option nat) (s : Hook) : Hook :=
  {| shouldConnectRef := shouldConnectRef s; wsRef := wsRef s;
     reconnectTimerRef := v; connectRef := connectRef s;
     liveData := liveData s; readyState := readyState s;
     sockets := sockets s; timers := timers s; next_timer := next_timer s;
     clock := clock s; mounted := mounted s; emitted := emitted s;
     uncaught := uncaught s |}.

Definition set_connectRef (v : bool) (s : Hook) : Hook :=
  {| shouldConnectRef := shouldConnectRef s; wsRef := wsRef s;
     reconnectTimerRef := reconnectTimerRef s; connectRef := v;
     liveData := liveData s; readyState := readyState s;
     sockets := sockets s; timers := timers s; next_timer := next_timer s;
     clock := clock s; mounted := mounted s; emitted := emitted s;
     uncaught := uncaught s |}.

Definition set_liveData (v : live_value) (s : Hook) : Hook :=
  {| shouldConnectRef := shouldConnectRef s; wsRef := wsRef s;
     reconnectTimerRef := reconnectTimerRef s; connectRef := connectRef s;
     liveData := v; readyState := readyState s; sockets := sockets s;
     timers := timers s; next_timer := next_timer s; clock := clock s;
     mounted := mounted s; emitted := emitted s; uncaught := uncaught s |}.

Definition set_readyState (v : ReadyState) (s : Hook) : Hook :=
  {| shouldConnectRef := shouldConnectRef s; wsRef := wsRef s;
     reconnectTimerRef := reconnectTimerRef s; connectRef := connectRef s;
     liveData := liveData s; readyState := v; sockets := sockets s;
     timers := timers s; next_timer := next_timer s; clock := clock s;
     mounted := mounted s; emitted := emitted s; uncaught := uncaught s |}.

Definition set_sockets (v : list Socket) (s : Hook) : Hook :=
  {| shouldConnectRef := shouldConnectRef s; wsRef := wsRef s;
     reconnectTimerRef := reconnectTimerRef s; connectRef := connectRef s;
     liveData := liveData s; readyState := readyState s; sockets := v;
     timers := timers s; next_timer := next_timer s; clock := clock s;
     mounted := mounted s; emitted := emitted s; uncaught := uncaught s |}.

Definition set_timers (v : list (nat * N)) (s : Hook) : Hook :=
  {| shouldConnectRef := shouldConnectRef s; wsRef := wsRef s;
     reconnectTimerRef := reconnectTimerRef s; connectRef := connectRef s;
     liveData := liveData s; readyState := readyState s;
     sockets := sockets s; timers := v; next_timer := next_timer s;
     clock := clock s; mounted := mounted s; emitted := emitted s;
     uncaught := uncaught s |}.

Definition set_next_timer (v : nat) (s : Hook) : Hook :=
  {| shouldConnectRef := shouldConnectRef s; wsRef := wsRef s;
     reconnectTimerRef := reconnectTimerRef s; connectRef := connectRef s;
     liveData := liveData s; readyState := readyState s;
     sockets := sockets s; timers := timers s; next_timer := v;
     clock := clock s; mounted := mounted s; emitted := emitted s;
     uncaught := uncaught s |}.

Definition set_clock (v : N) (s : Hook) : Hook :=
  {| shouldConnectRef := shouldConnectRef s; wsRef := wsRef s;
     reconnectTimerRef := reconnectTimerRef s; connectRef := connectRef s;
     liveData := liveData s; readyState := readyState s;
     sockets := sockets s; timers := timers s; next_timer := next_timer s;
     clock := v; mounted := mounted s; emitted := emitted s;
     uncaught := uncaught s |}.

Definition set_mounted (v : bool) (s : Hook) : Hook :=
  {| shouldConnectRef := shouldConnectRef s; wsRef := wsRef s;
     reconnectTimerRef := reconnectTimerRef s; connectRef := connectRef s;
     liveData := liveData s; readyState := readyState s;
     sockets := sockets s; timers := timers s; next_timer := next_timer s;
     clock := clock s; mounted := v; emitted := emitted s;
     uncaught := uncaught s |}.

Definition set_emitted (v : list emission) (s : Hook) : Hook :=
  {| shouldConnectRef := shouldConnectRef s; wsRef := wsRef s;
     reconnectTimerRef := reconnectTimerRef s; connectRef := connectRef s;
     liveData := liveData s; readyState := readyState s;
     sockets := sockets s; timers := timers s; next_timer := next_timer s;
     clock := clock s; mounted := mounted s; emitted := v;
     uncaught := uncaught s |}.

Definition set_uncaught (v : list exn) (s : Hook) : Hook :=
  {| shouldConnectRef := shouldConnectRef s; wsRef := wsRef s;
     reconnectTimerRef := reconnectTimerRef s; connectRef := connectRef s;
     liveData := liveData s; readyState := readyState s;
     sockets := sockets s; timers := timers s; next_timer := next_timer s;
     clock := clock s; mounted := mounted s; emitted := emitted s;
     uncaught := v |}.

Definition set_ws_readyState (v : ReadyState) (k : Socket) : Socket :=
  {| ws_url := ws_url k; ws_readyState := v; onopen := onopen k;
     onmessage := onmessage k; onerror := onerror k; onclose := onclose k;
     close_args := close_args k |}.

Definition set_onopen (v : bool) (k : Socket) : Socket :=
  {| ws_url := ws_url k; ws_readyState := ws_readyState k; onopen := v;
     onmessage := onmessage k; onerror := onerror k; onclose := onclose k;
     close_args := close_args k |}.

Definition set_onmessage (v : bool) (k : Socket) : Socket :=
  {| ws_url := ws_url k; ws_readyState := ws_readyState k;
     onopen := onopen k; onmessage := v; onerror := onerror k;
     onclose := onclose k; close_args := close_args k |}.

Definition set_onerror (v : bool) (k : Socket) : Socket :=
  {| ws_url := ws_url k; ws_readyState := ws_readyState k;
     onopen := onopen k; onmessage := onmessage k; onerror := v;
     onclose := onclose k; close_args := close_args k |}.

Definition set_onclose (v : bool) (k : Socket) : Socket :=
  {| ws_url := ws_url k; ws_readyState := ws_readyState k;
     onopen := onopen k; onmessage := onmessage k; onerror := onerror k;
     onclose := v; close_args := close_args k |}.

Definition set_close_args (v : option (option (N * string))) (k : Socket) : Socket :=
  {| ws_url := ws_url k; ws_readyState := ws_readyState k;
     onopen := onopen k; onmessage := onmessage k; onerror := onerror k;
     onclose := onclose k; close_args := v |}.

Definition initial_hook : Hook := {|
  shouldConnectRef := true;
  wsRef := None;
  reconnectTimerRef := None;
  connectRef := false;
  liveData := LNull;
  readyState := UNSENT;
  sockets := [];
  timers := [];
  next_timer := 1;
  clock := 0;
  mounted := false;
  emitted := [];
  uncaught := []
|}.

(** Code of the hook: it reads and writes the state and may throw; what it
    wrote before a throw stays written. *)
Definition M (A : Type) : Type := Hook -> outcome A * Hook.

#[global] Instance M_ret : MRet M := fun A a s => (Ok a, s).
#[global] Instance M_bind : MBind M := fun A B f m s =>
  match m s with
  | (Ok a, s') => f a s'
  | (Throw e, s') => (Throw e, s')
  end.

Definition gets {A : Type} (f : Hook -> A) : M A := fun s => (Ok (f s), s).
Definition modify (f : Hook -> Hook) : M unit := fun s => (Ok tt, f s).
Definition throw {A : Type} (e : exn) : M A := fun s => (Throw e, s).
Definition lift {A : Type} (r : outcome A) : M A := fun s => (r, s).

Definition try_catch {A : Type} (body : M A) (handler : exn -> M A) : M A :=
  fun s =>
    match body s with
    | (Ok a, s') => (Ok a, s')
    | (Throw e, s') => handler e s'
    end.

Definition try_finally {A : Type} (body : M A) (finalizer : M unit) : M A :=
  fun s =>
    match body s with
    | (r, s') =>
        match finalizer s' with
        | (Ok _, s'') => (r, s'')
        | (Throw e, s'') => (Throw e, s'')
        end
    end.

Definition is_live (r : ReadyState) : bool :=
  match r with
  | OPEN | CONNECTING => true
  | _ => false
  end.

(** A timeout id is truthy unless it is 0. *)
Definition timer_truthy (t : option nat) : bool :=
  match t with
  | Some id => negb (id =? 0)%nat
  | None => false
  end.

(** ** The browser's side *)

(** [setTimeout(callback, delay)]: the only callback the hook ever passes is
    the reconnect callback, so a pending timeout is its id and due time. *)
Definition setTimeout (delay : N) : M nat := fun s =>
  let id := next_timer s in
  (Ok id, set_next_timer (S id) (set_timers ((id, clock s + delay)%N :: timers s) s)).

Definition clearTimeout (id : nat) : M unit :=
  modify (fun s => set_timers (filter (fun t => t.1 ≠ id) (timers s)) s).

(** [new WebSocket(url)]: whether the constructor throws is decided outside
    the hook ([ctor_ok]). *)
Definition new_WebSocket (ctor_ok : bool) (url : string) : M nat := fun s =>
  if ctor_ok then
    let k := {| ws_url := url; ws_readyState := CONNECTING; onopen := false;
                onmessage := false; onerror := false; onclose := false;
                close_args := None |} in
    (Ok (List.length (sockets s)), set_sockets (sockets s ++ [k])%list s)
  else (Throw SyntaxError, s).

(** Access to the object a reference points to. *)
Definition socket_at (i : nat) : M Socket := fun s =>
  match sockets s !! i with
  | Some k => (Ok k, s)
  | None => (Throw TypeError, s)
  end.

Definition update_socket (i : nat) (f : Socket -> Socket) : M unit :=
  k ← socket_at i;
  modify (fun s => set_sockets (<[i := f k]> (sockets s)) s).

(** [ws.close(...)]: starts the closing handshake of a socket that is
    connecting or open, and does nothing otherwise. *)
Definition ws_close (i : nat) (args : option (N * string)) : M unit :=
  k ← socket_at i;
  if is_live (ws_readyState k) then
    update_socket i (fun k => set_close_args (Some args) (set_ws_readyState CLOSING k))
  else mret tt.

(** [wsRef.current], which must not be [null] where a property of it is
    read or written. *)
Definition current_socket : M nat :=
  w ← gets wsRef;
  match w with
  | Some i => mret i
  | None => throw TypeError
  end.

(** ** The hook's side *)

Definition setLiveData (v : live_value) : M unit :=
  modify (fun s => set_emitted (MessageDelivered v :: emitted s) (set_liveData v s)).

Definition setReadyState (r : ReadyState) : M unit :=
  modify (fun s => set_emitted (StateChange r :: emitted s) (set_readyState r s)).

Definition cleanupSocket : M unit :=
  try_finally
    (try_catch
       (t ← gets reconnectTimerRef;
        (if timer_truthy t then
           clearTimeout (default 0%nat t);;
           modify (set_reconnectTimerRef None)
         else mret tt);;
        w ← gets wsRef;
        match w with
        | Some i =>
            update_socket i (set_onopen false);;
            update_socket i (set_onmessage false);;
            update_socket i (set_onerror false);;
            update_socket i (set_onclose false);;
            k ← socket_at i;
            if is_live (ws_readyState k) then ws_close i (Some (1000%N, "cleanup"))
            else mret tt
        | None => mret tt
        end)
       (fun _ => mret tt))
    (modify (set_wsRef None)).

Definition scheduleReconnect : M unit :=
  sc ← gets shouldConnectRef;
  if negb sc then mret tt
  else
    t ← gets reconnectTimerRef;
    if timer_truthy t then mret tt
    else
      id ← setTimeout RECONNECT_MS;
      modify (set_reconnectTimerRef (Some id)).

Definition parse_payload (E : Env) (data : payload) : outcome json :=
  match data with
  | Text s => JSON_parse E s
  | Binary _ => Throw SyntaxError
  end.

Definition onopen_handler : M unit :=
  setReadyState OPEN.

Definition onmessage_handler (E : Env) (data : payload) : M unit :=
  try_catch
    (parsed ← lift (parse_payload E data);
     setLiveData (LJson parsed))
    (fun _ => setLiveData (LRaw data)).

Definition onerror_handler : M unit :=
  setReadyState CLOSED;;
  try_catch
    (i ← current_socket;
     ws_close i None)
    (fun _ => mret tt).

Definition onclose_handler : M unit :=
  setReadyState CLOSED;;
  scheduleReconnect.

Definition connect (E : Env) (urlOverride : override) (ctor_ok : bool) : M unit :=
  sc ← gets shouldConnectRef;
  if negb sc then mret tt
  else
    w ← gets wsRef;
    duplicate ← (match w with
                 | Some i => k ← socket_at i; mret (is_live (ws_readyState k))
                 | None => mret false
                 end : M bool);
    if (duplicate : bool) then mret tt
    else
      u ← lift (AppJsx.getUrl urlOverride (window E));
      setReadyState CONNECTING;;
      constructed ←
        try_catch
          (i ← new_WebSocket ctor_ok u.1;
           modify (set_wsRef (Some i));;
           mret true)
          (fun _ => scheduleReconnect;; mret false);
      if negb constructed then mret tt
      else
        (i ← current_socket; update_socket i (set_onopen true));;
        (i ← current_socket; update_socket i (set_onmessage true));;
        (i ← current_socket; update_socket i (set_onerror true));;
        (i ← current_socket; update_socket i (set_onclose true)).

(** The callback passed to [setTimeout]. *)
Definition reconnect_callback (E : Env) (urlOverride : override)
    (ctor_ok : bool) : M unit :=
  modify (set_reconnectTimerRef None);;
  c ← gets connectRef;
  if (c : bool) then connect E urlOverride ctor_ok else mret tt.

(** The two effects, in the order React runs them when the component
    mounts, and the cleanup of the second. *)
Definition mount_effects (E : Env) (urlOverride : override) (ctor_ok : bool)
    : M unit :=
  modify (set_connectRef true);;
  modify (set_shouldConnectRef true);;
  connect E urlOverride ctor_ok.

Definition unmount_cleanup : M unit :=
  modify (set_shouldConnectRef false);;
  cleanupSocket.

(** ** Events *)

(** What can happen to a mounted or unmounted hook: React runs its effects
    or their cleanup, time passes, a timeout falls due, or the transport
    reports on one of the sockets.  An event that constructs a socket says
    whether the constructor succeeds. *)
Inductive event : Type :=
  | Mount (ctor_ok : bool)
  | Unmount
  | Advance (dt : N)
  | TimerFire (id : nat) (ctor_ok : bool)
  | SockOpen (i : nat)
  | SockMessage (i : nat) (data : payload)
  | SockError (i : nat)
  | SockClose (i : nat).

(** Run a callback to its end; an exception that leaves it is reported and
    the state it reached is kept. *)
Definition run_callback (c : M unit) (s : Hook) : Hook :=
  match c s with
  | (Ok _, s') => s'
  | (Throw e, s') => set_uncaught (e :: uncaught s') s'
  end.

(** Fire the event whose handler slot is [slot] at a socket. *)
Definition dispatch (slot : Socket -> bool) (k : Socket) (handler : M unit)
    (s : Hook) : Hook :=
  if slot k then run_callback handler s else s.

Definition due_of (id : nat) (ts : list (nat * N)) : option N :=
  snd <$> List.find (fun t => (t.1 =? id)%nat) ts.

(** One event; [None] when it cannot happen in this state: effects and their
    cleanup alternate, a timeout fires once its delay has passed, a socket
    opens from CONNECTING, receives messages while OPEN, and reports
    nothing after it is CLOSED. *)
Definition step (E : Env) (urlOverride : override) (e : event) (s : Hook)
    : option Hook :=
  match e with
  | Mount ctor_ok =>
      if mounted s then None
      else Some (run_callback (mount_effects E urlOverride ctor_ok)
                   (set_mounted true s))
  | Unmount =>
      if mounted s then Some (run_callback unmount_cleanup (set_mounted false s))
      else None
  | Advance dt => Some (set_clock (clock s + dt)%N s)
  | TimerFire id ctor_ok =>
      match due_of id (timers s) with
      | Some due =>
          if (due <=? clock s)%N then
            Some (run_callback (reconnect_callback E urlOverride ctor_ok)
                    (set_timers (filter (fun t => t.1 ≠ id) (timers s)) s))
          else None
      | None => None
      end
  | SockOpen i =>
      match sockets s !! i with
      | Some k =>
          match ws_readyState k with
          | CONNECTING =>
              Some (dispatch onopen k onopen_handler
                      (set_sockets (<[i := set_ws_readyState OPEN k]> (sockets s)) s))
          | _ => None
          end
      | None => None
      end
  | SockMessage i data =>
      match sockets s !! i with
      | Some k =>
          match ws_readyState k with
          | OPEN => Some (dispatch onmessage k (onmessage_handler E data) s)
          | _ => None
          end
      | None => None
      end
  | SockError i =>
      match sockets s !! i with
      | Some k =>
          match ws_readyState k with
          | CLOSED | UNSENT => None
          | _ => Some (dispatch onerror k onerror_handler s)
          end
      | None => None
      end
  | SockClose i =>
      match sockets s !! i with
      | Some k =>
          match ws_readyState k with
          | CLOSED | UNSENT => None
          | _ =>
              Some (dispatch onclose k onclose_handler
                      (set_sockets (<[i := set_ws_readyState CLOSED k]> (sockets s)) s))
          end
      | None => None
      end
  end.

Fixpoint run (E : Env) (urlOverride : override) (es : list event) (s : Hook)
    : option Hook :=
  match es with
  | [] => Some s
  | e :: rest =>
      match step E urlOverride e s with
      | Some s' => run E urlOverride rest s'
      | None => None
      end
  end.

(** ** A sample environment *)

(** A double quote, and a sample [JSON.parse] for the examples: it knows
    one message and rejects every other text. *)
Definition dq : string := String (ascii_of_nat 34) EmptyString.

Definition sample_text : string := "{" ++ dq ++ "z_score" ++ dq ++ ":1}".

Definition sample_parse (s : string) : outcome json :=
  if String.eqb s sample_text then Ok (JObj [("z_score", JNum 1)])
  else Throw SyntaxError.

(** The URL App.jsx passes to the hook, and an environment for the
    examples. *)
Definition WS_URL : string := "ws://localhost:8000/ws/live-analytics".

Definition sample_env : Env := {| window := None; JSON_parse := sample_parse |}.

(** ** States used to describe what the hook does *)

(** The state after [scheduleReconnect] has armed a timeout. *)
Definition armed (s : Hook) : Hook :=
  set_reconnectTimerRef (Some (next_timer s))
    (set_next_timer (S (next_timer s))
       (set_timers ((next_timer s, clock s + RECONNECT_MS)%N :: timers s) s)).

(** All four handler slots set to [null]. *)
Definition stripped (k : Socket) : Socket :=
  set_onclose false (set_onerror false (set_onmessage false (set_onopen false k))).

(** All four handlers installed. *)
Definition wired (k : Socket) : Socket :=
  set_onclose true (set_onerror true (set_onmessage true (set_onopen true k))).

(** The closing handshake started by [close(...)], if the socket is live. *)
Definition closing (args : option (N * string)) (k : Socket) : Socket :=
  if is_live (ws_readyState k)
  then set_close_args (Some args) (set_ws_readyState CLOSING k)
  else k.

Definition fresh_socket (url : string) : Socket :=
  {| ws_url := url; ws_readyState := CONNECTING; onopen := false;
     onmessage := false; onerror := false; onclose := false;
     close_args := None |}.

(** The state after a call of a setter. *)
Definition emit_state (r : ReadyState) (s : Hook) : Hook :=
  set_emitted (StateChange r :: emitted s) (set_readyState r s).

Definition emit_message (v : live_value) (s : Hook) : Hook :=
  set_emitted (MessageDelivered v :: emitted s) (set_liveData v s).

(** The state after [cleanupSocket]. *)
Definition cleaned (s : Hook) : Hook :=
  let s1 :=
    if timer_truthy (reconnectTimerRef s)
    then set_reconnectTimerRef None
           (set_timers
              (filter (fun t => t.1 ≠ default 0%nat (reconnectTimerRef s)) (timers s)) s)
    else s in
  let s2 :=
    match wsRef s with
    | Some i =>
        match sockets s !! i with
        | Some k =>
            set_sockets
              (<[i := closing (Some (1000%N, "cleanup")) (stripped k)]> (sockets s)) s1
        | None => s1
        end
    | None => s1
    end in
  set_wsRef None s2.

(** The state after [scheduleReconnect]. *)
Definition rescheduled (s : Hook) : Hook :=
  if shouldConnectRef s && negb (timer_truthy (reconnectTimerRef s))
  then armed s else s.

(** The state after the error handler: the current socket, if there is one
    and it is live, starts closing. *)
Definition errored (s : Hook) : Hook :=
  let s1 := emit_state CLOSED s in
  match wsRef s with
  | Some i =>
      match sockets s !! i with
      | Some k =>
          if is_live (ws_readyState k)
          then set_sockets (<[i := closing None k]> (sockets s)) s1
          else s1
      | None => s1
      end
  | None => s1
  end.

(** The state after [connect] has constructed a socket for [url] and
    installed the handlers. *)
Definition connected (url : string) (s : Hook) : Hook :=
  set_sockets (sockets s ++ [wired (fresh_socket url)])%list
    (set_wsRef (Some (List.length (sockets s))) (emit_state CONNECTING s)).

(** The state after [connect] went past its two guards. *)
Definition attempted (url : string) (ctor_ok : bool) (s : Hook) : Hook :=
  if ctor_ok then connected url s else rescheduled (emit_state CONNECTING s).

(** [wsRef.current] is a socket that is connecting or open. *)
Definition current_live (s : Hook) : bool :=
  match wsRef s with
  | Some i =>
      match sockets s !! i with
      | Some k => is_live (ws_readyState k)
      | None => false
      end
  | None => false
  end.

(** ** The invariant *)

(** A socket that will not call the hook again: it is closed, or closing
    with no handler left. *)
Definition quiet (k : Socket) : Prop :=
  ws_readyState k = CLOSED \/
  (ws_readyState k = CLOSING /\ onopen k = false /\ onmessage k = false /\
   onerror k = false /\ onclose k = false).

(** What holds in every state the hook reaches. *)
Record Inv (s : Hook) : Prop := {
  inv_timer :
    match reconnectTimerRef s with
    | None => timers s = []
    | Some id => id ≠ 0%nat /\ exists due, timers s = [(id, due)]
    end;
  inv_next : next_timer s ≠ 0%nat;
  inv_ws : forall i, wsRef s = Some i -> is_Some (sockets s !! i);
  inv_stale : forall j k, sockets s !! j = Some k -> wsRef s ≠ Some j -> quiet k;
  inv_pending :
    reconnectTimerRef s ≠ None ->
    forall i k, wsRef s = Some i -> sockets s !! i = Some k ->
                ws_readyState k = CLOSED;
  inv_mounted : mounted s = true -> shouldConnectRef s = true /\ connectRef s = true;
  inv_unmounted : mounted s = false -> wsRef s = None /\ reconnectTimerRef s = None;
  inv_uncaught : uncaught s = [];
  inv_unsent : forall j k, sockets s !! j = Some k -> ws_readyState k ≠ UNSENT
}.

(** An event other than the mounting of the hook. *)
Definition not_mount (e : event) : Prop :=
  match e with
  | Mount _ => False
  | _ => True
  end.

(** From time [c] on: the clock is not before [c], and every pending
    timeout is due [RECONNECT_MS] after [c] or later. *)
Definition due_after (c : N) (s : Hook) : Prop :=
  (c <= clock s)%N /\
  forall t, t ∈ timers s -> (c + RECONNECT_MS <= t.2)%N.

(* ================================================================== *)
(** * What [App] shows: the widgets and charts of App.jsx *)
(* ================================================================== *)

(** The two locals [status] and [color] that [AlertIndicator] renders. *)
Record Alert : Type := {
  alert_status : string;
  alert_color : string
}.

(** [AlertIndicator({ zScore })], the same in App.jsx and in
    components/AlertIndicator.jsx. *)
Definition AlertIndicator (zScore : string) : Alert :=
  let threshold := Fin 2 in
  let absZ := Math_abs (parseFloat zScore) in
  if String.eqb zScore "---" || isNaN absZ then
    {| alert_status := "WAITING"; alert_color := "#9ca3af" |}
  else if num_gt absZ threshold then
    {| alert_status := "SIGNAL ACTIVE (Z > 2.0)"; alert_color := "#ef4444" |}
  else
    {| alert_status := "NORMAL"; alert_color := "#10b981" |}.

(** The [color] prop of the "Live Z-Score" box:
    [Math.abs(parseFloat(analytics.z_score)) > 2 ? '#ef4444' : '#10b981']. *)
Definition z_score_color (analytics : Analytics) : string :=
  if num_gt (Math_abs (parseFloat (z_score analytics))) (Fin 2)
  then "#ef4444" else "#10b981".

(** Whether the price chart of the earlier [App] (kept in App.jsx after the
    current one) is given the red rectangle:
    [analytics.z_score !== '---' && Math.abs(parseFloat(analytics.z_score)) > 2]. *)
Definition layout_highlight (z_score : string) : bool :=
  negb (String.eqb z_score "---")
  && num_gt (Math_abs (parseFloat z_score)) (Fin 2).

(** The test [!pieData] at the head of [renderPieChart]: the placeholder is
    rendered instead of the chart. *)
Definition pie_placeholder (analytics : Analytics) : bool :=
  negb (json_truthy (pie_summary analytics)).

(** The series [renderHedgeRatioChart] hands to the plot:
    [timestamps.filter(t => t)] and [hedgeRatio.filter(r => r !== null)]. *)
Record HedgeChart : Type := {
  hedge_x : list string;
  hedge_y : list (option string)
}.

Definition not_null {A : Type} (r : option A) : bool :=
  match r with
  | Some _ => true
  | None => false
  end.

Definition renderHedgeRatioChart (history : History) : HedgeChart := {|
  hedge_x := List.filter str_truthy (timestamps history);
  hedge_y := List.filter not_null (hedgeRatio history)
|}.

(** The series and bar colours of [renderSpreadVelocityChart]. *)
Record VelocityChart : Type := {
  velocity_x : list string;
  velocity_y : list num;
  velocity_color : list string
}.

Definition renderSpreadVelocityChart (history : History) : VelocityChart := {|
  velocity_x := List.filter str_truthy (timestamps history);
  velocity_y := spreadVelocity history;
  velocity_color :=
    map (fun v => if num_ge v (Fin 0) then "#10b981" else "#ef4444")
        (spreadVelocity history)
|}.

(** The number of updates in [ups] that pass the gate of the effect. *)
Definition accepted (ups : list (string * live_value)) : nat :=
  List.length (List.filter (fun u => accepts u.2) ups).

(** A history that [m] accepted updates have written to: the [10 - m]
    oldest entries are still the initial ones. *)
Definition written (m : nat) (h : History) : Prop :=
  (m <= 10)%nat /\
  exists ts hs,
    timestamps h = (replicate (10 - m) EmptyString ++ ts)%list /\
    List.length ts = m /\ Forall (fun t => str_truthy t = true) ts /\
    hedgeRatio h = (replicate (10 - m) None ++ hs)%list /\
    List.length hs = m /\ Forall (fun r => not_null r = true) hs /\
    List.length (spreadVelocity h) = 10%nat.



(** ** The connection badge *)

(** The numbers of the [ReadyState] table of App.jsx. *)
Definition ReadyState_value (r : ReadyState) : N :=
  match r with
  | CONNECTING => 0
  | OPEN => 1
  | CLOSING => 2
  | CLOSED => 3
  | UNSENT => 4
  end.

Record Status : Type := {
  status : string;
  color : string;
  dot : string
}.

(** [connectionStatus(readyState)]: a [switch] over the five numbers, with a
    [default]. *)
Definition connectionStatus (readyState : N) : Status :=
  match readyState with
  | 0%N => {| status := "Connecting"; color := "text-yellow-500"; dot := "bg-yellow-500" |}
  | 1%N => {| status := "Live"; color := "text-green-500"; dot := "bg-green-500" |}
  | 2%N => {| status := "Closing"; color := "text-orange-500"; dot := "bg-orange-500" |}
  | 3%N => {| status := "Closed"; color := "text-red-500"; dot := "bg-red-500" |}
  | 4%N => {| status := "Init"; color := "text-gray-500"; dot := "bg-gray-500" |}
  | _ => {| status := "Unknown"; color := "text-gray-500"; dot := "bg-gray-500" |}
  end.

(** [s.split(sep)] for a separator of one character. *)
Fixpoint split (sep : ascii) (s : string) : list string :=
  match s with
  | EmptyString => [EmptyString]
  | String c s' =>
      if Ascii.eqb c sep then EmptyString :: split sep s'
      else
        match split sep s' with
        | piece :: pieces => String c piece :: pieces
        | [] => [String c EmptyString]
        end
  end.

(** What the header renders for a [readyState]: the label, and the two CSS
    colours [wsStatus.dot.split('-')[1]] and [wsStatus.color.split('-')[1]]
    ([None] is [undefined]). *)
Record Badge : Type := {
  badge_label : string;
  badge_dot : option string;
  badge_text : option string
}.

Definition badge (readyState : ReadyState) : Badge :=
  let wsStatus := connectionStatus (ReadyState_value readyState) in
  {| badge_label := status wsStatus;
     badge_dot := split "-" (dot wsStatus) !! 1%nat;
     badge_text := split "-" (color wsStatus) !! 1%nat |}.

(** ** How the hook reacts to each event *)

(** The socket the hook holds has its four handlers. *)
Definition Wired (s : Hook) : Prop :=
  forall i k, wsRef s = Some i -> sockets s !! i = Some k ->
    onopen k = true /\ onmessage k = true /\ onerror k = true /\ onclose k = true.

(** What the message handler stores for a payload. *)
Definition delivered (E : Env) (data : payload) : live_value :=
  match parse_payload E data with
  | Ok j => LJson j
  | Throw _ => LRaw data
  end.

(** The [readyState] of the socket the hook holds, if it holds one. *)
Definition current_state (s : Hook) : option ReadyState :=
  match wsRef s with
  | Some i => ws_readyState <$> sockets s !! i
  | None => None
  end.

(** The state after each event that can happen in a state the hook reaches,
    with what is known of the state before; [u] is the URL [getUrl]
    returns.  Only the socket the hook holds still has handlers: an event
    of another socket changes that socket alone. *)
Inductive reaction (E : Env) (u : string) (s : Hook) : event -> Hook -> Prop :=
  | on_mount ok :
      mounted s = false -> wsRef s = None -> reconnectTimerRef s = None ->
      timers s = [] ->
      reaction E u s (Mount ok)
        (attempted u ok
           (set_shouldConnectRef true (set_connectRef true (set_mounted true s))))
  | on_unmount :
      mounted s = true ->
      reaction E u s Unmount
        (cleaned (set_shouldConnectRef false (set_mounted false s)))
  | on_advance dt :
      reaction E u s (Advance dt) (set_clock (clock s + dt)%N s)
  | on_timer id ok due :
      mounted s = true -> reconnectTimerRef s = Some id ->
      timers s = [(id, due)] -> (due <= clock s)%N ->
      current_live s = false ->
      reaction E u s (TimerFire id ok)
        (attempted u ok (set_reconnectTimerRef None (set_timers [] s)))
  | on_open i k :
      wsRef s = Some i -> sockets s !! i = Some k ->
      ws_readyState k = CONNECTING -> reconnectTimerRef s = None ->
      reaction E u s (SockOpen i)
        (emit_state OPEN
           (set_sockets (<[i := set_ws_readyState OPEN k]> (sockets s)) s))
  | on_message i k data :
      wsRef s = Some i -> sockets s !! i = Some k -> ws_readyState k = OPEN ->
      reaction E u s (SockMessage i data) (emit_message (delivered E data) s)
  | on_error i k :
      wsRef s = Some i -> sockets s !! i = Some k ->
      ws_readyState k <> CLOSED -> reconnectTimerRef s = None ->
      reaction E u s (SockError i) (errored s)
  | on_stale_error i k :
      wsRef s <> Some i -> sockets s !! i = Some k ->
      ws_readyState k = CLOSING ->
      reaction E u s (SockError i) s
  | on_close i k :
      wsRef s = Some i -> sockets s !! i = Some k ->
      ws_readyState k <> CLOSED -> reconnectTimerRef s = None ->
      reaction E u s (SockClose i)
        (armed
           (emit_state CLOSED
              (set_sockets (<[i := set_ws_readyState CLOSED k]> (sockets s)) s)))
  | on_stale_close i k :
      wsRef s <> Some i -> sockets s !! i = Some k ->
      ws_readyState k = CLOSING ->
      reaction E u s (SockClose i)
        (set_sockets (<[i := set_ws_readyState CLOSED k]> (sockets s)) s).

(** How the state variable [readyState] relates to the socket the hook
    holds, while the hook is mounted. *)
Definition reported (s : Hook) : Prop :=
  match readyState s with
  | CONNECTING =>
      current_state s = Some CONNECTING \/ reconnectTimerRef s <> None
  | OPEN => current_state s = Some OPEN
  | CLOSED => current_state s = Some CLOSING \/ current_state s = Some CLOSED
  | CLOSING | UNSENT => False
  end.

Definition is_message (e : event) : Prop :=
  match e with
  | SockMessage _ _ => True
  | _ => False
  end.

(* ================================================================== *)
(** * The two copies of the hook *)
(* ================================================================== *)

(** A window in which neither configuration global is set. *)
Definition without_globals (w : Window) : Window :=
  {| __WS_URL__ := None; __WS_PORT__ := None; location := location w |}.

(** The hook as hooks/useWebSocket.js has it: there is no [readyState], so
    the handlers for open, error and close, and [connect], do not call
    [setReadyState], and [connect] resolves its URL with the [getUrl] of
    that file; [cleanupSocket], [scheduleReconnect] and the message handler
    are the ones above, word for word. *)
Module HookFile.

Definition onopen_handler : M unit := mret tt.

Definition onerror_handler : M unit :=
  try_catch
    (i ← current_socket;
     ws_close i None)
    (fun _ => mret tt).

Definition onclose_handler : M unit := scheduleReconnect.

Definition connect (E : Env) (urlOverride : override) (ctor_ok : bool) : M unit :=
  sc ← gets shouldConnectRef;
  if negb sc then mret tt
  else
    w ← gets wsRef;
    duplicate ← (match w with
                 | Some i => k ← socket_at i; mret (is_live (ws_readyState k))
                 | None => mret false
                 end : M bool);
    if (duplicate : bool) then mret tt
    else
      u ← lift (getUrl urlOverride (window E));
      constructed ←
        try_catch
          (i ← new_WebSocket ctor_ok u.1;
           modify (set_wsRef (Some i));;
           mret true)
          (fun _ => scheduleReconnect;; mret false);
      if negb constructed then mret tt
      else
        (i ← current_socket; update_socket i (set_onopen true));;
        (i ← current_socket; update_socket i (set_onmessage true));;
        (i ← current_socket; update_socket i (set_onerror true));;
        (i ← current_socket; update_socket i (set_onclose true)).

Definition reconnect_callback (E : Env) (urlOverride : override)
    (ctor_ok : bool) : M unit :=
  modify (set_reconnectTimerRef None);;
  c ← gets connectRef;
  if (c : bool) then connect E urlOverride ctor_ok else mret tt.

Definition mount_effects (E : Env) (urlOverride : override) (ctor_ok : bool)
    : M unit :=
  modify (set_connectRef true);;
  modify (set_shouldConnectRef true);;
  connect E urlOverride ctor_ok.

Definition unmount_cleanup : M unit :=
  modify (set_shouldConnectRef false);;
  cleanupSocket.

Definition step (E : Env) (urlOverride : override) (e : event) (s : Hook)
    : option Hook :=
  match e with
  | Mount ctor_ok =>
      if mounted s then None
      else Some (run_callback (mount_effects E urlOverride ctor_ok)
                   (set_mounted true s))
  | Unmount =>
      if mounted s then Some (run_callback unmount_cleanup (set_mounted false s))
      else None
  | Advance dt => Some (set_clock (clock s + dt)%N s)
  | TimerFire id ctor_ok =>
      match due_of id (timers s) with
      | Some due =>
          if (due <=? clock s)%N then
            Some (run_callback (reconnect_callback E urlOverride ctor_ok)
                    (set_timers (filter (fun t => t.1 ≠ id) (timers s)) s))
          else None
      | None => None
      end
  | SockOpen i =>
      match sockets s !! i with
      | Some k =>
          match ws_readyState k with
          | CONNECTING =>
              Some (dispatch onopen k onopen_handler
                      (set_sockets (<[i := set_ws_readyState OPEN k]> (sockets s)) s))
          | _ => None
          end
      | None => None
      end
  | SockMessage i data =>
      match sockets s !! i with
      | Some k =>
          match ws_readyState k with
          | OPEN => Some (dispatch onmessage k (onmessage_handler E data) s)
          | _ => None
          end
      | None => None
      end
  | SockError i =>
      match sockets s !! i with
      | Some k =>
          match ws_readyState k with
          | CLOSED | UNSENT => None
          | _ => Some (dispatch onerror k onerror_handler s)
          end
      | None => None
      end
  | SockClose i =>
      match sockets s !! i with
      | Some k =>
          match ws_readyState k with
          | CLOSED | UNSENT => None
          | _ =>
              Some (dispatch onclose k onclose_handler
                      (set_sockets (<[i := set_ws_readyState CLOSED k]> (sockets s)) s))
          end
      | None => None
      end
  end.

Fixpoint run (E : Env) (urlOverride : override) (es : list event) (s : Hook)
    : option Hook :=
  match es with
  | [] => Some s
  | e :: rest =>
      match step E urlOverride e s with
      | Some s' => run E urlOverride rest s'
      | None => None
      end
  end.

End HookFile.

(** A call of [setLiveData]. *)
Definition is_delivery (e : emission) : bool :=
  match e with
  | MessageDelivered _ => true
  | StateChange _ => false
  end.

(** A state of the App.jsx hook seen without its [readyState]: the state
    variable is left at its initial value and only the calls of
    [setLiveData] stay in the log. *)
Definition without_readyState (s : Hook) : Hook :=
  set_readyState UNSENT (set_emitted (List.filter is_delivery (emitted s)) s).

(** [m'] does to a state seen without [readyState] what [m] does to the
    state. *)
Definition mirrors {A : Type} (m m' : M A) : Prop :=
  forall s, m' (without_readyState s) = ((m s).1, without_readyState (m s).2).

(** An environment whose window sets the URL global. *)
Definition configured_env : Env :=
  {| window := Some configured_window; JSON_parse := sample_parse |}.

(** The two [getUrl] resolve the same URL (their console output may
    differ). *)
Definition same_url (r r' : outcome (string * list string)) : Prop :=
  exists u l l', r = Ok (u, l) /\ r' = Ok (u, l').

(* ================================================================== *)
(** * The REST side: the earlier [App] and the download button *)
(* ================================================================== *)

(** What [await fetch(url)] gives: the promise rejects, or there is a
    response with its status and with what [await response.json()] gives. *)
Inductive fetched : Type :=
  | Rejected
  | Response (status : N) (body : outcome json).

(** [response.ok]: the status is in the range 200-299. *)
Definition response_ok (status : N) : bool :=
  ((200 <=? status) && (status <=? 299))%N.

(** What reaches a [catch] block here: the rejection of [fetch], an
    [Error] made by the code with its message, or an exception of the
    language. *)
Inductive failure : Type :=
  | FetchRejected
  | Error (message : string)
  | Thrown (e : exn).

(** What the page finds around it: the network, and the text of a number
    (Number::toString), which is not computed here. *)
Record Browser : Type := {
  fetch : string -> fetched;
  Number_toString : num -> string
}.

(** The earlier [App] that App.jsx keeps after the current one: it takes
    [liveData] from the hook of hooks/useWebSocket.js and loads price bars
    over REST. *)
Module Legacy.

Definition BASE_API_URL : string := "http://localhost:8000".
Definition DEFAULT_ROLLING_WINDOW : N := 500.

Record Analytics : Type := {
  z_score : string;
  hedge_ratio : string;
  latest_spread : string;
  symbol_pair : option json;
  timestamp : option json
}.

Definition initial_analytics : Analytics := {|
  z_score := "---";
  hedge_ratio := "---";
  latest_spread := "---";
  symbol_pair := Some (JStr (DEFAULT_SYMBOL ++ " / ETHUSDT"));
  timestamp := None
|}.

(** [f.toFixed(d)] where [f] may be [undefined]. *)
Definition toFixed_of (f : option json) (d : nat) : outcome string :=
  match f with
  | Some v => call_toFixed v d
  | None => Throw TypeError
  end.

(** One run of the update effect: the new value of [analytics]. *)
Definition update_effect (liveData : live_value) (analytics : Analytics)
    : outcome Analytics :=
  if accepts liveData then
    z ← toFixed_of (member liveData "z_score") 2;
    h ← toFixed_of (member liveData "hedge_ratio") 4;
    l ← toFixed_of (member liveData "latest_spread") 3;
    mret {| z_score := z;
            hedge_ratio := h;
            latest_spread := l;
            symbol_pair := member liveData "symbol_pair";
            timestamp := member liveData "timestamp" |}
  else mret analytics.

(** A [Date] object, by the value it was constructed from. *)
Inductive Date : Type :=
  | new_Date (value : option json).

(** An element of [plotData]. *)
Record Bar : Type := {
  x : Date;
  open : option json;
  high : option json;
  low : option json;
  close : option json;
  volume : option json
}.

(** [bar.name] for the six names read from a bar: reading a property of
    [null] throws; only an object has such a property. *)
Definition prop (bar : json) (name : string) : outcome (option json) :=
  match bar with
  | JNull => Throw TypeError
  | JObj fields => Ok (assoc name fields)
  | _ => Ok None
  end.

Definition to_bar (bar : json) : outcome Bar :=
  t ← prop bar "timestamp";
  o ← prop bar "open";
  h ← prop bar "high";
  l ← prop bar "low";
  c ← prop bar "close";
  v ← prop bar "volume";
  mret {| x := new_Date t; open := o; high := h; low := l; close := c;
          volume := v |}.

Fixpoint to_bars (items : list json) : outcome (list Bar) :=
  match items with
  | [] => mret []
  | bar :: rest => b ← to_bar bar; bs ← to_bars rest; mret (b :: bs)
  end.

(** [data.map(bar => ...)]: only an array has [map]. *)
Definition plot_data (data : json) : outcome (list Bar) :=
  match data with
  | JArr items => to_bars items
  | _ => Throw TypeError
  end.

Definition historical_url (timeframe : string) : string :=
  BASE_API_URL ++ "/api/historical-data?symbol=" ++ DEFAULT_SYMBOL
    ++ "&timeframe=" ++ timeframe
    ++ "&limit=" ++ string_of_N DEFAULT_ROLLING_WINDOW.

(** The body of the [try] block of [fetchHistoricalData]. *)
Definition load (r : fetched) : failure + list Bar :=
  match r with
  | Rejected => inl FetchRejected
  | Response status body =>
      if (status =? 503)%N then
        inl (Error "Database connection not available. Check Python backend.")
      else if negb (response_ok status) then
        inl (Error ("HTTP error! status: " ++ string_of_N status))
      else
        match body with
        | Throw e => inl (Thrown e)
        | Ok data =>
            match plot_data data with
            | Ok bars => inr bars
            | Throw e => inl (Thrown e)
            end
        end
  end.

(** The state [fetchHistoricalData] writes, and the errors it logs. *)
Record Page : Type := {
  historicalData : list Bar;
  loading : bool;
  logged : list failure
}.

Definition initial_page : Page :=
  {| historicalData := []; loading := true; logged := [] |}.

(** The page while the request is under way, after [setLoading(true)]. *)
Definition requesting (p : Page) : Page :=
  {| historicalData := historicalData p; loading := true; logged := logged p |}.

(** The page once [fetchHistoricalData] has run to its end. *)
Definition fetchHistoricalData (B : Browser) (timeframe : string) (p : Page)
    : Page :=
  let p1 := requesting p in
  match load (fetch B (historical_url timeframe)) with
  | inr plotData =>
      {| historicalData := plotData; loading := false; logged := logged p1 |}
  | inl error =>
      {| historicalData := []; loading := false; logged := error :: logged p1 |}
  end.

(** The five series of [candlestickTrace]. *)
Definition candlestickTrace (historicalData : list Bar)
    : list Date * list (option json) * list (option json)
      * list (option json) * list (option json) :=
  (map x historicalData, map open historicalData, map high historicalData,
   map low historicalData, map close historicalData).

End Legacy.

(** ** The download button of components/DateDownloadButton.jsx.jsx *)

Definition newline : string := String (ascii_of_nat 10) EmptyString.

(** [pieces.join(sep)] on strings. *)
Fixpoint join_strings (sep : string) (pieces : list string) : string :=
  match pieces with
  | [] => EmptyString
  | [p] => p
  | p :: rest => p ++ sep ++ join_strings sep rest
  end.

(** The decimal indices ["0"; "1"; ...] of [n] elements. *)
Definition indices (n : nat) : list string :=
  map (fun i => string_of_N (N.of_nat i)) (seq 0 n).

(** The characters of a string, each as a string. *)
Fixpoint characters (s : string) : list string :=
  match s with
  | EmptyString => []
  | String c s' => String c EmptyString :: characters s'
  end.

(** [data[0]]: reading a property of [null] throws; [None] is
    [undefined]. *)
Definition first_of (data : json) : outcome (option json) :=
  match data with
  | JNull => Throw TypeError
  | JArr items => Ok (head items)
  | JObj fields => Ok (assoc "0" fields)
  | JStr s => Ok (JStr <$> head (characters s))
  | JBool _ | JNum _ => Ok None
  end.

(** [Object.keys(v)]: it throws on [undefined] and [null]; an object lists
    its properties in the order [JObj] holds them. *)
Definition Object_keys (v : option json) : outcome (list string) :=
  match v with
  | None | Some JNull => Throw TypeError
  | Some (JObj fields) => Ok (map fst fields)
  | Some (JArr items) => Ok (indices (List.length items))
  | Some (JStr s) => Ok (indices (String.length s))
  | Some (JBool _) | Some (JNum _) => Ok []
  end.

(** [Object.values(v)], for the values [data.map] passes: never
    [undefined]. *)
Definition Object_values (v : json) : outcome (list json) :=
  match v with
  | JNull => Throw TypeError
  | JObj fields => Ok (map snd fields)
  | JArr items => Ok items
  | JStr s => Ok (JStr <$> characters s)
  | JBool _ | JNum _ => Ok []
  end.

(** The texts [join] puts between the separators: nothing for [null], the
    text of the element otherwise. *)
Definition pieces_with (text : json -> outcome string)
    : list json -> outcome (list string) :=
  fix pieces (l : list json) : outcome (list string) :=
    match l with
    | [] => Ok []
    | JNull :: rest => ps ← pieces rest; Ok (EmptyString :: ps)
    | item :: rest => p ← text item; ps ← pieces rest; Ok (p :: ps)
    end.

(** ToString, and with it [items.join(',')] for a nested array.  An object
    is "[object Object]" unless it has a property named [toString] of its
    own, which is not callable and makes the conversion throw. *)
Fixpoint ToString (B : Browser) (v : json) : outcome string :=
  match v with
  | JNull => Ok "null"
  | JBool true => Ok "true"
  | JBool false => Ok "false"
  | JNum q => Ok (Number_toString B (double_of q))
  | JStr s => Ok s
  | JArr items =>
      pieces ← pieces_with (ToString B) items;
      Ok (join_strings "," pieces)
  | JObj fields =>
      match assoc "toString" fields with
      | Some _ => Throw TypeError
      | None => Ok "[object Object]"
      end
  end.

(** [values.join(',')]. *)
Definition join_values (B : Browser) (values : list json) : outcome string :=
  ToString B (JArr values).

(** [data.map(obj => Object.values(obj).join(','))]: only an array has
    [map]. *)
Fixpoint row_lines (B : Browser) (items : list json) : outcome (list string) :=
  match items with
  | [] => Ok []
  | obj :: rest =>
      values ← Object_values obj;
      line ← join_values B values;
      lines ← row_lines B rest;
      Ok (line :: lines)
  end.

Definition csv_rows (B : Browser) (data : json) : outcome (list string) :=
  match data with
  | JArr items => row_lines B items
  | _ => Throw TypeError
  end.

(** Step 3 of [handleDownload]: the text of the file. *)
Definition csvContent (B : Browser) (data : json) : outcome string :=
  first ← first_of data;
  keys ← Object_keys first;
  let headers := join_strings "," keys in
  lines ← csv_rows B data;
  let rows := join_strings newline lines in
  Ok (headers ++ newline ++ rows).

(** What the click ends with: a file handed to the browser, or the alert
    (with the error that was logged). *)
Inductive download : Type :=
  | Saved (filename content : string)
  | Alerted (error : failure).

Definition download_url (symbol timeframe : string) : string :=
  "http://localhost:8000/api/historical-data?symbol=" ++ symbol
    ++ "&timeframe=" ++ timeframe ++ "&limit=1000".

Definition handleDownload (B : Browser) (symbol timeframe : string) : download :=
  match fetch B (download_url symbol timeframe) with
  | Rejected => Alerted FetchRejected
  | Response status body =>
      if negb (response_ok status) then
        Alerted (Error ("HTTP error! Status: " ++ string_of_N status))
      else
        match body with
        | Throw e => Alerted (Thrown e)
        | Ok data =>
            match csvContent B data with
            | Ok content => Saved (symbol ++ "_" ++ timeframe ++ "_data.csv") content
            | Throw e => Alerted (Thrown e)
            end
        end
  end.

(** A string without the character [c]. *)
Fixpoint free_of (c : ascii) (s : string) : bool :=
  match s with
  | EmptyString => true
  | String c' s' => negb (Ascii.eqb c' c) && free_of c s'
  end.

(** A record of a table: an object all of whose values are strings without
    comma and line break, with at least one field. *)
Definition plain_cell (v : json) : bool :=
  match v with
  | JStr s => free_of "," s && free_of (ascii_of_nat 10) s
  | _ => false
  end.

Definition plain_record (v : json) : bool :=
  match v with
  | JObj ((k, c) :: fields) => forallb plain_cell (c :: map snd fields)
  | _ => false
  end.

(** The text of a cell that is a string. *)
Definition cell_text (v : json) : string :=
  match v with
  | JStr s => s
  | _ => EmptyString
  end.

Definition record_cells (v : json) : list string :=
  match v with
  | JObj fields => map (fun f => cell_text f.2) fields
  | _ => []
  end.

Definition record_keys (v : json) : list string :=
  match v with
  | JObj fields => map fst fields
  | _ => []
  end.

(* ================================================================== *)
(** * The metric boxes: [StatBox] in App.jsx *)
(* ================================================================== *)

(** One box, for a [value] and [prevValue] that are strings (the three
    numeric boxes, and the pair box while the pair is a string): its state
    variable, its ref, what React keeps of the last run of its effect (the
    [value] it ran for and the timeout its cleanup will clear), and the
    timeouts pending in the browser. *)
Record StatBox : Type := {
  flashClass : string;
  prevValueRef : string;
  value : option string;
  cleanup : option nat;
  flash_timers : list (nat * N);
  flash_next : nat;
  flash_clock : N
}.

(** The body of the effect, for the [value] of the render. *)
Definition StatBox_effect (v : string) (b : StatBox) : StatBox :=
  if negb (String.eqb (prevValueRef b) "---") && negb (String.eqb v "---") then
    let numValue := parseFloat v in
    let numPrevValue := parseFloat (prevValueRef b) in
    {| flashClass :=
         if num_gt numValue numPrevValue then "flash-up"
         else if num_lt numValue numPrevValue then "flash-down"
         else flashClass b;
       prevValueRef := prevValueRef b;
       value := Some v;
       cleanup := Some (flash_next b);
       flash_timers := (flash_next b, (flash_clock b + 400)%N) :: flash_timers b;
       flash_next := S (flash_next b);
       flash_clock := flash_clock b |}
  else
    {| flashClass := flashClass b;
       prevValueRef := v;
       value := Some v;
       cleanup := None;
       flash_timers := flash_timers b;
       flash_next := flash_next b;
       flash_clock := flash_clock b |}.

(** The cleanup of the last effect run, if that run returned one. *)
Definition StatBox_cleanup (b : StatBox) : StatBox :=
  match cleanup b with
  | Some id =>
      {| flashClass := flashClass b; prevValueRef := prevValueRef b;
         value := value b; cleanup := cleanup b;
         flash_timers := filter (fun t => t.1 ≠ id) (flash_timers b);
         flash_next := flash_next b; flash_clock := flash_clock b |}
  | None => b
  end.

(** The box after its first render with the props [v] and [prevValue]. *)
Definition StatBox_mount (v prevValue : string) : StatBox :=
  StatBox_effect v
    {| flashClass := EmptyString; prevValueRef := prevValue; value := None;
       cleanup := None; flash_timers := []; flash_next := 1; flash_clock := 0 |}.

(** What happens to a mounted box: it is rendered with a [value], time
    passes, or a timeout falls due. *)
Inductive box_event : Type :=
  | Render (v : string)
  | Wait (dt : N)
  | Expire (id : nat).

(** One event; [None] when it cannot happen.  The effect has [value] as
    its only dependency: a render with the [value] of the last run runs
    nothing; another one runs the cleanup and then the effect. *)
Definition box_step (e : box_event) (b : StatBox) : option StatBox :=
  match e with
  | Render v =>
      if bool_decide (value b = Some v) then Some b
      else Some (StatBox_effect v (StatBox_cleanup b))
  | Wait dt =>
      Some {| flashClass := flashClass b; prevValueRef := prevValueRef b;
              value := value b; cleanup := cleanup b;
              flash_timers := flash_timers b; flash_next := flash_next b;
              flash_clock := (flash_clock b + dt)%N |}
  | Expire id =>
      match due_of id (flash_timers b) with
      | Some due =>
          if (due <=? flash_clock b)%N then
            Some {| flashClass := EmptyString; prevValueRef := prevValueRef b;
                    value := value b; cleanup := cleanup b;
                    flash_timers := filter (fun t => t.1 ≠ id) (flash_timers b);
                    flash_next := flash_next b; flash_clock := flash_clock b |}
          else None
      | None => None
      end
  end.

Fixpoint box_run (es : list box_event) (b : StatBox) : option StatBox :=
  match es with
  | [] => Some b
  | e :: rest =>
      match box_step e b with
      | Some b' => box_run rest b'
      | None => None
      end
  end.

(** The placeholder "---" is not rendered. *)
Definition no_placeholder (e : box_event) : Prop := e <> Render "---".


(* ================================================================== *)
(** * Properties *)
(* ================================================================== *)

(** ** The number functions on sample inputs *)

Example toFixed_pads : toFixed (double_of 10) 3 = "10.000".
Proof. vm_compute. reflexivity. Qed.

Example toFixed_rounds : toFixed (double_of (12345 # 1000)) 2 = "12.35".
Proof. vm_compute. reflexivity. Qed.

Example toFixed_third : toFixed (double_of (1 # 3)) 4 = "0.3333".
Proof. vm_compute. reflexivity. Qed.

Example toFixed_half_away_from_zero : toFixed (double_of (-5 # 2)) 0 = "-3".
Proof. vm_compute. reflexivity. Qed.

Example toFixed_keeps_sign : toFixed (double_of (-1 # 1000)) 2 = "-0.00".
Proof. vm_compute. reflexivity. Qed.

Example toFixed_rounds_the_double :
  toFixed (double_of (2005 # 1000)) 2 = "2.00" /\
  toFixed (double_of (10005 # 10000)) 3 = "1.000".
Proof. split; vm_compute; reflexivity. Qed.

Example toFixed_exponent_form :
  toFixed (double_of (10 ^ 21)) 2 = "1e+21" /\
  toFixed (double_of (- (2 ^ 70))) 3 = "-1.1805916207174113e+21".
Proof. split; vm_compute; reflexivity. Qed.

Example toFixed_Infinity : toFixed (double_of (10 ^ 999)) 3 = "Infinity".
Proof. vm_compute. reflexivity. Qed.

Example parseFloat_dashes : parseFloat "---" = NaN.
Proof. reflexivity. Qed.

Example parseFloat_prefix : parseFloat "5.x" = Fin 5.
Proof. vm_compute. reflexivity. Qed.

Example parseFloat_fraction : parseFloat "-.5" = Fin (-1 # 2).
Proof. vm_compute. reflexivity. Qed.

Example parseFloat_dot : parseFloat "." = NaN.
Proof. reflexivity. Qed.

Example parseFloat_exponent : parseFloat " 1e+21" = Fin (10 ^ 21).
Proof. vm_compute. reflexivity. Qed.

Example parseFloat_Infinity_text : parseFloat "-Infinity" = Inf true.
Proof. reflexivity. Qed.

Example StringToNumber_whole : StringToNumber "5.x" = NaN.
Proof. vm_compute. reflexivity. Qed.

Example StringToNumber_zero : StringToNumber "-0.00" = Fin 0.
Proof. vm_compute. reflexivity. Qed.

Example StringToNumber_hexadecimal : StringToNumber "0x1F" = Fin 31.
Proof. vm_compute. reflexivity. Qed.

Example dashes_minus_dashes :
  num_sub (StringToNumber "---") (StringToNumber "---") = NaN.
Proof. reflexivity. Qed.

Example double_subtraction :
  num_sub (StringToNumber "0.300") (parseFloat "0.100")
  = Fin (7205759403792793 # 36028797018963968).
Proof. vm_compute. reflexivity. Qed.

(** ** Rounding to a double keeps the order *)

Section Rounding.
Local Open Scope Q_scope.

Lemma pow2_pos e : 0 < 2 ^ e.
Proof. apply Qpower_0_lt. reflexivity. Qed.

Lemma pow2_succ e : 2 ^ (e + 1) == 2 * 2 ^ e.
Proof. rewrite Qpower_plus by discriminate. ring. Qed.

Lemma pow2_inject n : (0 <= n)%Z -> inject_Z (2 ^ n) == 2 ^ n.
Proof. intros H. now rewrite Zpower_Qpower. Qed.

Lemma log2_bounds a : (0 < a)%Z ->
  inject_Z (2 ^ Z.log2 a) <= inject_Z a /\ inject_Z a < inject_Z (2 ^ (Z.log2 a + 1)).
Proof.
  intros H. destruct (Z.log2_spec a H) as [H1 H2].
  split; [rewrite <- Zle_Qle; exact H1|].
  rewrite <- Zlt_Qlt. replace (Z.log2 a + 1)%Z with (Z.succ (Z.log2 a)) by lia. exact H2.
Qed.

Lemma binade_spec q : 0 < q -> 2 ^ binade q <= q /\ q < 2 ^ (binade q + 1).
Proof.
  intros Hq. unfold binade.
  set (la := Z.log2 (Qnum q)). set (ld := Z.log2 (Z.pos (Qden q))).
  assert (Hn : (0 < Qnum q)%Z).
  { destruct q as [n d]. unfold Qlt in Hq. cbn in *. lia. }
  destruct (log2_bounds (Qnum q) Hn) as [A1 A2].
  destruct (log2_bounds (Z.pos (Qden q)) ltac:(lia)) as [D1 D2].
  fold la in A1, A2. fold ld in D1, D2.
  assert (Hla : (0 <= la)%Z) by apply Z.log2_nonneg.
  assert (Hld : (0 <= ld)%Z) by apply Z.log2_nonneg.
  rewrite pow2_inject in A1, A2, D1, D2 by lia.
  assert (Eq : q == inject_Z (Qnum q) / inject_Z (Z.pos (Qden q))).
  { destruct q as [n d]. cbn. apply Qmake_Qdiv. }
  assert (Hd : 0 < inject_Z (Z.pos (Qden q))) by (rewrite <- (Zlt_Qlt 0); lia).
  set (A := inject_Z (Qnum q)) in *. set (D := inject_Z (Z.pos (Qden q))) in *.
  assert (Hup : q < 2 ^ (la - ld + 1)).
  { rewrite Eq. apply Qlt_shift_div_r; [exact Hd|].
    eapply Qlt_le_trans; [exact A2|].
    replace (la + 1)%Z with ((la - ld + 1) + ld)%Z by lia.
    rewrite Qpower_plus by discriminate.
    apply Qmult_le_l; [apply pow2_pos|exact D1]. }
  assert (Hlo : 2 ^ (la - ld - 1) < q).
  { rewrite Eq. apply Qlt_shift_div_l; [exact Hd|].
    eapply Qlt_le_trans; [|exact A1].
    replace la with ((la - ld - 1) + (ld + 1))%Z at 2 by lia.
    rewrite Qpower_plus by discriminate.
    apply Qmult_lt_l; [apply pow2_pos|exact D2]. }
  destruct (Qle_bool (2 ^ (la - ld)) q) eqn:Hb.
  - apply Qle_bool_iff in Hb. split; [exact Hb|exact Hup].
  - split; [apply Qlt_le_weak; exact Hlo|].
    replace (la - ld - 1 + 1)%Z with (la - ld)%Z by lia.
    apply Qnot_le_lt. intros H. apply Qle_bool_iff in H. congruence.
Qed.

Lemma pow2_lt_inv a b : 2 ^ a < 2 ^ b -> (a < b)%Z.
Proof. intros H. apply (Qpower_lt_compat_l_inv 2); [exact H|reflexivity]. Qed.

Lemma pow2_le a b : (a <= b)%Z -> 2 ^ a <= 2 ^ b.
Proof. intros H. apply Qpower_le_compat_l; [exact H|discriminate]. Qed.

Lemma binade_unique q b : 2 ^ b <= q -> q < 2 ^ (b + 1) -> binade q = b.
Proof.
  intros H1 H2.
  assert (Hq : 0 < q) by (eapply Qlt_le_trans; [apply (pow2_pos b)|exact H1]).
  destruct (binade_spec q Hq) as [B1 B2].
  assert (binade q < b + 1)%Z.
  { apply pow2_lt_inv. eapply Qle_lt_trans; [exact B1|exact H2]. }
  assert (b < binade q + 1)%Z.
  { apply pow2_lt_inv. eapply Qle_lt_trans; [exact H1|exact B2]. }
  lia.
Qed.

Lemma binade_mono p q : 0 < p -> p <= q -> (binade p <= binade q)%Z.
Proof.
  intros Hp Hpq.
  assert (Hq : 0 < q) by (eapply Qlt_le_trans; eassumption).
  destruct (binade_spec p Hp) as [P1 _]. destruct (binade_spec q Hq) as [_ Q2].
  assert (binade p < binade q + 1)%Z; [|lia].
  apply pow2_lt_inv. eapply Qle_lt_trans; [exact P1|].
  eapply Qle_lt_trans; [exact Hpq|exact Q2].
Qed.

Lemma round_half_even_bounds y :
  (Qfloor y <= round_half_even y <= Qfloor y + 1)%Z.
Proof.
  unfold round_half_even.
  destruct (y - inject_Z (Qfloor y) ?= 1 # 2); [destruct (Z.even (Qfloor y))| |]; lia.
Qed.

Lemma round_half_even_ge y n : inject_Z n <= y -> (n <= round_half_even y)%Z.
Proof.
  intros H. apply Qfloor_resp_le in H. rewrite Qfloor_Z in H.
  pose proof (round_half_even_bounds y). lia.
Qed.

Lemma round_half_even_le y n : y <= inject_Z n -> (round_half_even y <= n)%Z.
Proof.
  intros H. unfold round_half_even.
  pose proof (Qfloor_resp_le _ _ H) as Hf. rewrite Qfloor_Z in Hf.
  destruct (Z.eq_dec (Qfloor y) n) as [E|E].
  - rewrite E.
    destruct (Qcompare_spec (y - inject_Z n) (1 # 2));
      [exfalso; lra | lia | exfalso; lra].
  - destruct (y - inject_Z (Qfloor y) ?= 1 # 2); [destruct (Z.even (Qfloor y))| |]; lia.
Qed.

Lemma round_half_even_mono x y : x <= y -> (round_half_even x <= round_half_even y)%Z.
Proof.
  intros H. pose proof (Qfloor_resp_le _ _ H) as Hf.
  pose proof (round_half_even_bounds x) as Bx.
  pose proof (round_half_even_bounds y) as By.
  destruct (Z.eq_dec (Qfloor x) (Qfloor y)) as [E|E]; [|lia].
  unfold round_half_even. rewrite E.
  destruct (Qcompare_spec (x - inject_Z (Qfloor y)) (1 # 2));
    destruct (Qcompare_spec (y - inject_Z (Qfloor y)) (1 # 2));
    try (destruct (Z.even (Qfloor y))); try lia; exfalso; lra.
Qed.

Lemma round_half_even_comp x y : x == y -> round_half_even x = round_half_even y.
Proof.
  intros H. unfold round_half_even. rewrite (Qfloor_comp _ _ H).
  assert (E : (x - inject_Z (Qfloor y) ?= 1 # 2) = (y - inject_Z (Qfloor y) ?= 1 # 2)).
  { now rewrite H. }
  now rewrite E.
Qed.

Lemma grid_mono p q : 0 < p -> p <= q -> (grid p <= grid q)%Z.
Proof. intros Hp H. unfold grid. pose proof (binade_mono p q Hp H). lia. Qed.

Lemma div_pow2_le x y e : x <= y -> x / 2 ^ e <= y / 2 ^ e.
Proof.
  intros H. unfold Qdiv. apply Qmult_le_compat_r; [exact H|].
  apply Qlt_le_weak, Qinv_lt_0_compat, pow2_pos.
Qed.

Lemma scaled_upper q : 0 < q -> q / 2 ^ grid q < inject_Z (2 ^ 53).
Proof.
  intros Hq. destruct (binade_spec q Hq) as [_ B].
  apply Qlt_shift_div_r; [apply pow2_pos|].
  eapply Qlt_le_trans; [exact B|].
  rewrite pow2_inject by lia. rewrite <- Qpower_plus by discriminate.
  apply pow2_le. unfold grid. lia.
Qed.

Lemma scaled_lower q : 0 < q -> (-1074 < binade q - 52)%Z ->
  inject_Z (2 ^ 52) <= q / 2 ^ grid q.
Proof.
  intros Hq Hn. destruct (binade_spec q Hq) as [B _].
  apply Qle_shift_div_l; [apply pow2_pos|].
  eapply Qle_trans; [|exact B].
  rewrite pow2_inject by lia. rewrite <- Qpower_plus by discriminate.
  apply pow2_le. unfold grid. lia.
Qed.

Lemma nearest_double_mono p q : 0 < p -> p <= q -> nearest_double p <= nearest_double q.
Proof.
  intros Hp H.
  assert (Hq : 0 < q) by (eapply Qlt_le_trans; eassumption).
  unfold nearest_double.
  pose proof (grid_mono p q Hp H) as Hg.
  destruct (Z.eq_dec (grid p) (grid q)) as [E|E].
  - rewrite E. apply Qmult_le_compat_r; [|apply Qlt_le_weak, pow2_pos].
    rewrite <- Zle_Qle. apply round_half_even_mono, div_pow2_le, H.
  - assert (Hlt : (grid p < grid q)%Z) by lia.
    assert (Hnq : (-1074 < binade q - 52)%Z) by (unfold grid in *; lia).
    apply Qle_trans with (inject_Z (2 ^ 53) * 2 ^ grid p).
    + apply Qmult_le_compat_r; [|apply Qlt_le_weak, pow2_pos].
      rewrite <- Zle_Qle. apply round_half_even_le, Qlt_le_weak, scaled_upper, Hp.
    + apply Qle_trans with (inject_Z (2 ^ 52) * 2 ^ grid q).
      * rewrite !pow2_inject by lia. rewrite <- !Qpower_plus by discriminate.
        apply pow2_le. lia.
      * apply Qmult_le_compat_r; [|apply Qlt_le_weak, pow2_pos].
        rewrite <- Zle_Qle. apply round_half_even_ge, scaled_lower; assumption.
Qed.

Lemma nearest_double_nonneg q : 0 <= q -> 0 <= nearest_double q.
Proof.
  intros H. unfold nearest_double.
  apply Qmult_le_0_compat; [|apply Qlt_le_weak, pow2_pos].
  rewrite <- (Zle_Qle 0). apply round_half_even_ge.
  apply Qle_shift_div_l; [apply pow2_pos|].
  change (inject_Z 0) with 0. rewrite Qmult_0_l. exact H.
Qed.

Lemma Qnum_neg r : (Qnum r <? 0)%Z = true <-> r < 0.
Proof. destruct r as [n d]. unfold Qlt. cbn. rewrite Z.ltb_lt. lia. Qed.

Lemma Qnum_zero r : (Qnum r =? 0)%Z = true <-> r == 0.
Proof. destruct r as [n d]. unfold Qeq. cbn. rewrite Z.eqb_eq. lia. Qed.

Lemma Qabs_of_pos r : 0 < r -> Qabs r == r.
Proof. intros H. apply Qabs_pos. lra. Qed.

Lemma Qabs_of_neg r : r < 0 -> Qabs r == - r.
Proof. intros H. apply Qabs_neg. lra. Qed.

Lemma nearest_double_comp p q : p = q -> nearest_double p = nearest_double q.
Proof. now intros ->. Qed.

(** The sign of a rational, by cases. *)
Lemma Q_sign_cases r :
  ((Qnum r =? 0)%Z = true /\ r == 0) \/
  ((Qnum r =? 0)%Z = false /\ (Qnum r <? 0)%Z = true /\ r < 0) \/
  ((Qnum r =? 0)%Z = false /\ (Qnum r <? 0)%Z = false /\ 0 < r).
Proof.
  destruct r as [n d]. unfold Qlt, Qeq. cbn.
  destruct (Z.eqb_spec n 0); destruct (Z.ltb_spec n 0); lia.
Qed.

Lemma double_of_zero q : q == 0 -> double_of q = Fin 0.
Proof.
  intros H. unfold double_of.
  assert (E : (Qnum (Qred q) =? 0)%Z = true).
  { apply Qnum_zero. now rewrite Qred_correct. }
  now rewrite E.
Qed.

Lemma double_of_pos q : 0 < q ->
  double_of q
  = if Qle_bool (nearest_double (Qred q)) max_double
    then Fin (Qred (nearest_double (Qred q))) else Inf false.
Proof.
  intros H. unfold double_of.
  assert (Hr : 0 < Qred q) by now rewrite Qred_correct.
  destruct (Q_sign_cases (Qred q)) as [[_ E]|[(_ & _ & E)|(E0 & E1 & _)]];
    [exfalso; lra | exfalso; lra |].
  rewrite E0, E1.
  assert (Ea : Qabs (Qred q) = Qred q).
  { destruct (Qred q) as [[|p|p] d]; try reflexivity.
    apply Z.ltb_ge in E1. cbn in E1. lia. }
  now rewrite Ea.
Qed.

Lemma double_of_neg q : q < 0 ->
  double_of q
  = if Qle_bool (nearest_double (- Qred q)) max_double
    then Fin (Qred (- nearest_double (- Qred q))) else Inf true.
Proof.
  intros H. unfold double_of.
  assert (Hr : Qred q < 0) by now rewrite Qred_correct.
  destruct (Q_sign_cases (Qred q)) as [[_ E]|[(E0 & E1 & _)|(_ & _ & E)]];
    [exfalso; lra | | exfalso; lra].
  rewrite E0, E1.
  assert (Ea : Qabs (Qred q) = - Qred q).
  { destruct (Qred q) as [[|p|p] d]; try reflexivity.
    apply Z.ltb_lt in E1. cbn in E1. lia. }
  now rewrite Ea.
Qed.

Lemma double_of_comp p q : p == q -> double_of p = double_of q.
Proof. intros H. unfold double_of. now rewrite (Qred_complete _ _ H). Qed.

(** Rounding keeps the order. *)
Lemma double_of_mono p q : p <= q -> num_ge (double_of q) (double_of p) = true.
Proof.
  intros H.
  destruct (Qlt_le_dec 0 q) as [Hq|Hq].
  - rewrite (double_of_pos q Hq).
    assert (Nq : 0 <= nearest_double (Qred q)).
    { apply nearest_double_nonneg. rewrite Qred_correct. lra. }
    destruct (Qlt_le_dec 0 p) as [Hp|Hp].
    + rewrite (double_of_pos p Hp).
      assert (Hm : nearest_double (Qred p) <= nearest_double (Qred q)).
      { apply nearest_double_mono; rewrite !Qred_correct; assumption. }
      destruct (Qle_bool (nearest_double (Qred q)) max_double) eqn:Bq.
      * apply Qle_bool_iff in Bq.
        assert (Bp : Qle_bool (nearest_double (Qred p)) max_double = true).
        { apply Qle_bool_iff. lra. }
        rewrite Bp. cbn [num_ge]. apply Qle_bool_iff. apply Qred_le. exact Hm.
      * destruct (Qle_bool (nearest_double (Qred p)) max_double); reflexivity.
    + destruct (Qle_lt_or_eq _ _ Hp) as [Hp'|Hp'].
      * rewrite (double_of_neg p Hp').
        assert (Np : 0 <= nearest_double (- Qred p)).
        { apply nearest_double_nonneg. rewrite Qred_correct. lra. }
        destruct (Qle_bool (nearest_double (Qred q)) max_double);
          destruct (Qle_bool (nearest_double (- Qred p)) max_double);
          try reflexivity.
        cbn [num_ge]. apply Qle_bool_iff, Qred_le. lra.
      * rewrite (double_of_zero p Hp').
        destruct (Qle_bool (nearest_double (Qred q)) max_double); [|reflexivity].
        cbn [num_ge]. apply Qle_bool_iff. rewrite Qred_correct. exact Nq.
  - destruct (Qle_lt_or_eq _ _ Hq) as [Hq'|Hq'].
    + assert (Hp : p < 0) by lra.
      rewrite (double_of_neg q Hq'), (double_of_neg p Hp).
      assert (Hm : nearest_double (- Qred q) <= nearest_double (- Qred p)).
      { apply nearest_double_mono; rewrite !Qred_correct; lra. }
      destruct (Qle_bool (nearest_double (- Qred p)) max_double) eqn:Bp.
      * apply Qle_bool_iff in Bp.
        assert (Bq : Qle_bool (nearest_double (- Qred q)) max_double = true).
        { apply Qle_bool_iff. lra. }
        rewrite Bq. cbn [num_ge]. apply Qle_bool_iff, Qred_le. lra.
      * destruct (Qle_bool (nearest_double (- Qred q)) max_double); reflexivity.
    + rewrite (double_of_zero q Hq').
      destruct (Qle_lt_or_eq _ _ H) as [Hp|Hp].
      * assert (Hp' : p < 0) by lra.
        rewrite (double_of_neg p Hp').
        assert (Np : 0 <= nearest_double (- Qred p)).
        { apply nearest_double_nonneg. rewrite Qred_correct. lra. }
        destruct (Qle_bool (nearest_double (- Qred p)) max_double); [|reflexivity].
        cbn [num_ge]. apply Qle_bool_iff. rewrite Qred_correct. lra.
      * rewrite (double_of_zero p) by lra. reflexivity.
Qed.

End Rounding.

Section Doubles.
Local Open Scope Q_scope.

Lemma double_of_not_NaN q : double_of q <> NaN.
Proof.
  unfold double_of. destruct (Qnum (Qred q) =? 0)%Z; [discriminate|].
  destruct (Qle_bool _ max_double); discriminate.
Qed.

(** A finite result is within the range of the doubles. *)
Lemma double_of_range q v : double_of q = Fin v -> Qabs v <= max_double.
Proof.
  unfold double_of. destruct (Qnum (Qred q) =? 0)%Z.
  - intros H. inversion H. discriminate.
  - set (a := nearest_double (Qabs (Qred q))).
    assert (Ha : 0 <= a) by (apply nearest_double_nonneg, Qabs_nonneg).
    destruct (Qle_bool a max_double) eqn:B; [|discriminate].
    apply Qle_bool_iff in B. intros H. inversion H as [Hv].
    rewrite Qred_correct.
    destruct (Qnum (Qred q) <? 0)%Z.
    + rewrite Qabs_opp, Qabs_pos; assumption.
    + rewrite Qabs_pos; assumption.
Qed.

Lemma double_of_max : double_of max_double = Fin (Qred max_double).
Proof. vm_compute. reflexivity. Qed.

Lemma double_of_min : double_of (- max_double) = Fin (Qred (- max_double)).
Proof. vm_compute. reflexivity. Qed.

(** What lies within the range of the doubles rounds to a finite double. *)
Lemma double_of_finite q : Qabs q <= max_double -> exists v, double_of q = Fin v.
Proof.
  intros H.
  assert (H1 : q <= max_double).
  { eapply Qle_trans; [apply Qle_Qabs|exact H]. }
  assert (H2 : - max_double <= q).
  { rewrite <- (Qopp_involutive q). apply Qopp_le_compat.
    eapply Qle_trans; [|exact H]. rewrite <- Qabs_opp. apply Qle_Qabs. }
  pose proof (double_of_mono _ _ H1) as M1. rewrite double_of_max in M1.
  pose proof (double_of_mono _ _ H2) as M2. rewrite double_of_min in M2.
  destruct (double_of q) as [|[]|v] eqn:E; try discriminate; eauto.
Qed.

Lemma Qabs_opp_eq r : (0 <= Qnum r)%Z -> Qabs (- r) = r.
Proof.
  destruct r as [[|p|p] d]; intros H; try reflexivity. cbn in H. lia.
Qed.

Lemma Qabs_eq r : (0 <= Qnum r)%Z -> Qabs r = r.
Proof.
  destruct r as [[|p|p] d]; intros H; try reflexivity. cbn in H. lia.
Qed.

Lemma Qopp_opp_eq (r : Q) : - - r = r.
Proof. destruct r as [n d]. unfold Qopp. cbn. now rewrite Z.opp_involutive. Qed.

Lemma Qnum_nonneg r : 0 <= r -> (0 <= Qnum r)%Z.
Proof. destruct r as [n d]. unfold Qle. cbn. lia. Qed.

(** The magnitude of the double of [q] is the double of the magnitude. *)
Lemma Math_abs_double_of q : Math_abs (double_of q) = double_of (Qabs q).
Proof.
  destruct (Q_dec 0 q) as [[Hq|Hq]|Hq].
  - rewrite (double_of_comp (Qabs q) q) by (apply Qabs_pos; lra).
    rewrite (double_of_pos q Hq).
    destruct (Qle_bool _ max_double); [|reflexivity].
    cbn [Math_abs]. f_equal. apply Qabs_eq, Qnum_nonneg.
    rewrite Qred_correct. apply nearest_double_nonneg. rewrite Qred_correct. lra.
  - rewrite (double_of_comp (Qabs q) (- q)) by (apply Qabs_neg; lra).
    rewrite (double_of_neg q Hq), (double_of_pos (- q)) by lra.
    rewrite (Qred_opp q).
    destruct (Qle_bool _ max_double); [|reflexivity].
    cbn [Math_abs]. f_equal. rewrite Qred_opp. apply Qabs_opp_eq, Qnum_nonneg.
    rewrite Qred_correct. apply nearest_double_nonneg. rewrite Qred_correct. lra.
  - rewrite (double_of_zero q) by (symmetry; exact Hq).
    rewrite (double_of_zero (Qabs q)); [reflexivity|].
    rewrite <- Hq. reflexivity.
Qed.

(** What is above a double stays above it once rounded. *)
Lemma double_of_above q b v :
  double_of b = Fin v -> b <= q -> num_ge (double_of q) (Fin v) = true.
Proof. intros Hb H. rewrite <- Hb. now apply double_of_mono. Qed.

Lemma double_of_below q b v :
  double_of b = Fin v -> q <= b -> num_ge (Fin v) (double_of q) = true.
Proof. intros Hb H. rewrite <- Hb. now apply double_of_mono. Qed.

Lemma num_ge_gt a v w :
  num_ge a (Fin v) = true -> w < v -> num_gt a (Fin w) = true.
Proof.
  destruct a as [|[]|x]; cbn; try discriminate; try reflexivity.
  intros H Hw. apply Qle_bool_iff in H. apply negb_true_iff.
  apply not_true_iff_false. intros C. apply Qle_bool_iff in C. lra.
Qed.

Lemma num_ge_not_gt a v w :
  num_ge (Fin v) a = true -> v <= w -> num_gt a (Fin w) = false.
Proof.
  destruct a as [|[]|x]; cbn; try discriminate; try reflexivity.
  intros H Hw. apply Qle_bool_iff in H. apply negb_false_iff.
  apply Qle_bool_iff. lra.
Qed.

(** The difference of a finite number with itself is zero; of an infinity
    with itself it is [NaN]. *)
Lemma num_sub_self v : num_sub (Fin v) (Fin v) = Fin 0.
Proof. cbn. apply double_of_zero. ring. Qed.

Lemma num_sub_Inf b : num_sub (Inf b) (Inf b) = NaN.
Proof. destruct b; reflexivity. Qed.

End Doubles.

(** ** Decimal text: reading back what [toFixed] writes *)

Lemma horner_pos u : forall p, horner u (Npos p) = Npos (Pos.of_uint_acc u p).
Proof.
  induction u; intros p; simpl; try reflexivity;
    try (rewrite <- IHu; f_equal; lia).
Qed.

Lemma horner_of_uint u : horner u 0 = N.of_uint u.
Proof.
  unfold N.of_uint.
  induction u; simpl; try reflexivity; try assumption;
    apply horner_pos.
Qed.

Lemma read_digits_uint u : forall acc cnt rest,
  no_digit_head rest ->
  read_digits (string_of_uint u ++ rest) acc cnt
  = (horner u acc, (cnt + Decimal.nb_digits u)%nat, rest).
Proof.
  induction u; intros acc cnt rest Hrest; simpl;
    try (rewrite IHu by assumption; do 2 f_equal; lia).
  destruct rest; simpl in *; [|rewrite Hrest]; do 2 f_equal; lia.
Qed.

Lemma horner_acc u : forall acc,
  horner u acc = (acc * 10 ^ N.of_nat (Decimal.nb_digits u) + horner u 0)%N.
Proof.
  induction u; intros acc; cbn [horner Decimal.nb_digits];
    try (rewrite IHu, (IHu (0 * 10 + _)%N), Nat2N.inj_succ, N.pow_succ_r'; lia).
  cbn. lia.
Qed.

Lemma digit_ascii_roundtrip d : (d < 10)%N -> digit_of_ascii (ascii_of_digit d) = Some d.
Proof.
  intros H.
  assert (Hc : In d [0;1;2;3;4;5;6;7;8;9]%N).
  { simpl. lia. }
  simpl in Hc. intuition (subst; try reflexivity; try lia).
Qed.

Lemma read_digits_fixed k : forall f acc cnt rest,
  (f < 10 ^ N.of_nat k)%N ->
  no_digit_head rest ->
  read_digits (fixed_digits k f ++ rest) acc cnt
  = ((acc * 10 ^ N.of_nat k + f)%N, (cnt + k)%nat, rest).
Proof.
  induction k as [|k IH]; intros f acc cnt rest Hf Hrest.
  - change (10 ^ N.of_nat 0)%N with 1%N in *.
    assert (f = 0%N) by lia. subst f.
    replace (acc * 1 + 0)%N with acc by lia. rewrite Nat.add_0_r.
    simpl.
    destruct rest as [|c r]; simpl; [reflexivity|].
    simpl in Hrest. now rewrite Hrest.
  - simpl fixed_digits. simpl String.append. simpl read_digits.
    assert (Hp : (10 ^ N.of_nat (S k) = 10 * 10 ^ N.of_nat k)%N).
    { rewrite Nat2N.inj_succ, N.pow_succ_r'. reflexivity. }
    assert (Hpos : (0 < 10 ^ N.of_nat k)%N) by (apply N.neq_0_lt_0, N.pow_nonzero; lia).
    assert (Hd : (f / 10 ^ N.of_nat k < 10)%N).
    { apply N.Div0.div_lt_upper_bound. lia. }
    rewrite digit_ascii_roundtrip by assumption.
    rewrite IH; [|apply N.mod_lt; lia|assumption].
    pose proof (N.div_mod f (10 ^ N.of_nat k) ltac:(lia)) as Hdm.
    replace ((acc * 10 + f / 10 ^ N.of_nat k) * 10 ^ N.of_nat k
             + f mod 10 ^ N.of_nat k)%N
      with (acc * 10 ^ N.of_nat (S k) + f)%N by (rewrite Hp; nia).
    replace (S cnt + k)%nat with (cnt + S k)%nat by lia.
    reflexivity.
Qed.

Lemma to_uint_head n :
  exists c s, string_of_N n = String c s /\ digit_of_ascii c <> None
              /\ c <> "-"%char /\ c <> "+"%char.
Proof.
  unfold string_of_N.
  assert (H : N.to_uint n <> Decimal.Nil).
  { destruct n; simpl; [discriminate|]. apply DecimalPos.Unsigned.to_uint_nonnil. }
  destruct (N.to_uint n); [congruence| ..]; simpl;
    eexists _, _; (split; [reflexivity|]); repeat split; discriminate.
Qed.

Lemma to_uint_digits n : Decimal.nb_digits (N.to_uint n) <> O.
Proof.
  assert (H : N.to_uint n <> Decimal.Nil).
  { destruct n; simpl; [discriminate|]. apply DecimalPos.Unsigned.to_uint_nonnil. }
  destruct (N.to_uint n); simpl; congruence.
Qed.

Lemma append_cons c (s t : string) : String c s ++ t = String c (s ++ t).
Proof. reflexivity. Qed.

Lemma append_nil (t : string) : EmptyString ++ t = t.
Proof. reflexivity. Qed.

Lemma append_nil_r (t : string) : t ++ EmptyString = t.
Proof. induction t as [|c t IH]; [reflexivity|]. now rewrite append_cons, IH. Qed.

Lemma append_assoc (s t u : string) : (s ++ t) ++ u = s ++ t ++ u.
Proof. induction s as [|c s IH]; [reflexivity|]. now rewrite !append_cons, IH. Qed.

Lemma digit_not_white c : digit_of_ascii c <> None -> is_white c = false.
Proof.
  unfold digit_of_ascii, is_white. set (n := N_of_ascii c).
  destruct ((48 <=? n) && (n <=? 57))%N eqn:E; [|congruence]. intros _.
  apply andb_true_iff in E as [E1 E2].
  apply N.leb_le in E1. apply N.leb_le in E2.
  assert (H1 : (n <=? 13)%N = false) by (apply N.leb_gt; lia).
  assert (H2 : (n =? 32)%N = false) by (apply N.eqb_neq; lia).
  assert (H3 : (n =? 160)%N = false) by (apply N.eqb_neq; lia).
  rewrite H1, H2, H3. now rewrite andb_false_r.
Qed.

Lemma digit_not_Infinity c s :
  digit_of_ascii c <> None -> after_prefix "Infinity" (String c s) = None.
Proof.
  intros H.
  change (after_prefix "Infinity" (String c s))
    with (if Ascii.eqb "I" c then after_prefix "nfinity" s else None).
  destruct (Ascii.eqb_spec "I" c) as [<-|]; [|reflexivity].
  now contradiction H.
Qed.

(** The exponent part that [exponential] writes. *)
Lemma read_exponent_text e :
  read_exponent ("e+" ++ string_of_N e) = (Z.of_N e, EmptyString).
Proof.
  change ("e+" ++ string_of_N e) with (String "e" (String "+" (string_of_N e))).
  unfold read_exponent.
  change (Ascii.eqb "e" "e" || Ascii.eqb "e" "E") with true. cbv iota.
  change (read_sign (String "+" (string_of_N e))) with (false, string_of_N e).
  cbv iota beta. unfold string_of_N.
  pose proof (read_digits_uint (N.to_uint e) 0 O EmptyString I) as H.
  rewrite append_nil_r in H. rewrite H.
  rewrite horner_of_uint, DecimalN.Unsigned.of_to. cbn [Nat.add].
  pose proof (to_uint_digits e).
  destruct (Decimal.nb_digits (N.to_uint e)); [congruence|reflexivity].
Qed.

(** Reading a text of digits, fraction and exponent part. *)
Lemma read_literal_text (negative : bool) ip nf f tail ex :
  (f < 10 ^ N.of_nat nf)%N ->
  no_digit_head tail ->
  (forall t, tail <> String "." t) ->
  read_exponent tail = (ex, EmptyString) ->
  read_literal ((if negative then "-" else EmptyString)
                  ++ string_of_N ip
                  ++ (match nf with
                      | O => EmptyString
                      | S _ => "." ++ fixed_digits nf f
                      end)
                  ++ tail)
  = Some (double_of (literal_value negative (ip * 10 ^ N.of_nat nf + f) nf ex),
          EmptyString).
Proof.
  intros Hf Htail Hdot Hex. unfold read_literal.
  set (frac := match nf with O => EmptyString | S _ => "." ++ fixed_digits nf f end).
  assert (Hfrac : no_digit_head (frac ++ tail)).
  { subst frac. destruct nf; [exact Htail|reflexivity]. }
  destruct (to_uint_head ip) as (c & s & Hs & Hdig & Hm & Hp).
  assert (Hsign : read_sign ((if negative then "-" else EmptyString)
                    ++ string_of_N ip ++ frac ++ tail)
                  = (negative, string_of_N ip ++ frac ++ tail)).
  { destruct negative; [reflexivity|].
    rewrite Hs. simpl.
    destruct c as [[] [] [] [] [] [] [] []]; try reflexivity; congruence. }
  rewrite Hsign.
  assert (Hinf : after_prefix "Infinity" (string_of_N ip ++ frac ++ tail) = None).
  { rewrite Hs, append_cons. now apply digit_not_Infinity. }
  rewrite Hinf. unfold string_of_N.
  rewrite read_digits_uint by assumption.
  rewrite horner_of_uint, DecimalN.Unsigned.of_to. simpl Nat.add.
  pose proof (to_uint_digits ip) as Hnz.
  destruct (Decimal.nb_digits (N.to_uint ip)) as [|ni]; [congruence|].
  subst frac. destruct nf as [|nf'].
  - change (10 ^ N.of_nat 0)%N with 1%N in *.
    assert (f = 0%N) by lia. subst f.
    replace (ip * 1 + 0)%N with ip by lia.
    rewrite append_nil.
    destruct tail as [|c0 t0].
    + cbn in Hex. inversion Hex. cbn. reflexivity.
    + assert (Hc0 : c0 <> "."%char) by (intros ->; exact (Hdot t0 eq_refl)).
      destruct c0 as [[] [] [] [] [] [] [] []];
        first [ solve [exfalso; apply Hc0; reflexivity]
              | cbv iota beta; rewrite Hex; reflexivity ].
  - rewrite append_assoc, append_cons, append_nil.
    rewrite read_digits_fixed by assumption.
    simpl Nat.add. cbv iota beta. rewrite Hex. reflexivity.
Qed.

Section ReadBack.
Local Open Scope Q_scope.

Lemma pow10_pos_of_nat d : Z.pos (Pos.of_nat (Nat.pow 10 d)) = (10 ^ Z.of_nat d)%Z.
Proof.
  assert (H : (Nat.pow 10 d <> 0)%nat) by (apply Nat.pow_nonzero; lia).
  change 10%Z with (Z.of_nat 10). rewrite <- Nat2Z.inj_pow.
  destruct (Nat.pow 10 d) as [|m]; [congruence|].
  rewrite <- Pos.of_nat_succ. lia.
Qed.

Lemma literal_value_decimal (negative : bool) n d :
  literal_value negative n d 0
  == ((if negative then - Z.of_N n else Z.of_N n)%Z # Pos.of_nat (Nat.pow 10 d)).
Proof.
  unfold literal_value. set (z := (if negative then - Z.of_N n else Z.of_N n)%Z).
  rewrite (Qmake_Qdiv z (Pos.of_nat (Nat.pow 10 d))), pow10_pos_of_nat.
  replace (0 - Z.of_nat d)%Z with (- Z.of_nat d)%Z by lia.
  rewrite Qpower_opp, Zpower_Qpower by lia. reflexivity.
Qed.

Lemma shown_decimal q d : Qabs q < 10 ^ 21 -> shown q d = rounded q d.
Proof.
  intros H. unfold shown.
  destruct (Qle_bool (10 ^ 21) (Qabs q)) eqn:E; [|reflexivity].
  apply Qle_bool_iff in E. exfalso. lra.
Qed.

(** What [parseFloat] and ToNumber read in a text of [toFixed]. *)
Lemma read_literal_toFixed q d :
  read_literal (toFixed (Fin q) d) = Some (double_of (shown q d), EmptyString).
Proof.
  unfold toFixed, shown.
  destruct (Qle_bool (10 ^ 21) (Qabs q)).
  - unfold exponential.
    destruct (significand (Z.to_N (Qfloor (Qabs q)))) as [[s k] n].
    set (p := (10 ^ N.of_nat (k - 1))%N).
    assert (Hp : (0 < p)%N) by (apply N.neq_0_lt_0, N.pow_nonzero; lia).
    rewrite (read_literal_text (Qnum q <? 0)%Z (s / p) (k - 1) (s mod p)
               ("e+" ++ string_of_N (N.of_nat (n - 1))) (Z.of_N (N.of_nat (n - 1)))).
    + fold p. replace (s / p * p + s mod p)%N with s
        by (rewrite (N.mul_comm (s / p) p); apply N.div_mod; lia).
      now rewrite nat_N_Z.
    + apply N.mod_lt. lia.
    + reflexivity.
    + intros t. discriminate.
    + apply read_exponent_text.
  - unfold decimal.
    set (n := round_scaled q d). set (p := (10 ^ N.of_nat d)%N).
    assert (Hp : (0 < p)%N) by (apply N.neq_0_lt_0, N.pow_nonzero; lia).
    pose proof (read_literal_text (Qnum q <? 0)%Z (n / p) d (n mod p)
                  EmptyString 0%Z) as H.
    rewrite !append_nil_r in H. rewrite H.
    + do 2 f_equal. apply double_of_comp.
      fold p. replace (n / p * p + n mod p)%N with n
        by (rewrite (N.mul_comm (n / p) p); apply N.div_mod; lia).
      rewrite literal_value_decimal. unfold rounded. fold n.
      now rewrite Qred_correct.
    + apply N.mod_lt. lia.
    + exact I.
    + intros t. discriminate.
    + reflexivity.
Qed.

Lemma toFixed_head x d :
  exists c s, toFixed x d = String c s /\ is_white c = false /\
    (c = "-"%char -> exists c' s', s = String c' s' /\ c' <> "-"%char).
Proof.
  destruct x as [|[]|q]; unfold toFixed.
  - eexists _, _. split; [reflexivity|]. split; [reflexivity|discriminate].
  - eexists _, _. split; [reflexivity|]. split; [reflexivity|].
    intros _. eexists _, _. split; [reflexivity|discriminate].
  - eexists _, _. split; [reflexivity|]. split; [reflexivity|discriminate].
  - assert (Hb : exists c s, (if Qle_bool (10 ^ 21) (Qabs q)
                   then exponential (Z.to_N (Qfloor (Qabs q)))
                   else decimal q d) = String c s /\ digit_of_ascii c <> None
                   /\ c <> "-"%char).
    { destruct (Qle_bool (10 ^ 21) (Qabs q)).
      - unfold exponential.
        destruct (significand (Z.to_N (Qfloor (Qabs q)))) as [[s k] n].
        destruct (to_uint_head (s / 10 ^ N.of_nat (k - 1))) as (c & t & -> & Hd & Hm & _).
        rewrite append_cons. eauto.
      - unfold decimal.
        destruct (to_uint_head (round_scaled q d / 10 ^ N.of_nat d)) as (c & t & -> & Hd & Hm & _).
        rewrite append_cons. eauto. }
    destruct Hb as (c & s & -> & Hd & Hm).
    destruct (Qnum q <? 0)%Z.
    + rewrite append_cons, append_nil. eexists _, _. split; [reflexivity|].
      split; [reflexivity|]. intros _. eauto.
    + rewrite append_nil. eexists _, _. split; [reflexivity|].
      split; [now apply digit_not_white|]. intros ->. congruence.
Qed.

Lemma trim_start_toFixed x d : trim_start (toFixed x d) = toFixed x d.
Proof.
  destruct (toFixed_head x d) as (c & s & -> & Hw & _). cbn. now rewrite Hw.
Qed.

Lemma parseFloat_toFixed q d : parseFloat (toFixed (Fin q) d) = double_of (shown q d).
Proof.
  unfold parseFloat. now rewrite trim_start_toFixed, read_literal_toFixed.
Qed.

Lemma StringToNumber_toFixed q d :
  StringToNumber (toFixed (Fin q) d) = double_of (shown q d).
Proof.
  unfold StringToNumber. rewrite trim_start_toFixed.
  pose proof (read_literal_toFixed q d) as R.
  destruct (toFixed_head (Fin q) d) as (c & s & E & _).
  rewrite E in *. now rewrite R.
Qed.


Lemma StringToNumber_Infinity b d : StringToNumber (toFixed (Inf b) d) = Inf b.
Proof. destruct b; reflexivity. Qed.

Lemma toFixed_not_dashes x d : String.eqb (toFixed x d) "---" = false.
Proof.
  apply String.eqb_neq. intros H.
  destruct (toFixed_head x d) as (c & s & Ht & _ & Hc).
  rewrite Ht in H. inversion H as [[Hc1 Hs]].
  destruct (Hc Hc1) as (c' & s' & Hs' & Hne).
  rewrite Hs' in Hs. inversion Hs. contradiction.
Qed.

End ReadBack.

Section ExponentForm.
Local Open Scope Q_scope.

Lemma rounds_to_spec x c :
  rounds_to x c = true -> double_of (inject_Z (Z.of_N c)) = Fin (inject_Z (Z.of_N x)).
Proof.
  unfold rounds_to. destruct (double_of (inject_Z (Z.of_N c))) as [| |v]; try discriminate.
  intros H. apply andb_true_iff in H as [H1 H2].
  apply Z.eqb_eq in H1. apply Pos.eqb_eq in H2.
  destruct v as [vn vd]. cbn in H1, H2. subst. reflexivity.
Qed.

Lemma pow10_inject m : inject_Z (Z.of_N (10 ^ N.of_nat m)) == 10 ^ Z.of_nat m.
Proof.
  rewrite N2Z.inj_pow, nat_N_Z. change (Z.of_N 10) with 10%Z.
  rewrite Zpower_Qpower by lia. reflexivity.
Qed.

(** The integer a significand and an exponent denote. *)
Lemma literal_value_integer s k n :
  (1 <= k <= n)%nat ->
  literal_value false s (k - 1) (Z.of_nat (n - 1))
  == inject_Z (Z.of_N (s * 10 ^ N.of_nat (n - k))).
Proof.
  intros H. unfold literal_value.
  rewrite N2Z.inj_mul, inject_Z_mult, pow10_inject.
  replace (Z.of_nat (n - 1) - Z.of_nat (k - 1))%Z with (Z.of_nat (n - k)) by lia.
  reflexivity.
Qed.

Lemma digits_at_spec x n k s n' :
  (1 <= k <= n)%nat ->
  digits_at x n k = Some (s, n') ->
  double_of (literal_value false s (k - 1) (Z.of_nat (n' - 1)))
  = Fin (inject_Z (Z.of_N x)).
Proof.
  intros Hk. unfold digits_at.
  set (p := (10 ^ N.of_nat (n - k))%N). set (lo := (x / p)%N).
  assert (Hlo : rounds_to x (lo * p) = true ->
                double_of (literal_value false lo (k - 1) (Z.of_nat (n - 1)))
                = Fin (inject_Z (Z.of_N x))).
  { intros R. rewrite (double_of_comp _ _ (literal_value_integer lo k n Hk)).
    now apply rounds_to_spec. }
  assert (Hhi : forall a m, rounds_to x ((lo + 1) * p) = true ->
                (if ((lo + 1) =? 10 ^ N.of_nat k)%N
                 then ((10 ^ N.of_nat (k - 1))%N, S n) else ((lo + 1)%N, n)) = (a, m) ->
                double_of (literal_value false a (k - 1) (Z.of_nat (m - 1)))
                = Fin (inject_Z (Z.of_N x))).
  { intros a m R E. destruct (N.eqb_spec (lo + 1) (10 ^ N.of_nat k)) as [Eq|Ne].
    - inversion E; subst a m.
      rewrite (double_of_comp _ _ (literal_value_integer _ k (S n) ltac:(lia))).
      rewrite <- (rounds_to_spec x _ R). do 3 f_equal.
      rewrite Eq. fold p. unfold p. rewrite <- !N.pow_add_r. f_equal. lia.
    - inversion E; subst a m.
      rewrite (double_of_comp _ _ (literal_value_integer _ k n Hk)).
      now apply rounds_to_spec. }
  destruct (rounds_to x (lo * p)) eqn:R1; destruct (rounds_to x ((lo + 1) * p)) eqn:R2.
  - destruct (x - lo * p <? (lo + 1) * p - x)%N.
    + intros E. inversion E; subst. now apply Hlo.
    + destruct ((lo + 1) * p - x <? x - lo * p)%N.
      * intros E. inversion E as [E']. now apply (Hhi s n').
      * destruct (N.even lo).
        -- intros E. inversion E; subst. now apply Hlo.
        -- intros E. inversion E as [E']. now apply (Hhi s n').
  - intros E. inversion E; subst. now apply Hlo.
  - intros E. inversion E as [E']. now apply (Hhi s n').
  - discriminate.
Qed.

Lemma shortest_spec x n : forall fuel k s k' n',
  (1 <= k)%nat -> (k + fuel <= n)%nat ->
  shortest fuel k x n = (s, k', n') ->
  double_of (literal_value false s (k' - 1) (Z.of_nat (n' - 1)))
    = Fin (inject_Z (Z.of_N x))
  \/ literal_value false s (k' - 1) (Z.of_nat (n' - 1)) == inject_Z (Z.of_N x).
Proof.
  induction fuel as [|fuel IH]; intros k s k' n' Hk Hn; cbn [shortest].
  - intros E. inversion E; subst. right.
    rewrite (literal_value_integer s n' n') by lia.
    rewrite Nat.sub_diag. change (10 ^ N.of_nat 0)%N with 1%N.
    now rewrite N.mul_1_r.
  - destruct (digits_at x n k) as [[a m]|] eqn:D.
    + intros E. inversion E; subst. left.
      apply (digits_at_spec x n k' s n'); [lia|exact D].
    + apply IH; lia.
Qed.

Lemma significand_spec x s k n :
  significand x = (s, k, n) ->
  double_of (literal_value false s (k - 1) (Z.of_nat (n - 1)))
    = Fin (inject_Z (Z.of_N x))
  \/ literal_value false s (k - 1) (Z.of_nat (n - 1)) == inject_Z (Z.of_N x).
Proof.
  unfold significand. intros E.
  pose proof (to_uint_digits x).
  apply (shortest_spec x _ _ 1%nat s k n) in E; [exact E|lia|lia].
Qed.

Lemma literal_value_abs (negative : bool) m nf ex :
  Qabs (literal_value negative m nf ex) == literal_value false m nf ex.
Proof.
  unfold literal_value. rewrite Qabs_Qmult.
  rewrite (Qabs_pos (10 ^ _)) by (apply Qlt_le_weak, Qpower_0_lt; reflexivity).
  apply Qmult_comp; [|reflexivity].
  destruct negative.
  - rewrite inject_Z_opp, Qabs_opp. apply Qabs_pos. rewrite <- (Zle_Qle 0). lia.
  - apply Qabs_pos. rewrite <- (Zle_Qle 0). lia.
Qed.

(** The magnitude read back from the exponent form. *)
Lemma shown_large q d :
  10 ^ 21 <= Qabs q ->
  let x := inject_Z (Z.of_N (Z.to_N (Qfloor (Qabs q)))) in
  Math_abs (double_of (shown q d)) = Fin x
  \/ Math_abs (double_of (shown q d)) = double_of x.
Proof.
  intros H x. rewrite Math_abs_double_of. unfold shown.
  apply Qle_bool_iff in H. rewrite H.
  destruct (significand (Z.to_N (Qfloor (Qabs q)))) as [[s k] n] eqn:E.
  rewrite (double_of_comp _ _ (literal_value_abs _ _ _ _)).
  destruct (significand_spec _ _ _ _ E) as [S|S]; [left; exact S|right].
  now apply double_of_comp.
Qed.

Lemma floor_large q :
  10 ^ 21 <= Qabs q ->
  10 ^ 21 <= inject_Z (Z.of_N (Z.to_N (Qfloor (Qabs q))))
  /\ inject_Z (Z.of_N (Z.to_N (Qfloor (Qabs q)))) <= Qabs q.
Proof.
  intros H.
  assert (Hf : (10 ^ 21 <= Qfloor (Qabs q))%Z).
  { rewrite <- (Qfloor_Z (10 ^ 21)). apply Qfloor_resp_le.
    rewrite Zpower_Qpower by lia. exact H. }
  rewrite Z2N.id by lia. split; [|apply Qfloor_le].
  change (10 ^ 21) with (inject_Z (10 ^ 21)). now rewrite <- Zle_Qle.
Qed.

Lemma round_scaled_ge q d k :
  (k <= round_scaled q d)%N <->
  (2 * k * Npos (Qden q) <= 2 * Z.abs_N (Qnum q) * 10 ^ N.of_nat d + Npos (Qden q))%N.
Proof.
  unfold round_scaled.
  set (a := Z.abs_N (Qnum q)). set (den := Npos (Qden q)).
  set (x := (2 * a * 10 ^ N.of_nat d + den)%N).
  assert (Hden : (2 * den <> 0)%N) by (subst den; lia).
  split; intros H.
  - pose proof (N.Div0.mul_div_le x (2 * den)). nia.
  - apply N.div_le_lower_bound; [exact Hden|]. nia.
Qed.

Lemma Qabs_rounded q d :
  Qabs (rounded q d) == Z.of_N (round_scaled q d) # Pos.of_nat (Nat.pow 10 d).
Proof.
  unfold rounded. rewrite Qred_correct.
  destruct (Qnum q <? 0)%Z; unfold Qabs, Qeq; cbn [Qnum Qden]; lia.
Qed.

(** Below [10^21] the rounded value stays within the doubles. *)
Lemma rounded_range q d : Qabs q < 10 ^ 21 -> Qabs (rounded q d) <= max_double.
Proof.
  intros H. rewrite Qabs_rounded.
  assert (Hn : ~ (10 ^ 21 * 10 ^ N.of_nat d + 1 <= round_scaled q d)%N).
  { rewrite round_scaled_ge. destruct q as [n dn]. cbn [Qnum Qden].
    unfold Qlt, Qabs in H. cbn in H.
    pose proof (N2Z.inj_abs_N n) as Ha.
    set (P := (10 ^ N.of_nat d)%N).
    assert (0 < P)%N by (apply N.neq_0_lt_0, N.pow_nonzero; lia).
    nia. }
  apply Qle_trans with (inject_Z (10 ^ 21)); [|vm_compute; discriminate].
  unfold Qle. cbn [Qnum Qden inject_Z]. rewrite pow10_pos_of_nat.
  rewrite Z.mul_1_r.
  assert (E : (10 ^ Z.of_nat d = Z.of_N (10 ^ N.of_nat d))%Z).
  { rewrite N2Z.inj_pow, nat_N_Z. reflexivity. }
  rewrite E. lia.
Qed.

(** The text of a finite double reads back as a finite number. *)
Lemma read_back_finite q d :
  Qabs q <= max_double -> exists v, double_of (shown q d) = Fin v.
Proof.
  intros H. destruct (Qlt_le_dec (Qabs q) (10 ^ 21)) as [Hs|Hl].
  - rewrite shown_decimal by assumption.
    apply double_of_finite, rounded_range, Hs.
  - destruct (floor_large q Hl) as [_ Hx].
    assert (Hfin : exists v, Math_abs (double_of (shown q d)) = Fin v).
    { destruct (shown_large q d Hl) as [E|E]; rewrite E; [eauto|].
      apply double_of_finite. rewrite Qabs_pos.
      - lra.
      - rewrite <- (Zle_Qle 0). lia. }
    destruct Hfin as [v Hv].
    destruct (double_of (shown q d)) as [| |w]; try discriminate. eauto.
Qed.

Lemma double_of_two : double_of 2 = Fin 2.
Proof. vm_compute. reflexivity. Qed.

Lemma double_of_above_two :
  double_of (201 # 100) = Fin (1131529406376837 # 562949953421312).
Proof. vm_compute. reflexivity. Qed.

(** [|parseFloat(x.toFixed(2))| > 2] exactly when [|x| >= 2.005]. *)
Lemma shown_above_two q :
  num_gt (Math_abs (double_of (shown q 2))) (Fin 2) = true <-> 401 # 200 <= Qabs q.
Proof.
  destruct (Qlt_le_dec (Qabs q) (10 ^ 21)) as [Hs|Hl].
  - rewrite shown_decimal by assumption. rewrite Math_abs_double_of.
    pose proof (Qabs_rounded q 2) as Hr.
    change (Pos.of_nat (Nat.pow 10 2)) with 100%positive in Hr.
    pose proof (round_scaled_ge q 2 201) as Hk.
    change (10 ^ N.of_nat 2)%N with 100%N in Hk.
    assert (Hq : 401 # 200 <= Qabs q <-> (201 <= round_scaled q 2)%N).
    { rewrite Hk. destruct q as [n dn]. cbn [Qnum Qden].
      pose proof (N2Z.inj_abs_N n) as Ha.
      unfold Qle, Qabs. cbn [Qnum Qden]. lia. }
    rewrite Hq. split; intros H.
    + destruct (N.le_gt_cases 201 (round_scaled q 2)) as [L|L]; [exact L|exfalso].
      assert (Hle : Qabs (rounded q 2) <= 2).
      { rewrite Hr. unfold Qle. cbn. lia. }
      rewrite (num_ge_not_gt _ 2 2) in H; [discriminate| |lra].
      apply (double_of_below _ 2); [exact double_of_two|exact Hle].
    + assert (Hge : 201 # 100 <= Qabs (rounded q 2)).
      { rewrite Hr. unfold Qle. cbn. lia. }
      apply (num_ge_gt _ (1131529406376837 # 562949953421312)); [|reflexivity].
      apply (double_of_above _ (201 # 100)); [exact double_of_above_two|exact Hge].
  - split; intros _.
    + eapply Qle_trans; [|exact Hl]. vm_compute. discriminate.
    + destruct (floor_large q Hl) as [Hx _].
      destruct (shown_large q 2 Hl) as [E|E]; rewrite E.
      * cbn [num_gt]. apply negb_true_iff, not_true_iff_false.
        intros C. apply Qle_bool_iff in C.
        assert (2 < 10 ^ 21) by reflexivity. lra.
      * apply (num_ge_gt _ (1131529406376837 # 562949953421312)); [|reflexivity].
        apply (double_of_above _ (201 # 100)); [exact double_of_above_two|].
        eapply Qle_trans; [|exact Hx]. vm_compute. discriminate.
Qed.

End ExponentForm.

(** ** The metrics store *)

Lemma accepts_member v :
  accepts v = true -> exists z, member v "z_score" = Some z.
Proof.
  unfold accepts. intros H. apply andb_true_iff in H as [_ H].
  apply bool_decide_eq_true in H. destruct H as [z Hz]. eauto.
Qed.

Lemma not_accepted_without_z v : member v "z_score" = None -> accepts v = false.
Proof.
  unfold accepts. intros ->. apply andb_false_iff. right.
  apply bool_decide_eq_false. intros [z Hz]. discriminate.
Qed.

Lemma update_effect_ignored now v s : accepts v = false -> update_effect now v s = Ok s.
Proof. unfold update_effect. now intros ->. Qed.

Lemma update_effect_accepted now v s s' :
  accepts v = true -> update_effect now v s = Ok s' ->
  exists na,
    newAnalytics v (analytics s) = Ok na /\
    s' = {| prevAnalytics := analytics s;
            analytics := na;
            history := updateHistory (prevAnalytics s) now na (history s) |}.
Proof.
  unfold update_effect. intros -> H.
  destruct (newAnalytics v (analytics s)) as [na|e] eqn:Hna; [|discriminate].
  exists na. split; [reflexivity|]. now inversion H.
Qed.

Lemma fixed_or_held_absent d held r :
  fixed_or_held None d held = Ok r -> r = held.
Proof. simpl. congruence. Qed.

(** What [newAnalytics] puts in each field. *)
Lemma newAnalytics_fields v a na :
  newAnalytics v a = Ok na ->
  fixed_or_held (member v "z_score") 2 (z_score a) = Ok (z_score na) /\
  fixed_or_held (member v "hedge_ratio") 4 (hedge_ratio a) = Ok (hedge_ratio na) /\
  fixed_or_held (member v "latest_spread") 3 (latest_spread a)
    = Ok (latest_spread na) /\
  symbol_pair na = value_or_held (member v "symbol_pair") (symbol_pair a) /\
  pie_summary na = value_or_held (member v "pie_summary") (pie_summary a).
Proof.
  unfold newAnalytics. intros H.
  destruct (fixed_or_held (member v "z_score") 2 (z_score a)) as [z|] eqn:Hz;
    [|discriminate].
  destruct (fixed_or_held (member v "hedge_ratio") 4 (hedge_ratio a)) as [h|] eqn:Hh;
    [|discriminate].
  destruct (fixed_or_held (member v "latest_spread") 3 (latest_spread a))
    as [l|] eqn:Hl; [|discriminate].
  cbn in H. inversion H; subst; cbn. auto.
Qed.

Lemma shift_length {A : Type} (l : list A) (x : A) n :
  List.length l = S n -> List.length (tail l ++ [x])%list = S n.
Proof.
  destruct l as [|a l]; [discriminate|]. cbn [tail].
  rewrite length_app. cbn. lia.
Qed.

Lemma shift_lookup_last {A : Type} (l : list A) (x : A) n :
  List.length l = S n -> (tail l ++ [x])%list !! n = Some x.
Proof.
  destruct l as [|a l]; [discriminate|]. cbn [tail List.length]. intros H.
  rewrite lookup_app_r by lia.
  replace (n - List.length l)%nat with O by lia. reflexivity.
Qed.

Lemma shift_lookup_earlier {A : Type} (l : list A) (x : A) n i :
  List.length l = S n -> (i < n)%nat -> (tail l ++ [x])%list !! i = l !! S i.
Proof.
  destruct l as [|a l]; [discriminate|]. cbn [tail List.length]. intros H Hi.
  rewrite lookup_app_l by lia. reflexivity.
Qed.

Lemma updateHistory_full n P now cur h :
  full n h -> full n (updateHistory P now cur h).
Proof.
  intros (H1 & H2 & H3). unfold full, updateHistory. cbn.
  auto using shift_length.
Qed.

Lemma update_effect_full n now v s s' :
  full n (history s) -> update_effect now v s = Ok s' -> full n (history s').
Proof.
  intros Hf H. destruct (accepts v) eqn:Ha.
  - apply update_effect_accepted in H as (na & _ & ->); [|assumption].
    cbn. now apply updateHistory_full.
  - rewrite update_effect_ignored in H by assumption. now inversion H; subst.
Qed.

Lemma feed_full n ups : forall s s',
  full n (history s) -> feed ups s = Ok s' -> full n (history s').
Proof.
  induction ups as [|[now v] ups IH]; intros s s' Hf H; cbn in H.
  - now inversion H; subst.
  - destruct (update_effect now v s) as [s1|] eqn:H1; [|discriminate].
    cbn in H. eapply IH; [|eassumption]. eapply update_effect_full; eassumption.
Qed.

Lemma initial_history_full : full 9 initial_history.
Proof. repeat split. Qed.

(** C3.  The snapshot is replaced only by an update with a defined
    [z_score]: without one the effect leaves snapshot, previous snapshot and
    history as they are; and whenever the effect completes, every field the
    update does not carry keeps the value it had before (last-known-value
    hold), while the replaced snapshot is saved as the previous one. *)
Theorem snapshot_last_known_value_hold (now : string) (v : live_value) (s : App) :
  (member v "z_score" = None -> update_effect now v s = Ok s) /\
  (forall s', update_effect now v s = Ok s' ->
     (s' <> s -> is_Some (member v "z_score") /\ prevAnalytics s' = analytics s) /\
     (member v "hedge_ratio" = None ->
        hedge_ratio (analytics s') = hedge_ratio (analytics s)) /\
     (member v "latest_spread" = None ->
        latest_spread (analytics s') = latest_spread (analytics s)) /\
     (member v "symbol_pair" = None ->
        symbol_pair (analytics s') = symbol_pair (analytics s)) /\
     (member v "pie_summary" = None ->
        pie_summary (analytics s') = pie_summary (analytics s))).
Proof.
  split.
  - intros Hz. apply update_effect_ignored. now apply not_accepted_without_z.
  - intros s' H. destruct (accepts v) eqn:Ha.
    + destruct (accepts_member v Ha) as [z Hz].
      apply update_effect_accepted in H as (na & Hna & ->); [|assumption].
      apply newAnalytics_fields in Hna as (_ & Hh & Hl & Hsp & Hpie). cbn.
      split; [intros _; split; [rewrite Hz; eauto | reflexivity]|].
      repeat split.
      * intros Hn. rewrite Hn in Hh. now apply fixed_or_held_absent in Hh.
      * intros Hn. rewrite Hn in Hl. now apply fixed_or_held_absent in Hl.
      * intros Hn. now rewrite Hsp, Hn.
      * intros Hn. now rewrite Hpie, Hn.
    + rewrite update_effect_ignored in H by assumption. inversion H; subst.
      split; [congruence|]. auto.
Qed.

(** C3, at a concrete update that carries only [z_score]. *)
Lemma snapshot_last_known_value_hold_witness :
  update_effect "10:00:01" (LRaw (Text "oops")) initial_app = Ok initial_app /\
  hedge_ratio (analytics
     {| prevAnalytics := initial_analytics;
        analytics := {| z_score := "1.00"; hedge_ratio := "---";
                        latest_spread := "---";
                        symbol_pair := symbol_pair initial_analytics;
                        pie_summary := pie_summary initial_analytics |};
        history := updateHistory initial_analytics "10:00:02"
                     {| z_score := "1.00"; hedge_ratio := "---";
                        latest_spread := "---";
                        symbol_pair := symbol_pair initial_analytics;
                        pie_summary := pie_summary initial_analytics |}
                     initial_history |}) = "---".
Proof.
  split.
  - apply (proj1 (snapshot_last_known_value_hold "10:00:01" (LRaw (Text "oops"))
                    initial_app)).
    reflexivity.
  - apply (proj1 (proj2 (proj2 (snapshot_last_known_value_hold "10:00:02"
                    (LJson (JObj [("z_score", JNum 1)])) initial_app) _ eq_refl))).
    reflexivity.
Defined.

(** C4.  After any number of effect runs from the initial state the three
    series of the history have length 10 each; a run that accepts its update
    drops the head of each series and appends one element to each: the last
    position (index 9) then holds the newest hedge ratio, velocity and time,
    and position [i] holds what position [i + 1] held before, in all three
    series alike. *)
Theorem rolling_history_fixed_capacity
    (ups : list (string * live_value)) (s : App) :
  feed ups initial_app = Ok s ->
  (List.length (hedgeRatio (history s)) = 10%nat /\
   List.length (spreadVelocity (history s)) = 10%nat /\
   List.length (timestamps (history s)) = 10%nat) /\
  forall now v s',
    accepts v = true -> update_effect now v s = Ok s' ->
    history s' = updateHistory (prevAnalytics s) now (analytics s') (history s) /\
    (List.length (hedgeRatio (history s')) = 10%nat /\
     List.length (spreadVelocity (history s')) = 10%nat /\
     List.length (timestamps (history s')) = 10%nat) /\
    hedgeRatio (history s') !! 9%nat = Some (Some (hedge_ratio (analytics s'))) /\
    spreadVelocity (history s') !! 9%nat = last (spreadVelocity (history s')) /\
    timestamps (history s') !! 9%nat = Some now /\
    forall i, (i < 9)%nat ->
      hedgeRatio (history s') !! i = hedgeRatio (history s) !! S i /\
      spreadVelocity (history s') !! i = spreadVelocity (history s) !! S i /\
      timestamps (history s') !! i = timestamps (history s) !! S i.
Proof.
  intros Hfeed.
  assert (Hf : full 9 (history s)).
  { apply (feed_full 9 ups initial_app s initial_history_full Hfeed). }
  split; [exact Hf|].
  intros now v s' Ha H.
  apply update_effect_accepted in H as (na & _ & ->); [|assumption].
  destruct Hf as (H1 & H2 & H3). cbn.
  split; [reflexivity|].
  split; [auto using shift_length|].
  split; [now apply shift_lookup_last|].
  split.
  { rewrite last_snoc. now apply shift_lookup_last. }
  split; [now apply shift_lookup_last|].
  intros i Hi. repeat split; now apply (shift_lookup_earlier _ _ 9%nat).
Qed.

(** C4, at the four updates of the scenario. *)
Lemma rolling_history_fixed_capacity_witness :
  exists s, feed scenario_updates initial_app = Ok s /\
    List.length (hedgeRatio (history s)) = 10%nat /\
    List.length (spreadVelocity (history s)) = 10%nat /\
    List.length (timestamps (history s)) = 10%nat.
Proof.
  eexists. split; [vm_compute; reflexivity|].
  refine (proj1 (rolling_history_fixed_capacity scenario_updates _ _)). vm_compute. reflexivity.
Defined.

(** C5, as stated, fails.  The four updates of the scenario, each handled
    by one run of the effect from the initial state, leave ten entries in
    every series, not three; the hedge-ratio series holds the formatted
    strings; and the velocities appended for the second, third and fourth
    sample are 0, -1 and -3, where the differences of consecutive spreads
    are 2, -3 and 0: [updateHistory] reads the [prevAnalytics] of the render
    that created it, which is the snapshot before the previous update.
    React runs the effect again when [analytics] has changed; with every
    update handled twice the series do not end as the scenario says
    either.  And a first update without [latest_spread] appends NaN, not
    0. *)
Lemma velocity_scenario_counterexample :
  (exists s, feed scenario_updates initial_app = Ok s /\
     hedgeRatio (history s)
       = [None; None; None; None; None; None;
          Some "1.0000"; Some "2.0000"; Some "3.0000"; Some "4.0000"] /\
     spreadVelocity (history s)
       = [Fin 0; Fin 0; Fin 0; Fin 0; Fin 0; Fin 0;
          Fin 0; Fin 0; Fin (-1 # 1); Fin (-3 # 1)] /\
     List.length (timestamps (history s)) = 10%nat /\
     drop 7 (spreadVelocity (history s)) <> [Fin (2 # 1); Fin (-3 # 1); Fin 0]) /\
  (exists s,
     feed (flat_map (fun u => [u; u]) scenario_updates) initial_app = Ok s /\
     drop 7 (hedgeRatio (history s))
       = [Some "3.0000"; Some "4.0000"; Some "4.0000"] /\
     drop 7 (spreadVelocity (history s)) = [Fin (-3 # 1); Fin 0; Fin 0]) /\
  (exists s,
     update_effect "10:00:01" (LJson (JObj [("z_score", JNum 1)])) initial_app
       = Ok s /\
     last (spreadVelocity (history s)) = Some NaN).
Proof.
  split; [|split].
  - eexists. split; [vm_compute; reflexivity|].
    cbn [history hedgeRatio spreadVelocity timestamps].
    repeat split. vm_compute. discriminate.
  - eexists. split; [vm_compute; reflexivity|].
    cbn [history hedgeRatio spreadVelocity timestamps]. repeat split.
  - eexists. split; [vm_compute; reflexivity|]. reflexivity.
Qed.

(** C5, amended.  From the initial state, an accepted update that carries a
    numeric [latest_spread] stores the text [toFixed(3)] writes for it and
    appends the velocity 0 when the number is finite; a literal beyond the
    range of the doubles, such as [1e999], is the number [Infinity] and
    appends NaN.  The capacity is the fixed 10 and the hedge-ratio series
    stores the strings [toFixed(4)] wrote: an accepted update with a
    numeric [hedge_ratio] appends that string, and after the four updates of
    the scenario, each handled by one run of the effect, the last three
    hedge-ratio entries are "2.0000", "3.0000" and "4.0000" and each series
    has ten entries. *)
Theorem first_sample_velocity_zero :
  (forall now v q s',
     accepts v = true ->
     member v "latest_spread" = Some (JNum q) ->
     update_effect now v initial_app = Ok s' ->
     latest_spread (analytics s') = toFixed (double_of q) 3 /\
     ((Qabs q <= max_double)%Q ->
        last (spreadVelocity (history s')) = Some (Fin 0)) /\
     (forall x, double_of q = Fin x ->
        last (spreadVelocity (history s')) = Some (Fin 0)) /\
     (forall b, double_of q = Inf b ->
        latest_spread (analytics s') = (if b then "-Infinity" else "Infinity") /\
        last (spreadVelocity (history s')) = Some NaN)) /\
  (forall now v q s s',
     accepts v = true ->
     member v "hedge_ratio" = Some (JNum q) ->
     update_effect now v s = Ok s' ->
     last (hedgeRatio (history s')) = Some (Some (toFixed (double_of q) 4))) /\
  (exists s, feed scenario_updates initial_app = Ok s /\
     drop 7 (hedgeRatio (history s))
       = [Some "2.0000"; Some "3.0000"; Some "4.0000"] /\
     List.length (hedgeRatio (history s)) = 10%nat /\
     List.length (spreadVelocity (history s)) = 10%nat /\
     List.length (timestamps (history s)) = 10%nat).
Proof.
  split; [|split].
  - intros now v q s' Ha Hl H.
    apply update_effect_accepted in H as (na & Hna & ->); [|assumption].
    apply newAnalytics_fields in Hna as (_ & _ & Hls & _).
    rewrite Hl in Hls. cbn in Hls. inversion Hls as [Hls'].
    cbn [history updateHistory spreadVelocity prevAnalytics initial_app
         initial_analytics latest_spread analytics].
    rewrite last_snoc.
    change (parseFloat "---") with NaN. cbn [num_truthy ToNumber].
    rewrite <- Hls'.
    assert (Hfin : forall x, double_of q = Fin x ->
              Some (num_sub (StringToNumber (toFixed (double_of q) 3))
                            (StringToNumber (toFixed (double_of q) 3)))
              = Some (Fin 0)).
    { intros x Hx. rewrite Hx, StringToNumber_toFixed.
      destruct (read_back_finite x 3 (double_of_range q x Hx)) as [w ->].
      now rewrite num_sub_self. }
    split; [reflexivity|]. split; [|split].
    + intros Hq. destruct (double_of_finite q Hq) as [x Hx]. now apply (Hfin x).
    + exact Hfin.
    + intros b Hb. rewrite Hb, StringToNumber_Infinity, num_sub_Inf.
      split; [destruct b|]; reflexivity.
  - intros now v q s s' Ha Hh H.
    apply update_effect_accepted in H as (na & Hna & ->); [|assumption].
    apply newAnalytics_fields in Hna as (_ & Hhr & _).
    rewrite Hh in Hhr. cbn in Hhr. inversion Hhr as [Hhr'].
    cbn [history updateHistory hedgeRatio]. rewrite last_snoc.
    now rewrite Hhr'.
  - eexists. split; [vm_compute; reflexivity|].
    cbn [history hedgeRatio spreadVelocity timestamps]. repeat split.
Qed.

(** C5 amended, at the first update of the scenario and at a first update
    whose spread is written [1e999]. *)
Lemma first_sample_velocity_zero_witness :
  exists s' s'',
    accepts (metric_update 0 1 10) = true /\
    member (metric_update 0 1 10) "latest_spread" = Some (JNum 10) /\
    update_effect "10:00:01" (metric_update 0 1 10) initial_app = Ok s' /\
    last (spreadVelocity (history s')) = Some (Fin 0) /\
    update_effect "10:00:01" (metric_update 0 1 (10 ^ 999)) initial_app = Ok s'' /\
    latest_spread (analytics s'') = "Infinity" /\
    last (spreadVelocity (history s'')) = Some NaN.
Proof.
  destruct (update_effect "10:00:01" (metric_update 0 1 10) initial_app)
    as [s'|] eqn:H1; [|vm_compute in H1; discriminate].
  destruct (update_effect "10:00:01" (metric_update 0 1 (10 ^ 999)) initial_app)
    as [s''|] eqn:H2; [|vm_compute in H2; discriminate].
  exists s', s''. split; [reflexivity|]. split; [reflexivity|].
  split; [reflexivity|].
  destruct (proj1 first_sample_velocity_zero "10:00:01" (metric_update 0 1 10)
              10%Q s' eq_refl eq_refl H1) as (_ & Hz & _).
  split; [apply Hz; vm_compute; discriminate|].
  split; [reflexivity|].
  destruct (proj1 first_sample_velocity_zero "10:00:01"
              (metric_update 0 1 (10 ^ 999)) (10 ^ 999)%Q s'' eq_refl eq_refl H2)
    as (_ & _ & _ & Hi).
  apply (Hi false). vm_compute. reflexivity.
Defined.

(** C10.  The update path asks only that [z_score] is not [undefined].  A
    message object whose [z_score] is defined passes the gate whatever that
    value is, and if [z_score], or a present [hedge_ratio] or
    [latest_spread], is not a number, the effect throws a TypeError at the
    call of [toFixed]: the message is neither ignored nor merged. *)
Theorem non_numeric_field_throws
    (now : string) (fields : list (string * json)) (z : json) (s : App) :
  assoc "z_score" fields = Some z ->
  (is_number z = false \/
   (exists h, assoc "hedge_ratio" fields = Some h /\ is_number h = false) \/
   (exists l, assoc "latest_spread" fields = Some l /\ is_number l = false)) ->
  accepts (LJson (JObj fields)) = true /\
  update_effect now (LJson (JObj fields)) s = Throw TypeError.
Proof.
  intros Hz Hbad.
  assert (Ha : accepts (LJson (JObj fields)) = true).
  { unfold accepts. cbn. rewrite Hz. apply bool_decide_eq_true. eauto. }
  split; [exact Ha|].
  unfold update_effect. rewrite Ha. unfold newAnalytics. cbn [member].
  rewrite Hz.
  destruct Hbad as [Hb | [(h & Hh & Hb) | (l & Hl & Hb)]].
  - destruct z; try discriminate; reflexivity.
  - rewrite Hh. destruct h; try discriminate; destruct z; reflexivity.
  - rewrite Hl.
    destruct l; try discriminate; destruct z;
      destruct (assoc "hedge_ratio" fields) as [[]|]; reflexivity.
Qed.

(** C10, at [{z_score: null}] and at a message whose [hedge_ratio] is a
    string. *)
Lemma non_numeric_field_throws_witness :
  update_effect "10:00:01" (LJson (JObj [("z_score", JNull)])) initial_app
    = Throw TypeError /\
  update_effect "10:00:01"
    (LJson (JObj [("z_score", JNum 1); ("hedge_ratio", JStr "1.5")])) initial_app
    = Throw TypeError.
Proof.
  split.
  - apply (non_numeric_field_throws "10:00:01" [("z_score", JNull)] JNull);
      [reflexivity | left; reflexivity].
  - apply (non_numeric_field_throws "10:00:01"
             [("z_score", JNum 1); ("hedge_ratio", JStr "1.5")] (JNum 1));
      [reflexivity | right; left; eexists; split; reflexivity].
Defined.

(** ** URL resolution *)

Lemma fallback_url_text : fallback_url = "ws://localhost:8000/ws/live-analytics".
Proof. reflexivity. Qed.

Lemma buildDefaultUrl_total w : exists u l, buildDefaultUrl w = Ok (u, l).
Proof.
  destruct w as [w|]; cbn; [|eauto].
  unfold url_from_window, the_location.
  destruct (opt_truthy (__WS_URL__ w)); cbn; [eauto|].
  destruct (location w); cbn; eauto.
Qed.

(** C9, as stated, fails for hooks/useWebSocket.js.  On an https page
    whose window sets [__WS_URL__], and without an override, the URL is that
    global and not [wss://<host>:8000/ws/live-analytics]; when the window
    sets [__WS_PORT__] the port is that one and not 8000. *)
Lemma url_globals_counterexample :
  getUrl NotAString (Some configured_window)
    = Ok ("ws://feed.example/live", []) /\
  "ws://feed.example/live" <> "wss://dash.example:8000/ws/live-analytics" /\
  getUrl NotAString (Some port_window)
    = Ok ("wss://dash.example:9000/ws/live-analytics", []) /\
  "wss://dash.example:9000/ws/live-analytics"
    <> "wss://dash.example:8000/ws/live-analytics".
Proof. repeat split; discriminate. Qed.

(** C9, amended.  A non-empty string override is the URL.  Otherwise: with
    no [window], the URL is the fixed [ws://localhost:8000/ws/live-analytics];
    a non-empty [window.__WS_URL__] is the URL as it is; else the URL is
    [<scheme>//<host>:<port>/ws/live-analytics], with [wss:] exactly when
    the page's protocol is [https:], the page's host name or [localhost]
    when that is empty, and [window.__WS_PORT__] or 8000 when that is not
    set (so [<scheme>//<host>:8000/ws/live-analytics] when neither global is
    set); and if [window.location] cannot be read the error is caught, one
    line is logged and the URL is the fixed one.  Resolution never
    throws. *)
Theorem url_resolution (o : override) (w : option Window) :
  (forall s, o = OverrideString s -> s <> EmptyString -> getUrl o w = Ok (s, [])) /\
  (exists u l, getUrl o w = Ok (u, l)) /\
  (o = NotAString \/ o = OverrideString EmptyString ->
   (w = None -> getUrl o w = Ok (fallback_url, [])) /\
   (forall win, w = Some win ->
      (forall u, __WS_URL__ win = Some u -> u <> EmptyString ->
         getUrl o w = Ok (u, [])) /\
      (opt_truthy (__WS_URL__ win) = false ->
         (location win = None ->
            getUrl o w = Ok (fallback_url, ["Error building default WS URL:"])) /\
         (forall loc, location win = Some loc ->
            exists scheme host port,
              getUrl o w
                = Ok (scheme ++ "//" ++ host ++ ":" ++ port ++ "/ws/live-analytics",
                      []) /\
              (scheme = "wss:" \/ scheme = "ws:") /\
              (scheme = "wss:" <-> protocol loc = "https:") /\
              (hostname loc <> EmptyString -> host = hostname loc) /\
              (hostname loc = EmptyString -> host = "localhost") /\
              (forall p, __WS_PORT__ win = Some p -> p <> EmptyString -> port = p) /\
              (opt_truthy (__WS_PORT__ win) = false -> port = "8000"))))).
Proof.
  split; [|split].
  - intros s -> Hs. destruct s; [congruence|reflexivity].
  - destruct o as [|s]; [apply buildDefaultUrl_total|].
    unfold getUrl.
    destruct (0 <? String.length s)%nat; [eexists _, _; reflexivity|].
    apply buildDefaultUrl_total.
  - intros Ho.
    assert (Hg : getUrl o w = buildDefaultUrl w) by (destruct Ho; subst; reflexivity).
    rewrite Hg. clear Hg Ho. split; [intros ->; reflexivity|].
    intros win ->. cbn. unfold url_from_window, the_location. split.
    + intros u Hu Hne. rewrite Hu. cbn. destruct u; [congruence|reflexivity].
    + intros ->. split.
      * intros ->. reflexivity.
      * intros loc ->. cbn.
        exists (if String.eqb (protocol loc) "https:" then "wss:" else "ws:"),
               (if str_truthy (hostname loc) then hostname loc else "localhost"),
               (if opt_truthy (__WS_PORT__ win)
                then default EmptyString (__WS_PORT__ win)
                else DEFAULT_BACKEND_PORT).
        split; [reflexivity|].
        split; [destruct (String.eqb _ _); auto|].
        split.
        { destruct (String.eqb_spec (protocol loc) "https:") as [He|He];
            split; intros H; try reflexivity; try assumption;
            [discriminate | contradiction]. }
        split; [intros Hh; destruct (hostname loc); [congruence|reflexivity]|].
        split; [intros ->; reflexivity|].
        split.
        { intros p -> Hp. destruct p; [congruence|reflexivity]. }
        intros ->. reflexivity.
Qed.

(** C9 amended, at an override, at a plain http page and at a page that
    sets the URL global. *)
Lemma url_resolution_witness :
  getUrl (OverrideString "ws://localhost:8000/ws/live-analytics") None
    = Ok ("ws://localhost:8000/ws/live-analytics", []) /\
  getUrl NotAString (Some configured_window)
    = Ok ("ws://feed.example/live", []) /\
  (exists scheme host port,
     getUrl NotAString (Some plain_window)
       = Ok (scheme ++ "//" ++ host ++ ":" ++ port ++ "/ws/live-analytics", []) /\
     scheme = "ws:" /\ host = "dash.example" /\ port = "8000").
Proof.
  split; [|split].
  - apply (proj1 (url_resolution
             (OverrideString "ws://localhost:8000/ws/live-analytics") None));
      [reflexivity|discriminate].
  - destruct (url_resolution NotAString (Some configured_window))
      as (_ & _ & H).
    destruct (H (or_introl eq_refl)) as (_ & Hw).
    destruct (Hw configured_window eq_refl) as (Hu & _).
    apply Hu; [reflexivity|discriminate].
  - destruct (url_resolution NotAString (Some plain_window)) as (_ & _ & H).
    destruct (H (or_introl eq_refl)) as (_ & Hw).
    destruct (Hw plain_window eq_refl) as (_ & Hd).
    destruct (Hd eq_refl) as (_ & Hl).
    destruct (Hl _ eq_refl)
      as (scheme & host & port & Hu & Hs & Hiff & Hh & _ & _ & Hp).
    exists scheme, host, port. split; [exact Hu|].
    split; [|split].
    + destruct Hs as [Hs|Hs]; [|exact Hs].
      apply Hiff in Hs. discriminate.
    + apply Hh. discriminate.
    + apply Hp. reflexivity.
Defined.

(** ** The connection manager: what each piece of code does *)

Ltac mrun :=
  repeat (unfold mbind, M_bind, mret, M_ret, gets, modify, throw, lift,
            try_catch, try_finally, setReadyState, setLiveData, setTimeout,
            clearTimeout, socket_at, update_socket, ws_close, current_socket,
            new_WebSocket; cbn).

Lemma timer_truthy_None t : timer_truthy t = false -> t = None \/ t = Some 0%nat.
Proof.
  destruct t as [[|n]|]; cbn; intros H; auto; discriminate.
Qed.

Lemma scheduleReconnect_eq s :
  scheduleReconnect s
  = (Ok tt, rescheduled s).
Proof.
  unfold scheduleReconnect, rescheduled. mrun.
  destruct (shouldConnectRef s); cbn; [|reflexivity].
  destruct (timer_truthy (reconnectTimerRef s)); reflexivity.
Qed.

Lemma onopen_handler_eq s : onopen_handler s = (Ok tt, emit_state OPEN s).
Proof. reflexivity. Qed.

Lemma onclose_handler_eq s :
  onclose_handler s = (Ok tt, rescheduled (emit_state CLOSED s)).
Proof.
  unfold onclose_handler. mrun. rewrite scheduleReconnect_eq. reflexivity.
Qed.

Lemma onmessage_handler_eq E data s :
  onmessage_handler E data s
  = (Ok tt, match parse_payload E data with
            | Ok j => emit_message (LJson j) s
            | Throw _ => emit_message (LRaw data) s
            end).
Proof.
  unfold onmessage_handler. mrun. destruct (parse_payload E data); reflexivity.
Qed.

Lemma onerror_handler_eq s : onerror_handler s = (Ok tt, errored s).
Proof.
  unfold onerror_handler, errored. mrun.
  destruct (wsRef s) as [i|]; cbn; [|reflexivity].
  destruct (sockets s !! i) as [k|] eqn:Hk; cbn; [|reflexivity].
  unfold closing.
  destruct (is_live (ws_readyState k)); cbn; [|reflexivity].
  rewrite Hk. reflexivity.
Qed.

Lemma socket_at_eq i k s : sockets s !! i = Some k -> socket_at i s = (Ok k, s).
Proof. unfold socket_at. now intros ->. Qed.

Lemma socket_at_none i s :
  sockets s !! i = None -> socket_at i s = (Throw TypeError, s).
Proof. unfold socket_at. now intros ->. Qed.

Lemma update_socket_eq i f k s :
  sockets s !! i = Some k ->
  update_socket i f s = (Ok tt, set_sockets (<[i := f k]> (sockets s)) s).
Proof.
  intros H. unfold update_socket, mbind, M_bind. now rewrite (socket_at_eq i k).
Qed.

Lemma update_socket_none {A} i f (rest : M A) s :
  sockets s !! i = None ->
  (update_socket i f ;; rest) s = (Throw TypeError, s).
Proof.
  intros H. unfold update_socket, mbind, M_bind. now rewrite socket_at_none.
Qed.

Lemma ws_close_eq i args k s :
  sockets s !! i = Some k ->
  ws_close i args s = (Ok tt, set_sockets (<[i := closing args k]> (sockets s)) s).
Proof.
  intros H. unfold ws_close, mbind, M_bind. rewrite (socket_at_eq i k) by assumption.
  unfold closing. destruct (is_live (ws_readyState k)).
  - now rewrite (update_socket_eq i _ k).
  - cbn. rewrite list_insert_id by assumption. now destruct s.
Qed.

Lemma lookup_insert_same {A} (l : list A) i x y :
  l !! i = Some x -> <[i := y]> l !! i = Some y.
Proof. intros H. apply list_lookup_insert_eq. eapply lookup_lt_Some; eauto. Qed.

Lemma bind_ok {A B} (m : M A) (f : A -> M B) s a s' :
  m s = (Ok a, s') -> (m ≫= f) s = f a s'.
Proof. intros H. unfold mbind, M_bind. now rewrite H. Qed.

Lemma bind_throw {A B} (m : M A) (f : A -> M B) s e s' :
  m s = (Throw e, s') -> (m ≫= f) s = (Throw e, s').
Proof. intros H. unfold mbind, M_bind. now rewrite H. Qed.

Lemma strip_then {A} i k (rest : M A) s :
  sockets s !! i = Some k ->
  (update_socket i (set_onopen false);;
   update_socket i (set_onmessage false);;
   update_socket i (set_onerror false);;
   update_socket i (set_onclose false);;
   rest) s
  = rest (set_sockets (<[i := stripped k]> (sockets s)) s).
Proof.
  intros H.
  do 4 (erewrite bind_ok
          by (eapply update_socket_eq; cbn;
              repeat (eapply lookup_insert_same); eauto)).
  cbn. rewrite !list_insert_insert_eq. reflexivity.
Qed.

Lemma cleanupSocket_eq s : cleanupSocket s = (Ok tt, cleaned s).
Proof.
  unfold cleanupSocket, cleaned, try_finally, try_catch.
  set (s1 := if timer_truthy (reconnectTimerRef s)
             then set_reconnectTimerRef None
                    (set_timers
                       (filter (fun t => t.1 ≠ default 0%nat (reconnectTimerRef s))
                          (timers s)) s)
             else s).
  assert (Hs1 : sockets s1 = sockets s /\ wsRef s1 = wsRef s).
  { subst s1. destruct (timer_truthy _); auto. }
  destruct Hs1 as [Hsock Hws].
  erewrite bind_ok by reflexivity.
  erewrite (bind_ok _ _ s tt s1)
    by (subst s1; destruct (timer_truthy _); reflexivity).
  clearbody s1.
  erewrite bind_ok by reflexivity. cbn beta. rewrite Hws.
  destruct (wsRef s) as [i|]; [|reflexivity].
  destruct (sockets s !! i) as [k|] eqn:Hk; rewrite <- Hsock in Hk.
  - rewrite (strip_then i k) by assumption.
    erewrite bind_ok
      by (eapply socket_at_eq; cbn; eapply lookup_insert_same; eauto).
    unfold closing.
    change (ws_readyState (stripped k)) with (ws_readyState k).
    destruct (is_live (ws_readyState k)) eqn:Hl.
    + erewrite ws_close_eq by (cbn; eapply lookup_insert_same; eauto).
      unfold closing.
      change (ws_readyState (stripped k)) with (ws_readyState k). rewrite Hl.
      cbn. rewrite Hsock, list_insert_insert_eq. reflexivity.
    + cbn. rewrite Hsock. reflexivity.
  - rewrite update_socket_none by assumption. reflexivity.
Qed.

Lemma getUrl_total o w : exists u l, getUrl o w = Ok (u, l).
Proof.
  destruct o as [|s]; [apply buildDefaultUrl_total|].
  unfold getUrl.
  destruct (0 <? String.length s)%nat; [eexists _, _; reflexivity|].
  apply buildDefaultUrl_total.
Qed.

Lemma AppJsx_buildDefaultUrl_total w : exists u l, AppJsx.buildDefaultUrl w = Ok (u, l).
Proof.
  destruct w as [w|]; [|cbn; eauto].
  unfold AppJsx.buildDefaultUrl, AppJsx.url_from_window, the_location.
  destruct (location w); cbn; eauto.
Qed.

Lemma AppJsx_getUrl_total o w : exists u l, AppJsx.getUrl o w = Ok (u, l).
Proof.
  destruct o as [|s]; [apply AppJsx_buildDefaultUrl_total|].
  unfold AppJsx.getUrl.
  destruct (0 <? String.length s)%nat; [cbn; eauto|].
  apply AppJsx_buildDefaultUrl_total.
Qed.

Lemma wire_then i k s :
  sockets s !! i = Some k -> wsRef s = Some i ->
  ((j ← current_socket; update_socket j (set_onopen true));;
   (j ← current_socket; update_socket j (set_onmessage true));;
   (j ← current_socket; update_socket j (set_onerror true));;
   (j ← current_socket; update_socket j (set_onclose true))) s
  = (Ok tt, set_sockets (<[i := wired k]> (sockets s)) s).
Proof.
  intros H Hw.
  assert (Hcur : forall l, current_socket (set_sockets l s) = (Ok i, set_sockets l s)).
  { intros l. unfold current_socket. erewrite bind_ok by reflexivity.
    cbn. rewrite Hw. reflexivity. }
  assert (Hcur0 : current_socket s = (Ok i, s)).
  { unfold current_socket. erewrite bind_ok by reflexivity. rewrite Hw. reflexivity. }
  erewrite bind_ok.
  2:{ erewrite bind_ok by exact Hcur0. eapply update_socket_eq; eauto. }
  do 2 (erewrite bind_ok;
        [|erewrite bind_ok by apply Hcur;
          eapply update_socket_eq; cbn;
          repeat (eapply lookup_insert_same); eauto]).
  erewrite bind_ok by apply Hcur.
  erewrite update_socket_eq
    by (cbn; repeat (eapply lookup_insert_same); eauto).
  cbn. rewrite !list_insert_insert_eq. reflexivity.
Qed.

Lemma connect_eq E o ok s :
  (forall i, wsRef s = Some i -> is_Some (sockets s !! i)) ->
  exists u l,
    AppJsx.getUrl o (window E) = Ok (u, l) /\
    connect E o ok s
    = (Ok tt, if shouldConnectRef s && negb (current_live s)
              then attempted u ok s else s).
Proof.
  intros Hws.
  destruct (AppJsx_getUrl_total o (window E)) as (u & l & Hu).
  exists u, l. split; [exact Hu|].
  assert (Htail : forall s0 : Hook,
    s0 = emit_state CONNECTING s ->
    (constructed ←
       try_catch
         (i ← new_WebSocket ok u;
          modify (set_wsRef (Some i));;
          mret true)
         (fun _ => scheduleReconnect;; mret false);
     if negb constructed then mret tt
     else
       (i ← current_socket; update_socket i (set_onopen true));;
       (i ← current_socket; update_socket i (set_onmessage true));;
       (i ← current_socket; update_socket i (set_onerror true));;
       (i ← current_socket; update_socket i (set_onclose true))) s0
    = (Ok tt, attempted u ok s)).
  { intros s0 ->. unfold attempted. destruct ok.
    - erewrite bind_ok by reflexivity. cbn [negb].
      rewrite (wire_then (List.length (sockets s)) (fresh_socket u)).
      + unfold connected. cbn.
        rewrite insert_app_r_alt by lia. rewrite Nat.sub_diag. reflexivity.
      + cbn. rewrite lookup_app_r by lia. rewrite Nat.sub_diag. reflexivity.
      + reflexivity.
    - erewrite bind_ok.
      2:{ unfold try_catch. erewrite bind_throw by reflexivity.
          erewrite bind_ok by apply scheduleReconnect_eq.
          reflexivity. }
      reflexivity. }
  unfold connect, current_live.
  erewrite bind_ok by reflexivity.
  destruct (shouldConnectRef s); [|reflexivity]. cbn [negb andb].
  erewrite bind_ok by reflexivity.
  destruct (wsRef s) as [i|] eqn:Hw.
  - destruct (Hws i eq_refl) as [k Hk]. rewrite Hk.
    erewrite bind_ok
      by (erewrite bind_ok by (eapply socket_at_eq; eauto); reflexivity).
    destruct (is_live (ws_readyState k)); [reflexivity|]. cbn [negb].
    erewrite bind_ok by (unfold lift; rewrite Hu; reflexivity).
    erewrite bind_ok by reflexivity.
    apply Htail. reflexivity.
  - erewrite bind_ok by reflexivity. cbn [negb].
    erewrite bind_ok by (unfold lift; rewrite Hu; reflexivity).
    erewrite bind_ok by reflexivity.
    apply Htail. reflexivity.
Qed.

(** ** The invariant *)

Lemma Inv_ext s s' :
  reconnectTimerRef s' = reconnectTimerRef s ->
  timers s' = timers s ->
  next_timer s' = next_timer s ->
  wsRef s' = wsRef s ->
  sockets s' = sockets s ->
  mounted s' = mounted s ->
  shouldConnectRef s' = shouldConnectRef s ->
  connectRef s' = connectRef s ->
  uncaught s' = uncaught s ->
  Inv s -> Inv s'.
Proof.
  intros H1 H2 H3 H4 H5 H6 H7 H8 H9 [I1 I2 I3 I4 I5 I6 I7 I8 I9].
  constructor; rewrite ?H1, ?H2, ?H3, ?H4, ?H5, ?H6, ?H7, ?H8, ?H9; assumption.
Qed.

Lemma Inv_emit_state r s : Inv s -> Inv (emit_state r s).
Proof. now apply Inv_ext. Qed.

Lemma Inv_emit_message v s : Inv s -> Inv (emit_message v s).
Proof. now apply Inv_ext. Qed.

Lemma Inv_set_clock c s : Inv s -> Inv (set_clock c s).
Proof. now apply Inv_ext. Qed.

Lemma Inv_initial : Inv initial_hook.
Proof.
  constructor; cbn; try easy.
Qed.

Lemma quiet_not_live k : quiet k -> is_live (ws_readyState k) = false.
Proof. intros [H | (H & _)]; now rewrite H. Qed.

(** In a reachable state, [reconnectTimerRef] is truthy exactly when it is
    set. *)
Lemma Inv_timer_truthy s :
  Inv s -> timer_truthy (reconnectTimerRef s) = false -> reconnectTimerRef s = None.
Proof.
  intros I H. destruct (timer_truthy_None _ H) as [Hn|Hz]; [exact Hn|].
  pose proof (inv_timer s I) as Ht. rewrite Hz in Ht. now destruct Ht.
Qed.

Lemma Inv_armed s :
  Inv s -> mounted s = true -> reconnectTimerRef s = None ->
  (forall i k, wsRef s = Some i -> sockets s !! i = Some k ->
               ws_readyState k = CLOSED) ->
  Inv (armed s).
Proof.
  intros I Hm Hr Hc. pose proof (inv_timer s I) as Ht. rewrite Hr in Ht.
  constructor; cbn.
  - split; [apply (inv_next s I)|]. rewrite Ht. eauto.
  - lia.
  - apply (inv_ws s I).
  - apply (inv_stale s I).
  - intros _. exact Hc.
  - apply (inv_mounted s I).
  - intros Hf. congruence.
  - apply (inv_uncaught s I).
  - apply (inv_unsent s I).
Qed.

Lemma Inv_rescheduled s :
  Inv s -> mounted s = true ->
  (forall i k, wsRef s = Some i -> sockets s !! i = Some k ->
               ws_readyState k = CLOSED) ->
  Inv (rescheduled s).
Proof.
  intros I Hm Hc. unfold rescheduled.
  destruct (shouldConnectRef s); cbn; [|exact I].
  destruct (timer_truthy (reconnectTimerRef s)) eqn:Ht; cbn; [exact I|].
  apply Inv_armed; auto using Inv_timer_truthy.
Qed.

Lemma Inv_connected u s :
  Inv s -> mounted s = true -> reconnectTimerRef s = None ->
  (forall i k, wsRef s = Some i -> sockets s !! i = Some k ->
               ws_readyState k = CLOSED) ->
  Inv (connected u s).
Proof.
  intros I Hm Hr Hc. constructor; cbn.
  - rewrite Hr. pose proof (inv_timer s I) as Ht. now rewrite Hr in Ht.
  - apply (inv_next s I).
  - intros i [= <-]. rewrite lookup_app_r by lia. rewrite Nat.sub_diag. cbn. eauto.
  - intros j k Hk Hj.
    destruct (decide (j < List.length (sockets s))%nat) as [Hlt|Hge].
    + rewrite lookup_app_l in Hk by assumption.
      destruct (decide (wsRef s = Some j)) as [Hw|Hw].
      * left. eauto.
      * eapply (inv_stale s I); eauto.
    + apply lookup_lt_Some in Hk. rewrite length_app in Hk. cbn in Hk.
      exfalso. apply Hj. f_equal. lia.
  - rewrite Hr. congruence.
  - apply (inv_mounted s I).
  - intros Hf. congruence.
  - apply (inv_uncaught s I).
  - intros j k Hk.
    destruct (decide (j < List.length (sockets s))%nat) as [Hlt|Hge].
    + rewrite lookup_app_l in Hk by assumption. eapply (inv_unsent s I); eauto.
    + rewrite lookup_app_r in Hk by lia.
      apply lookup_lt_Some in Hk as Hlen. cbn in Hlen.
      replace (j - List.length (sockets s))%nat with O in Hk by lia.
      cbn in Hk. inversion Hk. cbn. discriminate.
Qed.

Lemma current_live_closed s :
  (forall i k, wsRef s = Some i -> sockets s !! i = Some k ->
               ws_readyState k = CLOSED) ->
  current_live s = false.
Proof.
  intros Hc. unfold current_live.
  destruct (wsRef s) as [i|]; [|reflexivity].
  destruct (sockets s !! i) as [k|] eqn:Hk; [|reflexivity].
  now rewrite (Hc i k eq_refl Hk).
Qed.

(** [connect], called where the hook calls it: no timeout is pending and the
    current socket, if any, is closed. *)
Lemma Inv_connect E o ok s :
  Inv s -> mounted s = true -> reconnectTimerRef s = None ->
  (forall i k, wsRef s = Some i -> sockets s !! i = Some k ->
               ws_readyState k = CLOSED) ->
  exists s', connect E o ok s = (Ok tt, s') /\ Inv s'.
Proof.
  intros I Hm Hr Hc.
  destruct (connect_eq E o ok s (inv_ws s I)) as (u & l & _ & ->).
  eexists. split; [reflexivity|].
  destruct (shouldConnectRef s && negb (current_live s)); [|exact I].
  unfold attempted. destruct ok.
  - now apply Inv_connected.
  - apply Inv_rescheduled; [now apply Inv_emit_state | exact Hm | exact Hc].
Qed.

Lemma filter_single_timer (id : nat) (due : N) :
  filter (fun t : nat * N => t.1 ≠ id) [(id, due)] = [].
Proof.
  rewrite filter_cons. cbn. destruct (decide (id ≠ id)); [congruence|reflexivity].
Qed.

Lemma stripped_quiet k args :
  ws_readyState k ≠ UNSENT -> quiet (closing args (stripped k)).
Proof.
  intros Hu. unfold closing. cbn.
  destruct (ws_readyState k) eqn:Hs; cbn; unfold quiet; cbn; rewrite ?Hs; auto.
  - right. auto.
  - right. auto.
  - right. auto.
  - congruence.
Qed.

Lemma Inv_unmount s :
  Inv s ->
  Inv (cleaned (set_shouldConnectRef false (set_mounted false s))).
Proof.
  intros I. unfold cleaned. cbn.
  pose proof (inv_timer s I) as Ht.
  set (s0 := set_shouldConnectRef false (set_mounted false s)).
  set (s1 := if timer_truthy (reconnectTimerRef s) then _ else s0).
  assert (H1 : reconnectTimerRef s1 = None /\ timers s1 = [] /\
               next_timer s1 = next_timer s /\ sockets s1 = sockets s /\
               mounted s1 = false /\ uncaught s1 = uncaught s).
  { subst s1 s0. destruct (timer_truthy (reconnectTimerRef s)) eqn:Htr; cbn.
    - destruct (reconnectTimerRef s) as [id|]; [|discriminate].
      destruct Ht as (_ & due & Ht). cbn. rewrite Ht. rewrite filter_single_timer. auto 10.
    - rewrite (Inv_timer_truthy s I Htr) in *. auto 10. }
  destruct H1 as (Hr & Htm & Hn & Hso & Hmo & Hun). clearbody s1.
  set (s2 := match wsRef s with Some _ => _ | None => _ end).
  assert (H2 : reconnectTimerRef s2 = None /\ timers s2 = [] /\
               next_timer s2 = next_timer s /\ mounted s2 = false /\
               uncaught s2 = uncaught s /\
               forall j k, sockets s2 !! j = Some k ->
                           quiet k /\ ws_readyState k ≠ UNSENT).
  { subst s2. destruct (wsRef s) as [i|] eqn:Hw.
    - destruct (sockets s !! i) as [k0|] eqn:Hk0; cbn.
      + repeat (split; [assumption|]). intros j k Hk.
        destruct (decide (j = i)) as [->|Hne].
        * rewrite (lookup_insert_same _ _ k0) in Hk by assumption.
          inversion Hk; subst k. pose proof (inv_unsent s I i k0 Hk0) as Hu.
          split; [now apply stripped_quiet|].
          unfold closing. cbn.
          destruct (ws_readyState k0) eqn:Hs; cbn; rewrite ?Hs; congruence.
        * rewrite list_lookup_insert_ne in Hk by congruence.
          split; [|eapply (inv_unsent s I); eauto].
          eapply (inv_stale s I); [eassumption|]. congruence.
      + repeat (split; [assumption|]). rewrite Hso. intros j k Hk.
        split; [|eapply (inv_unsent s I); eauto].
        eapply (inv_stale s I); [eassumption|].
        intros Hj. rewrite Hw in Hj. inversion Hj; subst. congruence.
    - repeat (split; [assumption|]). rewrite Hso. intros j k Hk.
      split; [|eapply (inv_unsent s I); eauto].
      eapply (inv_stale s I); [eassumption|]. congruence. }
  destruct H2 as (Hr2 & Htm2 & Hn2 & Hmo2 & Hun2 & Hq). clearbody s2.
  constructor; cbn.
  - now rewrite Hr2.
  - rewrite Hn2. apply (inv_next s I).
  - discriminate.
  - intros j k Hk _. now apply Hq in Hk.
  - rewrite Hr2. congruence.
  - rewrite Hmo2. discriminate.
  - auto.
  - rewrite Hun2. apply (inv_uncaught s I).
  - intros j k Hk. now apply Hq in Hk.
Qed.

Lemma run_callback_ok c s s' : c s = (Ok tt, s') -> run_callback c s = s'.
Proof. unfold run_callback. now intros ->. Qed.

Lemma mount_effects_eq E o ok s :
  mount_effects E o ok s
  = connect E o ok (set_shouldConnectRef true (set_connectRef true s)).
Proof.
  unfold mount_effects. do 2 (erewrite bind_ok by reflexivity). reflexivity.
Qed.

Lemma unmount_cleanup_eq s :
  unmount_cleanup s = (Ok tt, cleaned (set_shouldConnectRef false s)).
Proof.
  unfold unmount_cleanup. erewrite bind_ok by reflexivity.
  apply cleanupSocket_eq.
Qed.

Lemma reconnect_callback_eq E o ok s :
  reconnect_callback E o ok s
  = if connectRef s then connect E o ok (set_reconnectTimerRef None s)
    else (Ok tt, set_reconnectTimerRef None s).
Proof.
  unfold reconnect_callback. do 2 (erewrite bind_ok by reflexivity). cbn.
  destruct (connectRef s); reflexivity.
Qed.

Lemma Inv_mounting s :
  Inv s -> mounted s = false ->
  Inv (set_shouldConnectRef true (set_connectRef true (set_mounted true s))).
Proof.
  intros I Hm. destruct (inv_unmounted s I Hm) as [Hw Hr].
  constructor; cbn; try apply I; auto; congruence.
Qed.

Lemma due_of_single id ts due :
  due_of id ts = Some due ->
  forall id' due', ts = [(id', due')] -> id' = id /\ due' = due.
Proof.
  unfold due_of. intros H id' due' ->. cbn in H.
  destruct (id' =? id)%nat eqn:He; cbn in H; [|discriminate].
  apply Nat.eqb_eq in He. inversion H. auto.
Qed.

(** A timeout that falls due is the one [reconnectTimerRef] names. *)
Lemma Inv_due s id due :
  Inv s -> due_of id (timers s) = Some due ->
  reconnectTimerRef s = Some id /\ timers s = [(id, due)].
Proof.
  intros I H. pose proof (inv_timer s I) as Ht.
  destruct (reconnectTimerRef s) as [id'|].
  - destruct Ht as (_ & due' & Ht).
    destruct (due_of_single _ _ _ H _ _ Ht) as [-> ->]. auto.
  - rewrite Ht in H. discriminate.
Qed.

Lemma Inv_timer_cleared s :
  Inv s -> Inv (set_reconnectTimerRef None (set_timers [] s)).
Proof.
  intros I. constructor; cbn; try apply I; auto.
  - congruence.
  - intros Hm. split; [|reflexivity]. now apply (inv_unmounted s I).
Qed.

(** A socket that still reports is the current one, or has no handler. *)
Lemma Inv_reporting s j k :
  Inv s -> sockets s !! j = Some k -> ws_readyState k ≠ CLOSED ->
  wsRef s = Some j \/
  (ws_readyState k = CLOSING /\ onopen k = false /\ onmessage k = false /\
   onerror k = false /\ onclose k = false).
Proof.
  intros I Hk Hs. destruct (decide (wsRef s = Some j)) as [Hw|Hw]; [auto|].
  right. destruct (inv_stale s I j k Hk Hw) as [Hq|Hq]; [contradiction|exact Hq].
Qed.

Lemma Inv_has_current_mounted s i : Inv s -> wsRef s = Some i -> mounted s = true.
Proof.
  intros I Hw. destruct (mounted s) eqn:Hm; [reflexivity|].
  destruct (inv_unmounted s I Hm) as [Hn _]. congruence.
Qed.

Lemma Inv_has_timer_mounted s : Inv s -> reconnectTimerRef s ≠ None -> mounted s = true.
Proof.
  intros I Hr. destruct (mounted s) eqn:Hm; [reflexivity|].
  destruct (inv_unmounted s I Hm) as [_ Hn]. congruence.
Qed.

(** Replacing one socket. *)
Lemma Inv_set_socket s i k k' :
  Inv s -> sockets s !! i = Some k -> ws_readyState k' ≠ UNSENT ->
  (wsRef s ≠ Some i -> quiet k') ->
  (reconnectTimerRef s ≠ None -> wsRef s = Some i -> ws_readyState k' = CLOSED) ->
  Inv (set_sockets (<[i := k']> (sockets s)) s).
Proof.
  intros I Hk Hr Hq Hp. constructor; cbn; try apply I.
  - intros j Hw. destruct (decide (j = i)) as [->|Hne].
    + rewrite (lookup_insert_same _ _ k) by assumption. eauto.
    + rewrite list_lookup_insert_ne by congruence. now apply (inv_ws s I).
  - intros j k0 Hk0 Hw. destruct (decide (j = i)) as [->|Hne].
    + rewrite (lookup_insert_same _ _ k) in Hk0 by assumption.
      inversion Hk0; subst. auto.
    + rewrite list_lookup_insert_ne in Hk0 by congruence.
      eapply (inv_stale s I); eauto.
  - intros Hn j k0 Hw Hk0. destruct (decide (j = i)) as [->|Hne].
    + rewrite (lookup_insert_same _ _ k) in Hk0 by assumption.
      inversion Hk0; subst. auto.
    + rewrite list_lookup_insert_ne in Hk0 by congruence.
      eapply (inv_pending s I); eauto.
  - intros j k0 Hk0. destruct (decide (j = i)) as [->|Hne].
    + rewrite (lookup_insert_same _ _ k) in Hk0 by assumption.
      inversion Hk0; subst. auto.
    + rewrite list_lookup_insert_ne in Hk0 by congruence.
      eapply (inv_unsent s I); eauto.
Qed.

Lemma Inv_errored s : Inv s -> Inv (errored s).
Proof.
  intros I. unfold errored.
  destruct (wsRef s) as [i|] eqn:Hw; [|now apply Inv_emit_state].
  destruct (sockets s !! i) as [k|] eqn:Hk; [|now apply Inv_emit_state].
  destruct (is_live (ws_readyState k)) eqn:Hl; [|now apply Inv_emit_state].
  unfold closing. rewrite Hl.
  assert (Hn : reconnectTimerRef s = None).
  { destruct (reconnectTimerRef s) eqn:Hr; [|reflexivity].
    assert (Hc := inv_pending s I ltac:(congruence) i k Hw Hk).
    rewrite Hc in Hl. discriminate. }
  apply (Inv_ext (set_sockets
                    (<[i := set_close_args (Some None) (set_ws_readyState CLOSING k)]>
                       (sockets s)) s)); try reflexivity.
  apply (Inv_set_socket s i k); auto; cbn; congruence.
Qed.

Lemma Inv_dispatch_open s k :
  Inv s -> Inv (dispatch onopen k onopen_handler s).
Proof.
  intros I. unfold dispatch. destruct (onopen k); [|exact I].
  rewrite (run_callback_ok _ _ _ (onopen_handler_eq s)). now apply Inv_emit_state.
Qed.

Lemma Inv_dispatch_message E data s k :
  Inv s -> Inv (dispatch onmessage k (onmessage_handler E data) s).
Proof.
  intros I. unfold dispatch. destruct (onmessage k); [|exact I].
  rewrite (run_callback_ok _ _ _ (onmessage_handler_eq E data s)).
  destruct (parse_payload E data); now apply Inv_emit_message.
Qed.

Lemma Inv_dispatch_error s k :
  Inv s -> Inv (dispatch onerror k onerror_handler s).
Proof.
  intros I. unfold dispatch. destruct (onerror k); [|exact I].
  rewrite (run_callback_ok _ _ _ (onerror_handler_eq s)). now apply Inv_errored.
Qed.

Lemma Inv_step E o e s s' : Inv s -> step E o e s = Some s' -> Inv s'.
Proof.
  intros I H. destruct e as [ok| |dt|id ok|i|i data|i|i]; cbn in H.
  - (* Mount *)
    destruct (mounted s) eqn:Hm; [discriminate|]. inversion H; subst s'; clear H.
    pose proof (Inv_mounting s I Hm) as I1.
    destruct (inv_unmounted s I Hm) as [Hw Hr].
    destruct (Inv_connect E o ok _ I1 eq_refl Hr) as (s2 & Hc & I2).
    { cbn. rewrite Hw. discriminate. }
    rewrite (run_callback_ok _ _ s2); [exact I2|].
    rewrite mount_effects_eq. exact Hc.
  - (* Unmount *)
    destruct (mounted s) eqn:Hm; [|discriminate]. inversion H; subst s'; clear H.
    rewrite (run_callback_ok _ _ _ (unmount_cleanup_eq _)).
    now apply Inv_unmount.
  - (* Advance *)
    inversion H; subst. now apply Inv_set_clock.
  - (* TimerFire *)
    destruct (due_of id (timers s)) as [due|] eqn:Hd; [|discriminate].
    destruct (due <=? clock s)%N; [|discriminate]. inversion H; subst s'; clear H.
    destruct (Inv_due s id due I Hd) as [Hr Ht].
    rewrite Ht, filter_single_timer.
    pose proof (Inv_has_timer_mounted s I ltac:(congruence)) as Hm.
    destruct (inv_mounted s I Hm) as [_ Hcr].
    pose proof (Inv_timer_cleared s I) as I1.
    destruct (Inv_connect E o ok _ I1 Hm eq_refl) as (s2 & Hc & I2).
    { cbn. apply (inv_pending s I). congruence. }
    rewrite (run_callback_ok _ _ s2); [exact I2|].
    rewrite reconnect_callback_eq. cbn. rewrite Hcr. exact Hc.
  - (* SockOpen *)
    destruct (sockets s !! i) as [k|] eqn:Hk; [|discriminate].
    destruct (ws_readyState k) eqn:Hs; try discriminate.
    inversion H; subst s'; clear H.
    apply Inv_dispatch_open.
    destruct (Inv_reporting s i k I Hk ltac:(congruence)) as [Hw|(Hc & _)];
      [|congruence].
    apply (Inv_set_socket s i k); auto; cbn; try congruence.
    intros Hn _. pose proof (inv_pending s I Hn i k Hw Hk). congruence.
  - (* SockMessage *)
    destruct (sockets s !! i) as [k|] eqn:Hk; [|discriminate].
    destruct (ws_readyState k) eqn:Hs; try discriminate.
    inversion H; subst s'; clear H.
    now apply Inv_dispatch_message.
  - (* SockError *)
    destruct (sockets s !! i) as [k|] eqn:Hk; [|discriminate].
    destruct (ws_readyState k) eqn:Hs; try discriminate;
      inversion H; subst s'; clear H; now apply Inv_dispatch_error.
  - (* SockClose *)
    destruct (sockets s !! i) as [k|] eqn:Hk; [|discriminate].
    assert (Hnc : ws_readyState k ≠ CLOSED /\ ws_readyState k ≠ UNSENT).
    { destruct (ws_readyState k); try discriminate; split; congruence. }
    assert (Hs' : s' = dispatch onclose k onclose_handler
                    (set_sockets (<[i := set_ws_readyState CLOSED k]> (sockets s)) s)).
    { destruct (ws_readyState k); try discriminate; now inversion H. }
    clear H. subst s'. destruct Hnc as [Hnc _].
    assert (I1 : Inv (set_sockets (<[i := set_ws_readyState CLOSED k]> (sockets s)) s)).
    { apply (Inv_set_socket s i k); auto; cbn; try congruence. intros _. now left. }
    unfold dispatch. destruct (onclose k) eqn:Hoc; [|exact I1].
    rewrite (run_callback_ok _ _ _ (onclose_handler_eq _)).
    destruct (Inv_reporting s i k I Hk Hnc) as [Hw|(_ & _ & _ & _ & Hf)];
      [|congruence].
    apply Inv_rescheduled.
    + now apply Inv_emit_state.
    + cbn. eapply Inv_has_current_mounted; eauto.
    + cbn. intros j k0 Hj Hk0. rewrite Hw in Hj. inversion Hj; subst j.
      rewrite (lookup_insert_same _ _ k) in Hk0 by assumption.
      now inversion Hk0.
Qed.

Lemma Inv_run E o es : forall s s', Inv s -> run E o es s = Some s' -> Inv s'.
Proof.
  induction es as [|e es IH]; intros s s' I H; cbn in H.
  - now inversion H; subst.
  - destruct (step E o e s) as [s1|] eqn:Hs; [|discriminate].
    eapply IH; [|eassumption]. eapply Inv_step; eassumption.
Qed.

Lemma Inv_reachable E o es s : run E o es initial_hook = Some s -> Inv s.
Proof. apply Inv_run, Inv_initial. Qed.

(** ** The connection manager: claims *)

Lemma connect_noop_when_live E o ok s :
  current_live s = true -> connect E o ok s = (Ok tt, s).
Proof.
  intros Hl.
  destruct (connect_eq E o ok s) as (u & l & _ & ->).
  - unfold current_live in Hl. intros i Hw. rewrite Hw in Hl.
    destruct (sockets s !! i); [eauto|discriminate].
  - rewrite Hl. now rewrite andb_false_r.
Qed.

Lemma connect_noop_when_stopped E o ok s :
  shouldConnectRef s = false -> connect E o ok s = (Ok tt, s).
Proof.
  intros Hs. unfold connect. erewrite bind_ok by reflexivity.
  rewrite Hs. reflexivity.
Qed.

Lemma filter_none {A} (P : A -> bool) (l : list A) :
  (forall j b, l !! j = Some b -> P b <> true) ->
  filter (fun x => P x = true) l = [].
Proof.
  induction l as [|x l IH]; intros H; [reflexivity|].
  rewrite filter_cons. destruct (decide (P x = true)) as [Hx|Hx].
  - exfalso. exact (H O x eq_refl Hx).
  - apply IH. intros j b Hb. exact (H (S j) b Hb).
Qed.

Lemma at_most_one_count {A} (P : A -> bool) (l : list A) :
  (forall i j a b, l !! i = Some a -> l !! j = Some b ->
                   P a = true -> P b = true -> i = j) ->
  (List.length (filter (fun x => P x = true) l) <= 1)%nat.
Proof.
  induction l as [|x l IH]; intros H; [cbn; lia|].
  rewrite filter_cons. destruct (decide (P x = true)) as [Hx|Hx].
  - rewrite filter_none; [cbn; lia|].
    intros j b Hb Pb. assert (O = S j) by (eapply (H O (S j)); eauto).
    discriminate.
  - apply IH. intros i j a b Ha Hb Pa Pb.
    assert (S i = S j) by (eapply (H (S i) (S j)); eauto). lia.
Qed.

(** C1.  In every state the hook reaches, at most one of the sockets it
    has constructed is connecting or open, and [connect] changes nothing
    (and constructs nothing) when the current socket is connecting or
    open. *)
Theorem single_live_connection
    (E : Env) (o : override) (es : list event) (s : Hook) :
  run E o es initial_hook = Some s ->
  (forall i j a b,
     sockets s !! i = Some a -> sockets s !! j = Some b ->
     is_live (ws_readyState a) = true -> is_live (ws_readyState b) = true ->
     i = j) /\
  (List.length (filter (fun k => is_live (ws_readyState k) = true) (sockets s))
   <= 1)%nat /\
  (forall ok, current_live s = true -> connect E o ok s = (Ok tt, s)).
Proof.
  intros Hrun. pose proof (Inv_reachable E o es s Hrun) as I.
  assert (Hone : forall i j a b,
     sockets s !! i = Some a -> sockets s !! j = Some b ->
     is_live (ws_readyState a) = true -> is_live (ws_readyState b) = true ->
     i = j).
  { intros i j a b Ha Hb La Lb.
    assert (Hcur : forall n k, sockets s !! n = Some k ->
                     is_live (ws_readyState k) = true -> wsRef s = Some n).
    { intros n k Hk Hl. destruct (decide (wsRef s = Some n)) as [Hw|Hw]; [exact Hw|].
      pose proof (quiet_not_live k (inv_stale s I n k Hk Hw)). congruence. }
    pose proof (Hcur i a Ha La). pose proof (Hcur j b Hb Lb). congruence. }
  split; [exact Hone|]. split.
  - apply (at_most_one_count (fun k => is_live (ws_readyState k))). exact Hone.
  - intros ok. apply connect_noop_when_live.
Qed.

(** C1, after the hook has mounted and its socket has opened. *)
Lemma single_live_connection_witness :
  exists s,
    run sample_env (OverrideString WS_URL) [Mount true; SockOpen 0] initial_hook
      = Some s /\
    (List.length (filter (fun k => is_live (ws_readyState k) = true) (sockets s))
     <= 1)%nat /\
    connect sample_env (OverrideString WS_URL) true s = (Ok tt, s).
Proof.
  destruct (run sample_env (OverrideString WS_URL) [Mount true; SockOpen 0]
              initial_hook) as [s|] eqn:Hrun; [|vm_compute in Hrun; discriminate].
  exists s. split; [reflexivity|].
  destruct (single_live_connection sample_env (OverrideString WS_URL)
              [Mount true; SockOpen 0] s Hrun) as (_ & Hcount & Hnoop).
  split; [exact Hcount|]. apply Hnoop.
  vm_compute in Hrun. inversion Hrun. vm_compute. reflexivity.
Defined.

Lemma rescheduled_arms s :
  shouldConnectRef s = true -> reconnectTimerRef s = None ->
  rescheduled s = armed s.
Proof. unfold rescheduled. now intros -> ->. Qed.

Lemma rescheduled_idle s :
  Inv s -> reconnectTimerRef s ≠ None \/ shouldConnectRef s = false ->
  rescheduled s = s.
Proof.
  intros I H. unfold rescheduled.
  destruct (shouldConnectRef s); [|reflexivity].
  destruct H as [H|H]; [|discriminate].
  pose proof (inv_timer s I) as Ht.
  destruct (reconnectTimerRef s) as [id|]; [|congruence].
  destruct Ht as [Hid _]. cbn. destruct id; [congruence|reflexivity].
Qed.

(** C7.  In every state the hook reaches at most one timeout is pending,
    and [reconnectTimerRef] is set exactly when one is.  [scheduleReconnect]
    is called from the close handler of a socket and from the [catch] block
    of [connect] (which the mount effect and the timeout callback call).
    The hook is started wherever such a call can be made: a socket that can
    still report its close to a handler exists only in a started hook (and
    then no timeout is pending), a timeout is pending only in a started
    hook, and [connect] returns at its first guard when the hook is not
    started.  In a started hook [scheduleReconnect] does nothing if a
    timeout is pending; otherwise it arms one timeout, due [RECONNECT_MS] =
    5000 ms later, and records its id.  A timeout that fires is the recorded
    one, it has fallen due, and its callback clears the record and calls
    [connect], which does nothing unless the hook is still started. *)
Theorem single_reconnect_timer
    (E : Env) (o : override) (es : list event) (s : Hook) :
  run E o es initial_hook = Some s ->
  (List.length (timers s) <= 1)%nat /\
  (reconnectTimerRef s = None <-> timers s = []) /\
  (forall i k,
     sockets s !! i = Some k -> ws_readyState k <> CLOSED -> onclose k = true ->
     shouldConnectRef s = true /\ reconnectTimerRef s = None) /\
  (reconnectTimerRef s <> None -> shouldConnectRef s = true) /\
  (shouldConnectRef s = true -> reconnectTimerRef s <> None ->
     scheduleReconnect s = (Ok tt, s)) /\
  (shouldConnectRef s = true -> reconnectTimerRef s = None ->
     scheduleReconnect s = (Ok tt, armed s) /\
     reconnectTimerRef (armed s) = Some (next_timer s) /\
     timers (armed s) = [(next_timer s, (clock s + 5000)%N)]) /\
  (forall id ok s',
     step E o (TimerFire id ok) s = Some s' ->
     reconnectTimerRef s = Some id /\
     (exists due, timers s = [(id, due)] /\ (due <= clock s)%N) /\
     connect E o ok (set_reconnectTimerRef None (set_timers [] s)) = (Ok tt, s')) /\
  (forall ok s0, shouldConnectRef s0 = false -> connect E o ok s0 = (Ok tt, s0)).
Proof.
  intros Hrun. pose proof (Inv_reachable E o es s Hrun) as I.
  pose proof (inv_timer s I) as Ht.
  split; [|split; [|split; [|split; [|split; [|split; [|split]]]]]].
  - destruct (reconnectTimerRef s); [destruct Ht as (_ & due & ->)|rewrite Ht];
      cbn; lia.
  - destruct (reconnectTimerRef s); [destruct Ht as (_ & due & ->)|rewrite Ht];
      split; intros; congruence.
  - intros i k Hk Hopen Hon.
    assert (Hw : wsRef s = Some i).
    { destruct (decide (wsRef s = Some i)) as [Hw|Hw]; [exact Hw|exfalso].
      destruct (inv_stale s I i k Hk Hw) as [Hc|(_ & _ & _ & _ & Hc)]; congruence. }
    split.
    + exact (proj1 (inv_mounted s I (Inv_has_current_mounted s i I Hw))).
    + destruct (reconnectTimerRef s) as [id|] eqn:Hr; [exfalso|reflexivity].
      apply Hopen. apply (inv_pending s I ltac:(congruence) i k Hw Hk).
  - intros Hr. exact (proj1 (inv_mounted s I (Inv_has_timer_mounted s I Hr))).
  - intros _ Hr. rewrite scheduleReconnect_eq. rewrite rescheduled_idle; auto.
  - intros Hs Hr. rewrite scheduleReconnect_eq, rescheduled_arms by assumption.
    rewrite Hr in Ht. cbn. rewrite Ht. auto.
  - intros id ok s' H. cbn in H.
    destruct (due_of id (timers s)) as [due|] eqn:Hd; [|discriminate].
    destruct (due <=? clock s)%N eqn:Hle; [|discriminate].
    inversion H; subst s'; clear H.
    destruct (Inv_due s id due I Hd) as [Hr Htm].
    split; [exact Hr|]. split; [exists due; split; [exact Htm|now apply N.leb_le]|].
    rewrite Htm, filter_single_timer.
    pose proof (Inv_has_timer_mounted s I ltac:(congruence)) as Hm.
    destruct (inv_mounted s I Hm) as [_ Hcr].
    destruct (Inv_connect E o ok _ (Inv_timer_cleared s I) Hm eq_refl)
      as (s2 & Hc & _).
    { cbn. apply (inv_pending s I). congruence. }
    rewrite (run_callback_ok _ _ s2); [exact Hc|].
    rewrite reconnect_callback_eq. cbn. rewrite Hcr. exact Hc.
  - intros ok s0. apply connect_noop_when_stopped.
Qed.

(** C7, after a close has armed the timeout, and after the constructor has
    failed in the mount effect. *)
Lemma single_reconnect_timer_witness :
  exists s s0,
    run sample_env (OverrideString WS_URL) [Mount true; SockOpen 0; SockClose 0]
      initial_hook = Some s /\
    (List.length (timers s) <= 1)%nat /\
    shouldConnectRef s = true /\
    scheduleReconnect s = (Ok tt, s) /\
    run sample_env (OverrideString WS_URL) [Mount true; SockOpen 0] initial_hook
      = Some s0 /\
    scheduleReconnect s0 = (Ok tt, armed s0) /\
    timers (armed s0) = [(1%nat, 5000%N)].
Proof.
  destruct (run sample_env (OverrideString WS_URL)
              [Mount true; SockOpen 0; SockClose 0] initial_hook)
    as [s|] eqn:Hrun; [|vm_compute in Hrun; discriminate].
  destruct (run sample_env (OverrideString WS_URL) [Mount true; SockOpen 0]
              initial_hook) as [s0|] eqn:Hrun0; [|vm_compute in Hrun0; discriminate].
  exists s, s0. split; [reflexivity|].
  destruct (single_reconnect_timer sample_env (OverrideString WS_URL)
              [Mount true; SockOpen 0; SockClose 0] s Hrun)
    as (Hlen & _ & _ & Hstarted & Hidle & _).
  destruct (single_reconnect_timer sample_env (OverrideString WS_URL)
              [Mount true; SockOpen 0] s0 Hrun0)
    as (_ & _ & Hclose & _ & _ & Harm & _).
  assert (Hr : reconnectTimerRef s <> None).
  { vm_compute in Hrun. inversion Hrun. cbn. discriminate. }
  split; [exact Hlen|]. split; [exact (Hstarted Hr)|].
  split; [exact (Hidle (Hstarted Hr) Hr)|]. split; [reflexivity|].
  assert (Hk : exists k, sockets s0 !! 0%nat = Some k /\ ws_readyState k <> CLOSED
                         /\ onclose k = true).
  { vm_compute in Hrun0. inversion Hrun0. eexists. split; [reflexivity|].
    split; [discriminate|reflexivity]. }
  destruct Hk as (k & Hk & Hopen & Hon).
  destruct (Hclose 0%nat k Hk Hopen Hon) as [Hs Hnone].
  destruct (Harm Hs Hnone) as (Ha & _ & Htm).
  split; [exact Ha|]. rewrite Htm.
  vm_compute in Hrun0. inversion Hrun0. reflexivity.
Defined.

(** ** No retry before the delay has passed *)

Lemma due_after_same c s s' :
  clock s' = clock s -> timers s' = timers s -> due_after c s -> due_after c s'.
Proof. unfold due_after. now intros -> ->. Qed.

Lemma due_after_rescheduled c s : due_after c s -> due_after c (rescheduled s).
Proof.
  intros [Hc Ht]. unfold rescheduled.
  destruct (shouldConnectRef s && negb (timer_truthy (reconnectTimerRef s)));
    [|now split].
  split; [exact Hc|]. cbn. intros t Hin.
  apply elem_of_cons in Hin as [->|Hin]; [cbn; lia|now apply Ht].
Qed.

Lemma due_after_filter c s (P : nat * N -> Prop) `{forall t, Decision (P t)} :
  due_after c s -> due_after c (set_timers (filter P (timers s)) s).
Proof.
  intros [Hc Ht]. split; [exact Hc|]. cbn. intros t Hin.
  apply list_elem_of_filter in Hin as [_ Hin]. now apply Ht.
Qed.

Lemma due_after_connect E o ok c s s' :
  Inv s -> due_after c s -> connect E o ok s = (Ok tt, s') -> due_after c s'.
Proof.
  intros I Hd Hc.
  destruct (connect_eq E o ok s (inv_ws s I)) as (u & l & _ & He).
  rewrite He in Hc. inversion Hc as [Hs']. clear Hc He.
  destruct (shouldConnectRef s && negb (current_live s)); [|exact Hd].
  unfold attempted. destruct ok.
  - apply (due_after_same c s); [reflexivity|reflexivity|exact Hd].
  - apply due_after_rescheduled.
    apply (due_after_same c s); [reflexivity|reflexivity|exact Hd].
Qed.

Lemma due_after_cleaned c s : due_after c s -> due_after c (cleaned s).
Proof.
  intros Hd. unfold cleaned.
  set (s1 := if timer_truthy (reconnectTimerRef s) then _ else s).
  assert (H1 : due_after c s1).
  { subst s1. destruct (timer_truthy (reconnectTimerRef s)); [|exact Hd].
    apply (due_after_same c (set_timers
             (filter (fun t => t.1 ≠ default 0%nat (reconnectTimerRef s)) (timers s)) s));
      [reflexivity|reflexivity|]. now apply due_after_filter. }
  clearbody s1.
  destruct (wsRef s) as [i|]; [destruct (sockets s !! i)|];
    (eapply due_after_same; [| |exact H1]; reflexivity).
Qed.

Lemma due_after_dispatch c slot k h s :
  (forall s0, due_after c s0 -> due_after c (run_callback h s0)) ->
  due_after c s -> due_after c (dispatch slot k h s).
Proof. intros Hh Hd. unfold dispatch. destruct (slot k); auto. Qed.

Lemma due_after_step E o e c s s' :
  Inv s -> due_after c s -> step E o e s = Some s' -> due_after c s'.
Proof.
  intros I Hd H. destruct e as [ok| |dt|id ok|i|i data|i|i]; cbn in H.
  - destruct (mounted s) eqn:Hm; [discriminate|]. inversion H; subst s'; clear H.
    pose proof (Inv_mounting s I Hm) as I1.
    destruct (inv_unmounted s I Hm) as [Hw Hr].
    destruct (Inv_connect E o ok _ I1 eq_refl Hr) as (s2 & Hc & _).
    { cbn. rewrite Hw. discriminate. }
    rewrite (run_callback_ok _ _ s2) by (rewrite mount_effects_eq; exact Hc).
    eapply due_after_connect; [exact I1| |exact Hc].
    eapply due_after_same; [| |exact Hd]; reflexivity.
  - destruct (mounted s); [|discriminate]. inversion H; subst s'; clear H.
    rewrite (run_callback_ok _ _ _ (unmount_cleanup_eq _)).
    apply due_after_cleaned. eapply due_after_same; [| |exact Hd]; reflexivity.
  - inversion H; subst s'. destruct Hd as [Hc Ht]. split; [cbn; lia|exact Ht].
  - destruct (due_of id (timers s)) as [due|] eqn:Hdue; [|discriminate].
    destruct (due <=? clock s)%N; [|discriminate]. inversion H; subst s'; clear H.
    destruct (Inv_due s id due I Hdue) as [Hr Ht].
    rewrite Ht, filter_single_timer.
    pose proof (Inv_has_timer_mounted s I ltac:(congruence)) as Hm.
    destruct (inv_mounted s I Hm) as [_ Hcr].
    pose proof (Inv_timer_cleared s I) as I1.
    destruct (Inv_connect E o ok _ I1 Hm eq_refl) as (s2 & Hc & _).
    { cbn. apply (inv_pending s I). congruence. }
    rewrite (run_callback_ok _ _ s2)
      by (rewrite reconnect_callback_eq; cbn; rewrite Hcr; exact Hc).
    eapply due_after_connect; [exact I1| |exact Hc].
    destruct Hd as [Hc0 _]. split; [exact Hc0|]. cbn. intros t Hin.
    now apply elem_of_nil in Hin.
  - destruct (sockets s !! i) as [k|]; [|discriminate].
    destruct (ws_readyState k); try discriminate. inversion H; subst s'; clear H.
    apply due_after_dispatch.
    + intros s0 H0. rewrite (run_callback_ok _ _ _ (onopen_handler_eq s0)).
      eapply due_after_same; [| |exact H0]; reflexivity.
    + eapply due_after_same; [| |exact Hd]; reflexivity.
  - destruct (sockets s !! i) as [k|]; [|discriminate].
    destruct (ws_readyState k); try discriminate. inversion H; subst s'; clear H.
    apply due_after_dispatch; [|exact Hd].
    intros s0 H0. rewrite (run_callback_ok _ _ _ (onmessage_handler_eq E data s0)).
    destruct (parse_payload E data);
      (eapply due_after_same; [| |exact H0]; reflexivity).
  - destruct (sockets s !! i) as [k|]; [|discriminate].
    assert (Hs' : s' = dispatch onerror k onerror_handler s).
    { destruct (ws_readyState k); try discriminate; now inversion H. }
    subst s'. apply due_after_dispatch; [|exact Hd].
    intros s0 H0. rewrite (run_callback_ok _ _ _ (onerror_handler_eq s0)).
    unfold errored.
    destruct (wsRef s0) as [j|]; [destruct (sockets s0 !! j) as [k0|];
      [destruct (is_live (ws_readyState k0))|]|];
      (eapply due_after_same; [| |exact H0]; reflexivity).
  - destruct (sockets s !! i) as [k|]; [|discriminate].
    assert (Hs' : s' = dispatch onclose k onclose_handler
                    (set_sockets (<[i := set_ws_readyState CLOSED k]> (sockets s)) s)).
    { destruct (ws_readyState k); try discriminate; now inversion H. }
    subst s'. apply due_after_dispatch.
    + intros s0 H0. rewrite (run_callback_ok _ _ _ (onclose_handler_eq s0)).
      apply due_after_rescheduled.
      eapply due_after_same; [| |exact H0]; reflexivity.
    + eapply due_after_same; [| |exact Hd]; reflexivity.
Qed.

Lemma due_after_run E o es c : forall s s',
  Inv s -> due_after c s -> run E o es s = Some s' -> Inv s' /\ due_after c s'.
Proof.
  induction es as [|e es IH]; intros s s' I Hd H; cbn in H.
  - inversion H; subst. auto.
  - destruct (step E o e s) as [s1|] eqn:Hs; [|discriminate].
    eapply IH; [| |eassumption].
    + eapply Inv_step; eassumption.
    + eapply due_after_step; eassumption.
Qed.

Lemma fire_not_before E o id ok c s s' :
  Inv s -> due_after c s -> step E o (TimerFire id ok) s = Some s' ->
  (c + RECONNECT_MS <= clock s)%N.
Proof.
  intros I [_ Ht] H. cbn in H.
  destruct (due_of id (timers s)) as [due|] eqn:Hdue; [|discriminate].
  destruct (due <=? clock s)%N eqn:Hle; [|discriminate].
  apply N.leb_le in Hle.
  destruct (Inv_due s id due I Hdue) as [_ Htm].
  specialize (Ht (id, due)). rewrite Htm in Ht.
  specialize (Ht ltac:(apply list_elem_of_singleton; reflexivity)). cbn in Ht. lia.
Qed.

Lemma due_of_head id due ts : due_of id ((id, due) :: ts) = Some due.
Proof. unfold due_of. cbn. now rewrite Nat.eqb_refl. Qed.

Lemma fire_enabled E o id due ok s :
  timers s = [(id, due)] -> (due <= clock s)%N ->
  is_Some (step E o (TimerFire id ok) s).
Proof.
  intros Ht Hle. cbn. rewrite Ht, due_of_head.
  apply N.leb_le in Hle. rewrite Hle. eauto.
Qed.

Lemma run_advance_fire E o id due ok dt s :
  timers s = [(id, due)] -> (due <= clock s + dt)%N ->
  is_Some (run E o [Advance dt; TimerFire id ok] s).
Proof.
  intros Ht Hle.
  destruct (fire_enabled E o id due ok (set_clock (clock s + dt) s) Ht Hle)
    as [s' Hs'].
  change (run E o [Advance dt; TimerFire id ok] s)
    with (match step E o (TimerFire id ok) (set_clock (clock s + dt) s) with
          | Some s' => Some s'
          | None => None
          end).
  rewrite Hs'. eauto.
Qed.

Lemma failed_connect_call E o s :
  Inv s -> mounted s = true -> reconnectTimerRef s = None ->
  (forall i k, wsRef s = Some i -> sockets s !! i = Some k ->
               ws_readyState k = CLOSED) ->
  connect E o false s = (Ok tt, armed (emit_state CONNECTING s)).
Proof.
  intros I Hm Hr Hc.
  destruct (connect_eq E o false s (inv_ws s I)) as (u & l & _ & ->).
  destruct (inv_mounted s I Hm) as [-> _].
  rewrite (current_live_closed s Hc). cbn [andb negb attempted].
  rewrite rescheduled_arms; [reflexivity| |exact Hr].
  cbn. now destruct (inv_mounted s I Hm).
Qed.

(** The state in which [connect] runs when the hook mounts or when the
    timeout fires. *)
Lemma connect_call_site E o e s s' ok :
  Inv s ->
  (e = Mount ok \/ exists id, e = TimerFire id ok) ->
  step E o e s = Some s' ->
  exists s1,
    s' = run_callback (connect E o ok) s1 /\
    Inv s1 /\ mounted s1 = true /\ reconnectTimerRef s1 = None /\
    timers s1 = [] /\
    (forall i k, wsRef s1 = Some i -> sockets s1 !! i = Some k ->
                 ws_readyState k = CLOSED) /\
    clock s1 = clock s /\ next_timer s1 = next_timer s /\
    sockets s1 = sockets s /\ wsRef s1 = wsRef s /\ emitted s1 = emitted s.
Proof.
  intros I He H. destruct He as [->|[id ->]]; cbn in H.
  - destruct (mounted s) eqn:Hm; [discriminate|]. inversion H; subst s'; clear H.
    destruct (inv_unmounted s I Hm) as [Hw Hr].
    pose proof (inv_timer s I) as Ht. rewrite Hr in Ht.
    exists (set_shouldConnectRef true (set_connectRef true (set_mounted true s))).
    split.
    { unfold run_callback. now rewrite mount_effects_eq. }
    split; [now apply Inv_mounting|]. cbn. rewrite Hw.
    repeat (split; [auto|]); auto. discriminate.
  - destruct (due_of id (timers s)) as [due|] eqn:Hd; [|discriminate].
    destruct (due <=? clock s)%N; [|discriminate]. inversion H; subst s'; clear H.
    destruct (Inv_due s id due I Hd) as [Hr Ht].
    rewrite Ht, filter_single_timer.
    pose proof (Inv_has_timer_mounted s I ltac:(congruence)) as Hm.
    destruct (inv_mounted s I Hm) as [_ Hcr].
    exists (set_reconnectTimerRef None (set_timers [] s)).
    split.
    { unfold run_callback. rewrite reconnect_callback_eq. cbn. now rewrite Hcr. }
    split; [now apply Inv_timer_cleared|]. cbn.
    repeat (split; [auto|]); auto.
    apply (inv_pending s I). congruence.
Qed.

(** C8.  When the constructor throws in [connect] (the hook is started and
    its current socket, if any, is not live), [connect] returns normally:
    the state variable has been set to CONNECTING, no socket has been
    constructed and the reference is unchanged, and exactly one timeout is
    pending.  Where the hook calls [connect] (when it mounts and when the
    timeout fires) no timeout is pending, so the one armed is due 5000 ms
    after the failure: whatever happens next, no timeout fires, and so no
    retry is made, before that time; and the timeout can fire once it has
    passed. *)
Theorem constructor_failure_schedules_reconnect
    (E : Env) (o : override) (es : list event) (s : Hook) :
  run E o es initial_hook = Some s ->
  (shouldConnectRef s = true -> current_live s = false ->
   exists s',
     connect E o false s = (Ok tt, s') /\
     readyState s' = CONNECTING /\
     emitted s' = StateChange CONNECTING :: emitted s /\
     sockets s' = sockets s /\ wsRef s' = wsRef s /\ uncaught s' = uncaught s /\
     (exists id due, timers s' = [(id, due)] /\ reconnectTimerRef s' = Some id) /\
     (reconnectTimerRef s = None ->
      timers s' = [(next_timer s, (clock s + 5000)%N)])) /\
  (forall e s',
     (e = Mount false \/ exists id, e = TimerFire id false) ->
     step E o e s = Some s' ->
     readyState s' = CONNECTING /\
     emitted s' = StateChange CONNECTING :: emitted s /\
     sockets s' = sockets s /\ wsRef s' = wsRef s /\ uncaught s' = [] /\
     reconnectTimerRef s' = Some (next_timer s) /\
     timers s' = [(next_timer s, (clock s + 5000)%N)] /\
     (forall es' s2 id ok s3,
        run E o es' s' = Some s2 ->
        step E o (TimerFire id ok) s2 = Some s3 ->
        (clock s + 5000 <= clock s2)%N) /\
     (forall ok,
        is_Some (run E o [Advance 5000; TimerFire (next_timer s) ok] s'))).
Proof.
  intros Hrun. pose proof (Inv_reachable E o es s Hrun) as I. split.
  - intros Hs Hl.
    destruct (connect_eq E o false s (inv_ws s I)) as (u & l & _ & Hc).
    rewrite Hs, Hl in Hc. cbn [andb negb attempted] in Hc.
    eexists. split; [exact Hc|].
    pose proof (inv_timer s I) as Ht.
    destruct (reconnectTimerRef s) as [id|] eqn:Hr.
    + rewrite rescheduled_idle; [|now apply Inv_emit_state|left; cbn; congruence].
      cbn. destruct Ht as (_ & due & Ht). repeat (split; [reflexivity|]).
      split; [eauto|]. discriminate.
    + rewrite rescheduled_arms by (cbn; assumption).
      cbn. rewrite Ht. repeat (split; [reflexivity|]).
      split; [eauto|]. intros _. reflexivity.
  - intros e s' He Hstep.
    pose proof (Inv_step E o e s s' I Hstep) as I'.
    destruct (connect_call_site E o e s s' false I He Hstep)
      as (s1 & -> & I1 & Hm & Hr & Ht & Hc & Hclk & Hnext & Hso & Hw & Hem).
    rewrite (run_callback_ok _ _ _ (failed_connect_call E o s1 I1 Hm Hr Hc)) in *.
    assert (Htm : timers (armed (emit_state CONNECTING s1))
                  = [(next_timer s, (clock s + 5000)%N)]).
    { cbn. unfold RECONNECT_MS. now rewrite Ht, Hclk, Hnext. }
    split; [reflexivity|].
    split; [cbn; now rewrite Hem|].
    split; [exact Hso|]. split; [exact Hw|].
    split; [apply (inv_uncaught _ I')|].
    split; [cbn; now rewrite Hnext|].
    split; [exact Htm|]. split.
    + intros es' s2 id ok s3 Hrun' Hfire.
      assert (Hd : due_after (clock s) (armed (emit_state CONNECTING s1))).
      { split; [cbn; lia|]. rewrite Htm. intros t Hin.
        apply list_elem_of_singleton in Hin. subst t. cbn.
        unfold RECONNECT_MS. lia. }
      destruct (due_after_run E o es' (clock s) _ s2 I' Hd Hrun') as [I2 Hd2].
      apply (fire_not_before E o id ok (clock s) s2 s3 I2 Hd2 Hfire).
    + intros ok. apply (run_advance_fire E o _ (clock s + 5000)%N); [exact Htm|].
      cbn. rewrite Hclk. lia.
Qed.

(** C8, at a hook whose first connect fails when it mounts. *)
Lemma constructor_failure_schedules_reconnect_witness :
  exists s',
    step sample_env (OverrideString WS_URL) (Mount false) initial_hook = Some s' /\
    readyState s' = CONNECTING /\
    timers s' = [(1%nat, 5000%N)] /\
    sockets s' = [] /\
    run sample_env (OverrideString WS_URL) [Advance 4999; TimerFire 1 true] s'
      = None.
Proof.
  destruct (step sample_env (OverrideString WS_URL) (Mount false) initial_hook)
    as [s'|] eqn:Hstep; [|vm_compute in Hstep; discriminate].
  destruct (constructor_failure_schedules_reconnect sample_env
              (OverrideString WS_URL) [] initial_hook eq_refl)
    as (_ & Hev).
  destruct (Hev (Mount false) s' (or_introl eq_refl) Hstep)
    as (Hr & _ & Hso & _ & _ & _ & Ht & Hno & _).
  exists s'. split; [reflexivity|]. split; [exact Hr|].
  split; [exact Ht|]. split; [exact Hso|].
  vm_compute in Hstep. inversion Hstep. vm_compute. reflexivity.
Defined.

(** ** After teardown *)

Lemma set_wsRef_None_id s : wsRef s = None -> set_wsRef None s = s.
Proof. destruct s; cbn. now intros ->. Qed.

Lemma cleaned_idle s :
  wsRef s = None -> reconnectTimerRef s = None -> cleaned s = s.
Proof.
  intros Hw Hr. unfold cleaned. rewrite Hw, Hr. cbn. now apply set_wsRef_None_id.
Qed.

(** While the hook is unmounted, an event other than mounting changes
    nothing the hook owns or shows. *)
Lemma dormant_step E o e s s' :
  Inv s -> mounted s = false -> not_mount e ->
  step E o e s = Some s' ->
  mounted s' = false /\ emitted s' = emitted s /\ liveData s' = liveData s /\
  readyState s' = readyState s /\ shouldConnectRef s' = shouldConnectRef s /\
  List.length (sockets s') = List.length (sockets s).
Proof.
  intros I Hm Hnm H.
  destruct (inv_unmounted s I Hm) as [Hw Hr].
  pose proof (inv_timer s I) as Ht. rewrite Hr in Ht.
  assert (Hq : forall j k, sockets s !! j = Some k -> quiet k).
  { intros j k Hk. apply (inv_stale s I j k Hk). congruence. }
  destruct e as [ok| |dt|id ok|i|i data|i|i]; cbn in H.
  - destruct Hnm.
  - rewrite Hm in H. discriminate.
  - inversion H; subst. cbn. auto 10.
  - rewrite Ht in H. discriminate.
  - destruct (sockets s !! i) as [k|] eqn:Hk; [|discriminate].
    destruct (Hq i k Hk) as [Hc|(Hc & _)]; rewrite Hc in H; discriminate.
  - destruct (sockets s !! i) as [k|] eqn:Hk; [|discriminate].
    destruct (Hq i k Hk) as [Hc|(Hc & _)]; rewrite Hc in H; discriminate.
  - destruct (sockets s !! i) as [k|] eqn:Hk; [|discriminate].
    destruct (Hq i k Hk) as [Hc|(Hc & _ & _ & He & _)]; rewrite Hc in H;
      [discriminate|].
    unfold dispatch in H. rewrite He in H. inversion H; subst. auto 10.
  - destruct (sockets s !! i) as [k|] eqn:Hk; [|discriminate].
    destruct (Hq i k Hk) as [Hc|(Hc & _ & _ & _ & He)]; rewrite Hc in H;
      [discriminate|].
    unfold dispatch in H. rewrite He in H. inversion H; subst. cbn.
    rewrite length_insert. auto 10.
Qed.

Lemma dormant_run E o es : forall s s',
  Inv s -> mounted s = false -> Forall not_mount es ->
  run E o es s = Some s' ->
  Inv s' /\ mounted s' = false /\ emitted s' = emitted s /\
  liveData s' = liveData s /\ readyState s' = readyState s /\
  shouldConnectRef s' = shouldConnectRef s /\
  List.length (sockets s') = List.length (sockets s).
Proof.
  induction es as [|e es IH]; intros s s' I Hm Hes H; cbn in H.
  - inversion H; subst. auto 10.
  - destruct (step E o e s) as [s1|] eqn:Hs; [|discriminate].
    inversion Hes as [|? ? He Hes']; subst.
    destruct (dormant_step E o e s s1 I Hm He Hs) as (Hm1 & He1 & Hl1 & Hr1 & Hs1 & Hn1).
    destruct (IH s1 s' (Inv_step E o e s s1 I Hs) Hm1 Hes' H)
      as (I' & Hm' & He' & Hl' & Hr' & Hs' & Hn').
    split; [exact I'|]. repeat split; congruence.
Qed.

(** C2.  Teardown of a mounted hook, in any state it has reached: the
    pending timeout, if any, is cancelled; the socket the hook holds loses
    its four handlers and, if it was connecting or open, is closed with
    code 1000; the reference is cleared; teardown sets no state and throws
    nothing.  From then on, whatever the transport reports and however much
    time passes, as long as the hook is not mounted again: neither setter
    is called, no timeout is pending or can fire, and no socket is
    constructed.  Running the cleanup again changes nothing, and cleaning up
    a hook that never connected is harmless. *)
Theorem teardown_is_final
    (E : Env) (o : override) (es : list event) (s : Hook) :
  run E o es initial_hook = Some s ->
  mounted s = true ->
  exists s1,
    step E o Unmount s = Some s1 /\
    (shouldConnectRef s1 = false /\ wsRef s1 = None /\
     reconnectTimerRef s1 = None /\ timers s1 = [] /\
     emitted s1 = emitted s /\ uncaught s1 = []) /\
    (forall i k, wsRef s = Some i -> sockets s !! i = Some k ->
       exists k',
         sockets s1 !! i = Some k' /\
         onopen k' = false /\ onmessage k' = false /\
         onerror k' = false /\ onclose k' = false /\
         is_live (ws_readyState k') = false /\
         (is_live (ws_readyState k) = true ->
            ws_readyState k' = CLOSING /\
            close_args k' = Some (Some (1000%N, "cleanup")))) /\
    (forall es' s2,
       Forall not_mount es' -> run E o es' s1 = Some s2 ->
       emitted s2 = emitted s1 /\ liveData s2 = liveData s1 /\
       readyState s2 = readyState s1 /\
       timers s2 = [] /\ reconnectTimerRef s2 = None /\ wsRef s2 = None /\
       List.length (sockets s2) = List.length (sockets s1) /\
       uncaught s2 = [] /\
       forall id ok, step E o (TimerFire id ok) s2 = None) /\
    unmount_cleanup s1 = (Ok tt, s1) /\
    cleanupSocket initial_hook = (Ok tt, initial_hook).
Proof.
  intros Hrun Hm. pose proof (Inv_reachable E o es s Hrun) as I.
  assert (Hstep : step E o Unmount s
                  = Some (cleaned (set_shouldConnectRef false (set_mounted false s)))).
  { cbn. rewrite Hm. now rewrite (run_callback_ok _ _ _ (unmount_cleanup_eq _)). }
  eexists. split; [exact Hstep|].
  pose proof (Inv_step E o Unmount s _ I Hstep) as I1.
  set (s1 := cleaned (set_shouldConnectRef false (set_mounted false s))) in *.
  assert (Hm1 : mounted s1 = false).
  { subst s1. unfold cleaned. cbn.
    destruct (wsRef s) as [i|]; [destruct (sockets s !! i)|];
      destruct (timer_truthy (reconnectTimerRef s)); reflexivity. }
  assert (Hs1 : shouldConnectRef s1 = false).
  { subst s1. unfold cleaned. cbn.
    destruct (wsRef s) as [i|]; [destruct (sockets s !! i)|];
      destruct (timer_truthy (reconnectTimerRef s)); reflexivity. }
  assert (He1 : emitted s1 = emitted s).
  { subst s1. unfold cleaned. cbn.
    destruct (wsRef s) as [i|]; [destruct (sockets s !! i)|];
      destruct (timer_truthy (reconnectTimerRef s)); reflexivity. }
  destruct (inv_unmounted s1 I1 Hm1) as [Hw1 Hr1].
  pose proof (inv_timer s1 I1) as Ht1. rewrite Hr1 in Ht1.
  split; [|split; [|split; [|split]]].
  - repeat split; auto. apply (inv_uncaught s1 I1).
  - intros i k Hw Hk. subst s1. unfold cleaned. cbn. rewrite Hw, Hk.
    exists (closing (Some (1000%N, "cleanup")) (stripped k)).
    split.
    { destruct (timer_truthy (reconnectTimerRef s)); cbn;
        now apply (lookup_insert_same _ _ k). }
    unfold closing. cbn.
    destruct (is_live (ws_readyState k)) eqn:Hl; cbn; rewrite ?Hl;
      repeat split; try reflexivity; discriminate.
  - intros es' s2 Hes Hrun2.
    destruct (dormant_run E o es' s1 s2 I1 Hm1 Hes Hrun2)
      as (I2 & Hm2 & He2 & Hl2 & Hrs2 & Hs2 & Hn2).
    destruct (inv_unmounted s2 I2 Hm2) as [Hw2 Hr2].
    pose proof (inv_timer s2 I2) as Ht2. rewrite Hr2 in Ht2.
    repeat (split; [assumption|]).
    split; [apply (inv_uncaught s2 I2)|].
    intros id ok. cbn. rewrite Ht2. reflexivity.
  - rewrite unmount_cleanup_eq. f_equal.
    rewrite cleaned_idle; cbn; auto.
    destruct s1; cbn in *; now subst.
  - rewrite cleanupSocket_eq. reflexivity.
Qed.

(** C2, at a hook torn down while its socket was open; afterwards the
    socket's close event arrives and time passes. *)
Lemma teardown_is_final_witness :
  exists s s1 s2,
    run sample_env (OverrideString WS_URL) [Mount true; SockOpen 0] initial_hook
      = Some s /\
    mounted s = true /\
    step sample_env (OverrideString WS_URL) Unmount s = Some s1 /\
    run sample_env (OverrideString WS_URL) [SockClose 0; Advance 6000] s1
      = Some s2 /\
    emitted s2 = emitted s1 /\ timers s2 = [].
Proof.
  destruct (run sample_env (OverrideString WS_URL) [Mount true; SockOpen 0]
              initial_hook) as [s|] eqn:Hrun; [|vm_compute in Hrun; discriminate].
  assert (Hm : mounted s = true).
  { vm_compute in Hrun. inversion Hrun. reflexivity. }
  destruct (teardown_is_final sample_env (OverrideString WS_URL)
              [Mount true; SockOpen 0] s Hrun Hm)
    as (s1 & Hstep & _ & _ & Hafter & _).
  destruct (run sample_env (OverrideString WS_URL) [SockClose 0; Advance 6000] s1)
    as [s2|] eqn:Hrun2.
  - exists s, s1, s2. split; [reflexivity|]. split; [exact Hm|].
    split; [exact Hstep|]. split; [exact Hrun2|].
    destruct (Hafter [SockClose 0; Advance 6000] s2) as (He & _ & _ & Ht & _).
    + repeat constructor.
    + exact Hrun2.
    + auto.
  - exfalso. vm_compute in Hrun. inversion Hrun; subst s.
    vm_compute in Hstep. inversion Hstep; subst s1.
    vm_compute in Hrun2. discriminate.
Defined.

(** C6.  A message whose payload [JSON.parse] rejects: the message handler
    hands the payload itself, unchanged, to [setLiveData] and returns
    normally (as it does for every payload); when the transport delivers
    such a message to an open socket with the handler installed, [liveData]
    becomes that payload and nothing is left uncaught.  The update effect,
    run on such a value, leaves snapshot, previous snapshot and history as
    they are. *)
Theorem malformed_payload_passes_through
    (E : Env) (o : override) (data : payload) (e : exn) :
  parse_payload E data = Throw e ->
  (forall s, onmessage_handler E data s = (Ok tt, emit_message (LRaw data) s)) /\
  (forall data' s, exists s', onmessage_handler E data' s = (Ok tt, s')) /\
  (forall s i k,
     sockets s !! i = Some k -> ws_readyState k = OPEN -> onmessage k = true ->
     exists s',
       step E o (SockMessage i data) s = Some s' /\
       liveData s' = LRaw data /\
       emitted s' = MessageDelivered (LRaw data) :: emitted s /\
       uncaught s' = uncaught s) /\
  (forall now app, update_effect now (LRaw data) app = Ok app).
Proof.
  intros Hp.
  assert (Hh : forall s, onmessage_handler E data s
                         = (Ok tt, emit_message (LRaw data) s)).
  { intros s. rewrite onmessage_handler_eq, Hp. reflexivity. }
  split; [exact Hh|]. split; [|split].
  - intros data' s. rewrite onmessage_handler_eq. eauto.
  - intros s i k Hk Hs Hm. eexists. split.
    + cbn. rewrite Hk, Hs. unfold dispatch. rewrite Hm.
      rewrite (run_callback_ok _ _ _ (Hh s)). reflexivity.
    + cbn. auto.
  - intros now app. apply update_effect_ignored.
    apply not_accepted_without_z. reflexivity.
Qed.

(** C6, at a text frame that is not JSON. *)
Lemma malformed_payload_passes_through_witness :
  onmessage_handler sample_env (Text "oops") initial_hook
    = (Ok tt, emit_message (LRaw (Text "oops")) initial_hook) /\
  update_effect "10:00:01" (LRaw (Text "oops")) initial_app = Ok initial_app.
Proof.
  destruct (malformed_payload_passes_through sample_env (OverrideString WS_URL)
              (Text "oops") SyntaxError eq_refl) as (Hh & _ & _ & Hu).
  split; [apply Hh | apply Hu].
Defined.

(* ================================================================== *)
(** * Further properties *)
(* ================================================================== *)

(** ** The alert and the z-score *)

Lemma member_accepts v name j : member v name = Some j -> live_truthy v = true.
Proof.
  destruct v as [|[]|]; cbn; try discriminate. reflexivity.
Qed.

Lemma accepts_z_score v j : member v "z_score" = Some j -> accepts v = true.
Proof.
  intros H. unfold accepts. rewrite (member_accepts v _ j H). cbn.
  apply bool_decide_eq_true. rewrite H. eauto.
Qed.

Lemma AlertIndicator_toFixed q :
  AlertIndicator (toFixed (Fin q) 2)
  = if num_gt (Math_abs (double_of (shown q 2))) (Fin 2)
    then {| alert_status := "SIGNAL ACTIVE (Z > 2.0)"; alert_color := "#ef4444" |}
    else {| alert_status := "NORMAL"; alert_color := "#10b981" |}.
Proof.
  unfold AlertIndicator. rewrite toFixed_not_dashes, parseFloat_toFixed.
  destruct (double_of (shown q 2)) as [| |w] eqn:E; try reflexivity.
  exfalso. exact (double_of_not_NaN _ E).
Qed.

Lemma AlertIndicator_Infinity b :
  AlertIndicator (toFixed (Inf b) 2)
  = {| alert_status := "SIGNAL ACTIVE (Z > 2.0)"; alert_color := "#ef4444" |}.
Proof. destruct b; reflexivity. Qed.

(** X1.  The alert after an update that carries a numeric [z_score]: the
    snapshot holds the number formatted with two decimals, and the alert
    reads that text back, so it is decided by the rounded value of the
    double.  It shows "SIGNAL ACTIVE" exactly when the double is an infinity
    or at least 2.005 in absolute value, "NORMAL" otherwise, and never
    "WAITING".  (A z-score written 2.004 or 2.005 is above the threshold
    2.0 and still shows "NORMAL": the double nearest to 2.005 is below
    it.) *)
Theorem alert_follows_rounded_z_score
    (now : string) (v : live_value) (q : Q) (s s' : App) :
  member v "z_score" = Some (JNum q) ->
  update_effect now v s = Ok s' ->
  z_score (analytics s') = toFixed (double_of q) 2 /\
  (alert_status (AlertIndicator (z_score (analytics s'))) = "SIGNAL ACTIVE (Z > 2.0)"
   <-> (exists b, double_of q = Inf b)
       \/ (exists x, double_of q = Fin x /\ (401 # 200 <= Qabs x)%Q)) /\
  (alert_status (AlertIndicator (z_score (analytics s'))) = "NORMAL"
   <-> exists x, double_of q = Fin x /\ (Qabs x < 401 # 200)%Q) /\
  alert_status (AlertIndicator (z_score (analytics s'))) <> "WAITING".
Proof.
  intros Hz H.
  apply update_effect_accepted in H as (na & Hna & ->);
    [|now apply (accepts_z_score v (JNum q))].
  apply newAnalytics_fields in Hna as (Hzs & _).
  rewrite Hz in Hzs. cbn in Hzs. inversion Hzs as [Hzs'].
  cbn [analytics]. rewrite <- Hzs'. split; [reflexivity|].
  destruct (double_of q) as [|b|x] eqn:E.
  - exfalso. exact (double_of_not_NaN q E).
  - rewrite AlertIndicator_Infinity. cbn [alert_status].
    split; [split; eauto|]. split; [|discriminate].
    split; [discriminate|]. intros (x & Hx & _). discriminate.
  - rewrite AlertIndicator_toFixed.
    pose proof (shown_above_two x) as Hr.
    destruct (num_gt (Math_abs (double_of (shown x 2))) (Fin 2)); cbn [alert_status].
    + assert (Hq : (401 # 200 <= Qabs x)%Q) by now apply Hr.
      split; [split; eauto|]. split; [|discriminate].
      split; [discriminate|]. intros (y & Hy & Hlt). exfalso.
      inversion Hy; subst y. apply (Qlt_not_le _ _ Hlt). exact Hq.
    + assert (Hq : ~ (401 # 200 <= Qabs x)%Q).
      { intros Hq. apply Hr in Hq. discriminate. }
      split.
      { split; [discriminate|].
        intros [[b Hb]|(y & Hy & Hle)]; [discriminate|].
        inversion Hy; subst y. contradiction. }
      split; [|discriminate].
      split; [|reflexivity]. intros _. exists x. split; [reflexivity|].
      now apply Qnot_le_lt.
Qed.

(** X1, at z-scores written 2.005, -2.0051 and 1e999. *)
Lemma alert_follows_rounded_z_score_witness :
  exists s1 s2 s3,
    update_effect "10:00:01" (LJson (JObj [("z_score", JNum (2005 # 1000))]))
      initial_app = Ok s1 /\
    z_score (analytics s1) = "2.00" /\
    alert_status (AlertIndicator (z_score (analytics s1))) = "NORMAL" /\
    update_effect "10:00:02" (LJson (JObj [("z_score", JNum (- 20051 # 10000))]))
      initial_app = Ok s2 /\
    alert_status (AlertIndicator (z_score (analytics s2))) = "SIGNAL ACTIVE (Z > 2.0)" /\
    update_effect "10:00:03" (LJson (JObj [("z_score", JNum (10 ^ 999))]))
      initial_app = Ok s3 /\
    alert_status (AlertIndicator (z_score (analytics s3))) = "SIGNAL ACTIVE (Z > 2.0)".
Proof.
  destruct (update_effect "10:00:01" (LJson (JObj [("z_score", JNum (2005 # 1000))]))
              initial_app) as [s1|] eqn:H1; [|vm_compute in H1; discriminate].
  destruct (update_effect "10:00:02" (LJson (JObj [("z_score", JNum (- 20051 # 10000))]))
              initial_app) as [s2|] eqn:H2; [|vm_compute in H2; discriminate].
  destruct (update_effect "10:00:03" (LJson (JObj [("z_score", JNum (10 ^ 999))]))
              initial_app) as [s3|] eqn:H3; [|vm_compute in H3; discriminate].
  exists s1, s2, s3.
  destruct (alert_follows_rounded_z_score "10:00:01"
              (LJson (JObj [("z_score", JNum (2005 # 1000))])) (2005 # 1000)
              initial_app s1 eq_refl H1) as (T1 & _ & N1 & _).
  destruct (alert_follows_rounded_z_score "10:00:02"
              (LJson (JObj [("z_score", JNum (- 20051 # 10000))])) (- 20051 # 10000)
              initial_app s2 eq_refl H2) as (_ & A2 & _).
  destruct (alert_follows_rounded_z_score "10:00:03"
              (LJson (JObj [("z_score", JNum (10 ^ 999))])) (10 ^ 999)%Q
              initial_app s3 eq_refl H3) as (_ & A3 & _).
  split; [reflexivity|]. split; [rewrite T1; vm_compute; reflexivity|].
  split.
  { apply N1. eexists. split; [vm_compute; reflexivity|]. vm_compute. reflexivity. }
  split; [reflexivity|]. split.
  { apply A2. right. eexists. split; [vm_compute; reflexivity|].
    vm_compute. discriminate. }
  split; [reflexivity|].
  apply A3. left. exists false. vm_compute. reflexivity.
Defined.

(** X2.  For every text the snapshot may hold as [z_score], the three
    places that look at it agree: the alert is red ("SIGNAL ACTIVE") exactly
    when the "Live Z-Score" box is red, and exactly when the earlier [App]
    highlights its price chart.  The alert shows "WAITING" exactly when
    [parseFloat] gives NaN: its separate test for "---" changes nothing. *)
Theorem alert_agrees_with_z_score_box (a : Analytics) :
  (alert_color (AlertIndicator (z_score a)) = "#ef4444"
   <-> z_score_color a = "#ef4444") /\
  (alert_status (AlertIndicator (z_score a)) = "SIGNAL ACTIVE (Z > 2.0)"
   <-> layout_highlight (z_score a) = true) /\
  (alert_status (AlertIndicator (z_score a)) = "WAITING"
   <-> parseFloat (z_score a) = NaN).
Proof.
  unfold AlertIndicator, z_score_color, layout_highlight.
  destruct (String.eqb_spec (z_score a) "---") as [He|He].
  - rewrite He. cbn. repeat split; try discriminate; reflexivity.
  - cbn [orb negb andb].
    destruct (parseFloat (z_score a)) as [|b|r]; cbn [Math_abs isNaN num_gt].
    + cbn. repeat split; try discriminate; reflexivity.
    + cbn. repeat split; try discriminate; reflexivity.
    + destruct (negb (Qle_bool (Qabs r) 2)); cbn;
        repeat split; try discriminate; try reflexivity.
Qed.


(** ** The two small charts *)

Lemma str_truthy_nonempty t : t <> EmptyString -> str_truthy t = true.
Proof. destruct t; [congruence|reflexivity]. Qed.

Lemma filter_initial_entries {A : Type} (f : A -> bool) (x : A) k l :
  f x = false -> Forall (fun y => f y = true) l ->
  List.filter f (replicate k x ++ l)%list = l.
Proof.
  intros Hx Hl. induction k as [|k IH]; cbn.
  - induction Hl as [|y l Hy Hl IH]; [reflexivity|]. cbn. rewrite Hy. now f_equal.
  - rewrite Hx. exact IH.
Qed.

Lemma shift_written {A : Type} (f : A -> bool) (x y : A) m l :
  (m <= 10)%nat -> List.length l = m -> Forall (fun z => f z = true) l ->
  f y = true ->
  exists l',
    (tail (replicate (10 - m) x ++ l) ++ [y])%list
    = (replicate (10 - Nat.min (S m) 10) x ++ l')%list /\
    List.length l' = Nat.min (S m) 10 /\ Forall (fun z => f z = true) l'.
Proof.
  intros Hm Hl Hf Hy.
  destruct (decide (m = 10%nat)) as [->|Hne].
  - exists (tail l ++ [y])%list. cbn [Nat.sub replicate app Nat.min].
    split; [reflexivity|]. split.
    + destruct l; [discriminate|]. cbn in *. rewrite length_app. cbn. lia.
    + apply Forall_app. split; [|now constructor].
      destruct Hf; [constructor|assumption].
  - exists (l ++ [y])%list.
    replace (10 - m)%nat with (S (9 - m)) by lia.
    replace (Nat.min (S m) 10) with (S m) by lia.
    replace (10 - S m)%nat with (9 - m)%nat by lia.
    cbn [replicate app tail]. rewrite <- app_assoc.
    split; [reflexivity|]. split.
    + rewrite length_app. cbn. lia.
    + apply Forall_app. split; [assumption|now constructor].
Qed.

Lemma written_initial : written 0 initial_history.
Proof.
  split; [lia|]. exists [], []. cbn. repeat split; constructor.
Qed.

Lemma written_updateHistory m P now cur h :
  str_truthy now = true -> written m h ->
  written (Nat.min (S m) 10) (updateHistory P now cur h).
Proof.
  intros Hnow (Hm & ts & hs & Ht & Hlt & Hft & Hh & Hlh & Hfh & Hv).
  split; [lia|].
  destruct (shift_written str_truthy EmptyString now m ts Hm Hlt Hft Hnow)
    as (ts' & Et & Hlt' & Hft').
  destruct (shift_written not_null None (Some (hedge_ratio cur)) m hs Hm Hlh Hfh eq_refl)
    as (hs' & Eh & Hlh' & Hfh').
  exists ts', hs'. unfold updateHistory. cbn [timestamps hedgeRatio spreadVelocity].
  rewrite Ht, Hh, Et, Eh. repeat (split; [auto|]).
  now apply (shift_length _ _ 9%nat).
Qed.

Lemma written_feed ups : forall m s s',
  Forall (fun u => u.1 <> EmptyString) ups ->
  written m (history s) -> feed ups s = Ok s' ->
  written (Nat.min (m + accepted ups) 10) (history s').
Proof.
  induction ups as [|[now v] ups IH]; intros m s s' Hups Hw H; cbn in H.
  - inversion H; subst. unfold accepted. cbn.
    pose proof (proj1 Hw) as Hm. replace (Nat.min (m + 0) 10) with m by lia.
    assumption.
  - inversion Hups as [|? ? Hnow Hups']; subst. cbn in Hnow.
    destruct (update_effect now v s) as [s1|] eqn:H1; [|discriminate].
    cbn in H. unfold accepted. cbn [List.filter snd].
    destruct (accepts v) eqn:Ha.
    + apply update_effect_accepted in H1 as (na & _ & ->); [|assumption].
      pose proof (written_updateHistory m (prevAnalytics s) now na (history s)
                    (str_truthy_nonempty now Hnow) Hw) as Hw1.
      pose proof (fun W => IH (Nat.min (S m) 10) _ s' Hups' W H) as Hw'.
      cbn [history] in Hw'. specialize (Hw' Hw1).
      unfold accepted in Hw'. cbn [List.length].
      pose proof (proj1 Hw) as Hm.
      replace (Nat.min (m + S (List.length (List.filter (fun u => accepts u.2) ups))) 10)
        with (Nat.min (Nat.min (S m) 10
                + List.length (List.filter (fun u => accepts u.2) ups)) 10) by lia.
      exact Hw'.
    + rewrite update_effect_ignored in H1 by assumption. inversion H1; subst s1.
      exact (IH _ _ s' Hups' Hw H).
Qed.

Lemma written_series m h :
  written m h ->
  List.length (List.filter str_truthy (timestamps h)) = m /\
  List.length (List.filter not_null (hedgeRatio h)) = m /\
  List.filter not_null (hedgeRatio h) = drop (10 - m) (hedgeRatio h) /\
  List.length (spreadVelocity h) = 10%nat.
Proof.
  intros (Hm & ts & hs & Ht & Hlt & Hft & Hh & Hlh & Hfh & Hv).
  rewrite Ht, Hh, !filter_initial_entries by (assumption || reflexivity).
  repeat split; try assumption.
  rewrite drop_app_length'; [reflexivity|]. now rewrite length_replicate.
Qed.

(** X3.  The hedge-ratio chart.  After any sequence of effect runs from the
    initial state (the clock never gives an empty time text), the chart's x
    series (the non-empty times) and y series (the non-null hedge ratios)
    have the same length: the number of accepted updates, at most ten; and
    the y series is exactly the newest entries of the history.  So every
    point plotted has its own time. *)
Theorem hedge_chart_series_aligned
    (ups : list (string * live_value)) (s : App) :
  Forall (fun u => u.1 <> EmptyString) ups ->
  feed ups initial_app = Ok s ->
  let chart := renderHedgeRatioChart (history s) in
  List.length (hedge_x chart) = Nat.min (accepted ups) 10 /\
  List.length (hedge_y chart) = Nat.min (accepted ups) 10 /\
  hedge_y chart = drop (10 - Nat.min (accepted ups) 10) (hedgeRatio (history s)).
Proof.
  intros Hups Hfeed.
  pose proof (written_feed ups 0 initial_app s Hups written_initial Hfeed) as Hw.
  cbn [Nat.add] in Hw.
  destruct (written_series _ _ Hw) as (Hx & Hy & Hd & _).
  cbn. auto.
Qed.

(** X3, at the four updates of the scenario. *)
Lemma hedge_chart_series_aligned_witness :
  exists s, feed scenario_updates initial_app = Ok s /\
    List.length (hedge_x (renderHedgeRatioChart (history s))) = 4%nat /\
    List.length (hedge_y (renderHedgeRatioChart (history s))) = 4%nat.
Proof.
  destruct (feed scenario_updates initial_app) as [s|] eqn:Hfeed;
    [|vm_compute in Hfeed; discriminate].
  exists s. split; [reflexivity|].
  destruct (hedge_chart_series_aligned scenario_updates s) as (Hx & Hy & _).
  - repeat constructor; discriminate.
  - exact Hfeed.
  - split; [exact Hx|exact Hy].
Defined.

(** X4.  The spread-velocity chart.  Its y series is the whole velocity
    history, always ten bars with ten colours, while its x series holds only
    the non-empty times: the number of accepted updates, at most ten.  Until
    ten updates have been accepted the chart is handed fewer x values than
    bars.  A bar is green exactly when its velocity is a number that is not
    negative ([Infinity] included); a NaN velocity gives a red bar. *)
Theorem velocity_chart_series
    (ups : list (string * live_value)) (s : App) :
  Forall (fun u => u.1 <> EmptyString) ups ->
  feed ups initial_app = Ok s ->
  let chart := renderSpreadVelocityChart (history s) in
  List.length (velocity_y chart) = 10%nat /\
  List.length (velocity_color chart) = 10%nat /\
  List.length (velocity_x chart) = Nat.min (accepted ups) 10 /\
  ((accepted ups < 10)%nat ->
     (List.length (velocity_x chart) < List.length (velocity_y chart))%nat) /\
  (forall i v, velocity_y chart !! i = Some v ->
     exists c, velocity_color chart !! i = Some c /\
       (c = "#10b981"
        <-> (exists q, v = Fin q /\ (0 <= q)%Q) \/ v = Inf false) /\
       (v = NaN -> c = "#ef4444")).
Proof.
  intros Hups Hfeed.
  pose proof (written_feed ups 0 initial_app s Hups written_initial Hfeed) as Hw.
  cbn [Nat.add] in Hw.
  destruct (written_series _ _ Hw) as (Hx & _ & _ & Hv).
  cbn. rewrite length_map, Hx, Hv.
  split; [reflexivity|]. split; [reflexivity|]. split; [reflexivity|].
  split; [lia|].
  intros i v Hi. rewrite list_lookup_fmap, Hi. cbn. eexists. split; [reflexivity|].
  destruct v as [|[]|q]; cbn.
  - split; [|reflexivity]. split; [discriminate|].
    intros [(q & Hq & _)|Hq]; discriminate.
  - split; [|discriminate]. split; [discriminate|].
    intros [(q & Hq & _)|Hq]; discriminate.
  - split; [|discriminate]. split; [intros _; now right|reflexivity].
  - split; [|discriminate].
    destruct (Qle_bool 0 q) eqn:Hq.
    + split; [|reflexivity]. intros _. left. exists q. split; [reflexivity|].
      now apply Qle_bool_iff.
    + split; [discriminate|].
      intros [(q' & Hq' & Hle)|Hq']; [|discriminate]. inversion Hq'; subst q'.
      apply Qle_bool_iff in Hle. congruence.
Qed.

(** X4, at the four updates of the scenario: ten bars over four times. *)
Lemma velocity_chart_series_witness :
  exists s, feed scenario_updates initial_app = Ok s /\
    List.length (velocity_y (renderSpreadVelocityChart (history s))) = 10%nat /\
    List.length (velocity_x (renderSpreadVelocityChart (history s))) = 4%nat.
Proof.
  destruct (feed scenario_updates initial_app) as [s|] eqn:Hfeed;
    [|vm_compute in Hfeed; discriminate].
  exists s. split; [reflexivity|].
  destruct (velocity_chart_series scenario_updates s) as (Hy & _ & Hx & _).
  - repeat constructor; discriminate.
  - exact Hfeed.
  - split; [exact Hy|exact Hx].
Defined.


(** ** The snapshot under repeated effect runs *)

Lemma value_or_held_truthy f held :
  json_truthy held = true -> json_truthy (value_or_held f held) = true.
Proof.
  intros H. unfold value_or_held. destruct f as [j|]; [|exact H].
  destruct (json_truthy j) eqn:Hj; assumption.
Qed.

Lemma value_or_held_idem f held :
  value_or_held f (value_or_held f held) = value_or_held f held.
Proof.
  unfold value_or_held. destruct f as [j|]; [|reflexivity].
  destruct (json_truthy j) eqn:Hj; rewrite ?Hj; reflexivity.
Qed.

Lemma fixed_or_held_idem f d held r :
  fixed_or_held f d held = Ok r -> fixed_or_held f d r = Ok r.
Proof. destruct f as [j|]; cbn; [auto|congruence]. Qed.

Lemma newAnalytics_idem v a na :
  newAnalytics v a = Ok na -> newAnalytics v na = Ok na.
Proof.
  intros H. apply newAnalytics_fields in H as (Hz & Hh & Hl & Hs & Hp).
  unfold newAnalytics.
  rewrite (fixed_or_held_idem _ _ _ _ Hz), (fixed_or_held_idem _ _ _ _ Hh),
    (fixed_or_held_idem _ _ _ _ Hl).
  cbn. rewrite Hs, Hp, !value_or_held_idem. rewrite <- Hs, <- Hp.
  now destruct na.
Qed.

(** X5.  Two of the snapshot's fields can never become falsy.  An update
    replaces [symbol_pair] or [pie_summary] only by a truthy value (a
    missing, null, empty or zero value keeps the held one), so after any
    sequence of effect runs from the initial state both are truthy, and the
    pie chart never falls back to its "Waiting ..." placeholder. *)
Theorem pie_summary_stays_truthy
    (ups : list (string * live_value)) (s : App) :
  feed ups initial_app = Ok s ->
  json_truthy (pie_summary (analytics s)) = true /\
  json_truthy (symbol_pair (analytics s)) = true /\
  pie_placeholder (analytics s) = false.
Proof.
  intros Hfeed.
  assert (H : forall ups s0 s1,
            json_truthy (pie_summary (analytics s0)) = true /\
            json_truthy (symbol_pair (analytics s0)) = true ->
            feed ups s0 = Ok s1 ->
            json_truthy (pie_summary (analytics s1)) = true /\
            json_truthy (symbol_pair (analytics s1)) = true).
  { clear. induction ups as [|[now v] ups IH]; intros s0 s1 H0 H; cbn in H.
    - now inversion H; subst.
    - destruct (update_effect now v s0) as [s'|] eqn:H1; [|discriminate].
      cbn in H. apply (IH s' s1); [|exact H]. clear IH H.
      destruct (accepts v) eqn:Ha.
      + apply update_effect_accepted in H1 as (na & Hna & ->); [|assumption].
        apply newAnalytics_fields in Hna as (_ & _ & _ & Hs & Hp).
        cbn. rewrite Hs, Hp. destruct H0 as [Hpie Hsym].
        split; now apply value_or_held_truthy.
      + rewrite update_effect_ignored in H1 by assumption. now inversion H1; subst. }
  destruct (H ups initial_app s (conj eq_refl eq_refl) Hfeed) as [Hp Hs].
  unfold pie_placeholder. rewrite Hp. auto.
Qed.

(** X5, at an update whose [pie_summary] is null. *)
Lemma pie_summary_stays_truthy_witness :
  exists s,
    feed [("10:00:01",
           LJson (JObj [("z_score", JNum 1); ("pie_summary", JNull)]))]
      initial_app = Ok s /\
    pie_placeholder (analytics s) = false /\
    pie_summary (analytics s) = pie_summary initial_analytics.
Proof.
  destruct (feed [("10:00:01",
              LJson (JObj [("z_score", JNum 1); ("pie_summary", JNull)]))]
              initial_app) as [s|] eqn:Hfeed; [|vm_compute in Hfeed; discriminate].
  exists s. split; [reflexivity|].
  destruct (pie_summary_stays_truthy _ s Hfeed) as (_ & _ & Hp).
  split; [exact Hp|]. vm_compute in Hfeed. inversion Hfeed. reflexivity.
Defined.

(** X6.  Handling the same message again does not change the snapshot: a
    second run of the effect on the [liveData] of the first computes the
    same five fields (the effect lists [analytics] among its dependencies
    and sets it, so React does run it again).  What the second run does
    change: the previous snapshot becomes equal to the snapshot, so the
    values before the message are gone, and the history receives one more
    entry. *)
Theorem snapshot_idempotent_under_rerun
    (now1 now2 : string) (v : live_value) (s s1 : App) :
  accepts v = true ->
  update_effect now1 v s = Ok s1 ->
  exists s2,
    update_effect now2 v s1 = Ok s2 /\
    analytics s2 = analytics s1 /\
    prevAnalytics s2 = analytics s2 /\
    history s2 = updateHistory (analytics s) now2 (analytics s1) (history s1).
Proof.
  intros Ha H1.
  apply update_effect_accepted in H1 as (na & Hna & ->); [|assumption].
  unfold update_effect. rewrite Ha. cbn [analytics prevAnalytics history].
  rewrite (newAnalytics_idem v _ na Hna). cbn.
  eexists. split; [reflexivity|]. cbn. auto.
Qed.

(** X6, at the first update of the scenario. *)
Lemma snapshot_idempotent_under_rerun_witness :
  exists s1 s2,
    update_effect "10:00:01" (metric_update 0 1 10) initial_app = Ok s1 /\
    update_effect "10:00:01" (metric_update 0 1 10) s1 = Ok s2 /\
    analytics s2 = analytics s1 /\ prevAnalytics s2 = analytics s2.
Proof.
  destruct (update_effect "10:00:01" (metric_update 0 1 10) initial_app)
    as [s1|] eqn:H1; [|vm_compute in H1; discriminate].
  destruct (snapshot_idempotent_under_rerun "10:00:01" "10:00:01"
              (metric_update 0 1 10) initial_app s1 eq_refl H1)
    as (s2 & H2 & Ha & Hp & _).
  exists s1, s2. auto.
Defined.








(** ** The connection manager: the reaction to each event *)

Lemma connect_at_call_site E o ok u l s :
  AppJsx.getUrl o (window E) = Ok (u, l) ->
  Inv s -> mounted s = true -> current_live s = false ->
  connect E o ok s = (Ok tt, attempted u ok s).
Proof.
  intros Hu I Hm Hl.
  destruct (connect_eq E o ok s (inv_ws s I)) as (u' & l' & Hu' & ->).
  rewrite Hu in Hu'. inversion Hu'; subst u' l'.
  destruct (inv_mounted s I Hm) as [-> _]. now rewrite Hl.
Qed.

Lemma current_live_None s : wsRef s = None -> current_live s = false.
Proof. unfold current_live. now intros ->. Qed.

Lemma step_reaction E o u l e s s' :
  AppJsx.getUrl o (window E) = Ok (u, l) ->
  Inv s -> Wired s -> step E o e s = Some s' -> reaction E u s e s'.
Proof.
  intros Hu I W H. destruct e as [ok| |dt|id ok|i|i data|i|i]; cbn in H.
  - (* Mount *)
    destruct (mounted s) eqn:Hm; [discriminate|]. inversion H; subst s'; clear H.
    destruct (inv_unmounted s I Hm) as [Hw Hr].
    pose proof (inv_timer s I) as Ht. rewrite Hr in Ht.
    rewrite (run_callback_ok _ _
               (attempted u ok
                  (set_shouldConnectRef true
                     (set_connectRef true (set_mounted true s))))).
    + now constructor.
    + rewrite mount_effects_eq.
      apply (connect_at_call_site E o ok u l); auto.
      * now apply Inv_mounting.
      * now apply current_live_None.
  - (* Unmount *)
    destruct (mounted s) eqn:Hm; [|discriminate]. inversion H; subst s'; clear H.
    rewrite (run_callback_ok _ _ _ (unmount_cleanup_eq _)). now constructor.
  - (* Advance *)
    inversion H; subst. constructor.
  - (* TimerFire *)
    destruct (due_of id (timers s)) as [due|] eqn:Hd; [|discriminate].
    destruct (due <=? clock s)%N eqn:Hle; [|discriminate].
    inversion H; subst s'; clear H. apply N.leb_le in Hle.
    destruct (Inv_due s id due I Hd) as [Hr Ht].
    rewrite Ht, filter_single_timer.
    pose proof (Inv_has_timer_mounted s I ltac:(congruence)) as Hm.
    destruct (inv_mounted s I Hm) as [_ Hcr].
    assert (Hl : current_live s = false).
    { apply current_live_closed. apply (inv_pending s I). congruence. }
    rewrite (run_callback_ok _ _
               (attempted u ok (set_reconnectTimerRef None (set_timers [] s)))).
    + now apply (on_timer E u s id ok due).
    + rewrite reconnect_callback_eq. cbn. rewrite Hcr.
      apply (connect_at_call_site E o ok u l); auto.
      now apply Inv_timer_cleared.
  - (* SockOpen *)
    destruct (sockets s !! i) as [k|] eqn:Hk; [|discriminate].
    destruct (ws_readyState k) eqn:Hs; try discriminate.
    inversion H; subst s'; clear H.
    destruct (Inv_reporting s i k I Hk ltac:(congruence)) as [Hw|(Hc & _)];
      [|congruence].
    destruct (W i k Hw Hk) as (Ho & _).
    unfold dispatch. rewrite Ho.
    rewrite (run_callback_ok _ _ _ (onopen_handler_eq _)).
    apply (on_open E u s i k); auto.
    destruct (reconnectTimerRef s) eqn:Hr; [|reflexivity].
    pose proof (inv_pending s I ltac:(congruence) i k Hw Hk). congruence.
  - (* SockMessage *)
    destruct (sockets s !! i) as [k|] eqn:Hk; [|discriminate].
    destruct (ws_readyState k) eqn:Hs; try discriminate.
    inversion H; subst s'; clear H.
    destruct (Inv_reporting s i k I Hk ltac:(congruence)) as [Hw|(Hc & _)];
      [|congruence].
    destruct (W i k Hw Hk) as (_ & Ho & _).
    unfold dispatch. rewrite Ho.
    rewrite (run_callback_ok _ _ _ (onmessage_handler_eq E data s)).
    fold (delivered E data).
    replace (match parse_payload E data with
             | Ok j => emit_message (LJson j) s
             | Throw _ => emit_message (LRaw data) s
             end) with (emit_message (delivered E data) s)
      by (unfold delivered; now destruct (parse_payload E data)).
    now apply (on_message E u s i k).
  - (* SockError *)
    destruct (sockets s !! i) as [k|] eqn:Hk; [|discriminate].
    assert (Hnc : ws_readyState k <> CLOSED).
    { destruct (ws_readyState k); try discriminate; congruence. }
    assert (Hs' : s' = dispatch onerror k onerror_handler s).
    { destruct (ws_readyState k); try discriminate; now inversion H. }
    clear H. subst s'.
    destruct (Inv_reporting s i k I Hk Hnc) as [Hw|(Hc & _ & _ & He & _)].
    + destruct (W i k Hw Hk) as (_ & _ & Ho & _).
      unfold dispatch. rewrite Ho.
      rewrite (run_callback_ok _ _ _ (onerror_handler_eq s)).
      apply (on_error E u s i k); auto.
      destruct (reconnectTimerRef s) eqn:Hr; [|reflexivity].
      pose proof (inv_pending s I ltac:(congruence) i k Hw Hk). congruence.
    + unfold dispatch. rewrite He.
      destruct (decide (wsRef s = Some i)) as [Hw|Hw].
      * destruct (W i k Hw Hk) as (_ & _ & Ho & _). congruence.
      * now apply (on_stale_error E u s i k).
  - (* SockClose *)
    destruct (sockets s !! i) as [k|] eqn:Hk; [|discriminate].
    assert (Hnc : ws_readyState k <> CLOSED).
    { destruct (ws_readyState k); try discriminate; congruence. }
    assert (Hs' : s' = dispatch onclose k onclose_handler
                    (set_sockets (<[i := set_ws_readyState CLOSED k]> (sockets s)) s)).
    { destruct (ws_readyState k); try discriminate; now inversion H. }
    clear H. subst s'.
    destruct (Inv_reporting s i k I Hk Hnc) as [Hw|(Hc & _ & _ & _ & He)].
    + destruct (W i k Hw Hk) as (_ & _ & _ & Ho).
      unfold dispatch. rewrite Ho.
      rewrite (run_callback_ok _ _ _ (onclose_handler_eq _)).
      assert (Hr : reconnectTimerRef s = None).
      { destruct (reconnectTimerRef s) eqn:Hr; [|reflexivity].
        pose proof (inv_pending s I ltac:(congruence) i k Hw Hk). congruence. }
      rewrite rescheduled_arms.
      * now apply (on_close E u s i k).
      * cbn. pose proof (Inv_has_current_mounted s i I Hw) as Hm.
        now destruct (inv_mounted s I Hm).
      * exact Hr.
    + unfold dispatch. rewrite He.
      destruct (decide (wsRef s = Some i)) as [Hw|Hw].
      * destruct (W i k Hw Hk) as (_ & _ & _ & Ho). congruence.
      * now apply (on_stale_close E u s i k).
Qed.


Lemma Wired_ext s s' :
  wsRef s' = wsRef s -> sockets s' = sockets s -> Wired s -> Wired s'.
Proof. unfold Wired. now intros -> ->. Qed.

Lemma Wired_set_socket s i k k' :
  sockets s !! i = Some k ->
  (wsRef s = Some i ->
   onopen k' = onopen k /\ onmessage k' = onmessage k /\
   onerror k' = onerror k /\ onclose k' = onclose k) ->
  Wired s -> Wired (set_sockets (<[i := k']> (sockets s)) s).
Proof.
  intros Hk Hh W j k0 Hw Hk0. cbn in Hw, Hk0.
  destruct (decide (j = i)) as [->|Hne].
  - rewrite (lookup_insert_same _ _ k) in Hk0 by assumption.
    inversion Hk0; subst k0. destruct (Hh Hw) as (-> & -> & -> & ->).
    now apply (W i k).
  - rewrite list_lookup_insert_ne in Hk0 by congruence. now apply (W j k0).
Qed.

Lemma Wired_connected u s : Wired (connected u s).
Proof.
  intros i k Hw Hk. cbn in Hw, Hk. inversion Hw; subst i.
  rewrite lookup_app_r in Hk by lia. rewrite Nat.sub_diag in Hk.
  inversion Hk. cbn. auto.
Qed.

Lemma Wired_rescheduled s : Wired s -> Wired (rescheduled s).
Proof.
  unfold rescheduled.
  destruct (shouldConnectRef s && negb (timer_truthy (reconnectTimerRef s)));
    [|auto].
  now apply Wired_ext.
Qed.

Lemma Wired_attempted u ok s : Wired s -> Wired (attempted u ok s).
Proof.
  intros W. unfold attempted. destruct ok; [apply Wired_connected|].
  apply Wired_rescheduled. now apply (Wired_ext s).
Qed.

Lemma wsRef_cleaned s : wsRef (cleaned s) = None.
Proof. reflexivity. Qed.

Lemma Wired_errored s : Wired s -> Wired (errored s).
Proof.
  intros W. unfold errored.
  destruct (wsRef s) as [i|] eqn:Hw; [|now apply (Wired_ext s)].
  destruct (sockets s !! i) as [k|] eqn:Hk; [|now apply (Wired_ext s)].
  destruct (is_live (ws_readyState k)) eqn:Hl; [|now apply (Wired_ext s)].
  apply (Wired_ext (set_sockets (<[i := closing None k]> (sockets s)) s));
    [reflexivity|reflexivity|].
  apply (Wired_set_socket s i k); auto.
  intros _. unfold closing. now destruct (is_live (ws_readyState k)).
Qed.

Lemma Wired_reaction E u e s s' : Wired s -> reaction E u s e s' -> Wired s'.
Proof.
  intros W R. destruct R.
  - apply Wired_attempted. now apply (Wired_ext s).
  - intros i k Hw. rewrite wsRef_cleaned in Hw. discriminate.
  - now apply (Wired_ext s).
  - apply Wired_attempted. now apply (Wired_ext s).
  - apply (Wired_ext (set_sockets (<[i := set_ws_readyState OPEN k]> (sockets s)) s));
      [reflexivity|reflexivity|].
    apply (Wired_set_socket s i k); auto.
  - now apply (Wired_ext s).
  - now apply Wired_errored.
  - exact W.
  - apply (Wired_ext (set_sockets (<[i := set_ws_readyState CLOSED k]> (sockets s)) s));
      [reflexivity|reflexivity|].
    apply (Wired_set_socket s i k); auto.
  - apply (Wired_set_socket s i k); auto; intros Hw; contradiction.
Qed.

Lemma Wired_initial : Wired initial_hook.
Proof. intros i k Hw. discriminate. Qed.

(** An invariant of the reactions holds in every state the hook reaches. *)
Lemma run_invariant E o u l (P : Hook -> Prop) :
  AppJsx.getUrl o (window E) = Ok (u, l) ->
  (forall s e s', Inv s -> Wired s -> P s -> reaction E u s e s' -> P s') ->
  forall es s s',
    Inv s -> Wired s -> P s -> run E o es s = Some s' ->
    Inv s' /\ Wired s' /\ P s'.
Proof.
  intros Hu Hstep. induction es as [|e es IH]; intros s s' I W HP H; cbn in H.
  - inversion H; subst. auto.
  - destruct (step E o e s) as [s1|] eqn:Hs; [|discriminate].
    pose proof (step_reaction E o u l e s s1 Hu I W Hs) as R.
    apply (IH s1 s'); auto.
    + eapply Inv_step; eassumption.
    + eapply Wired_reaction; eassumption.
    + eapply Hstep; eassumption.
Qed.

Lemma reachable_wired E o es s : run E o es initial_hook = Some s -> Inv s /\ Wired s.
Proof.
  intros H. destruct (AppJsx_getUrl_total o (window E)) as (u & l & Hu).
  destruct (run_invariant E o u l (fun _ => True) Hu (fun _ _ _ _ _ _ _ => I)
              es initial_hook s Inv_initial Wired_initial I H) as (? & ? & _).
  auto.
Qed.


(** Fields of the states the reactions lead to. *)
Ltac field_of_state :=
  unfold attempted, connected, rescheduled, armed, errored, cleaned, emit_state,
    emit_message;
  repeat match goal with
         | |- context [match ?x with _ => _ end] => destruct x
         end;
  reflexivity.

Lemma liveData_attempted u ok s : liveData (attempted u ok s) = liveData s.
Proof. field_of_state. Qed.

Lemma liveData_cleaned s : liveData (cleaned s) = liveData s.
Proof. field_of_state. Qed.

Lemma liveData_errored s : liveData (errored s) = liveData s.
Proof. field_of_state. Qed.

Lemma mounted_attempted u ok s : mounted (attempted u ok s) = mounted s.
Proof. field_of_state. Qed.

Lemma mounted_cleaned s : mounted (cleaned s) = mounted s.
Proof. field_of_state. Qed.

Lemma mounted_errored s : mounted (errored s) = mounted s.
Proof. field_of_state. Qed.

Lemma readyState_cleaned s : readyState (cleaned s) = readyState s.
Proof. field_of_state. Qed.

Lemma emitted_cleaned s : emitted (cleaned s) = emitted s.
Proof. field_of_state. Qed.

Lemma readyState_attempted u ok s : readyState (attempted u ok s) = CONNECTING.
Proof. field_of_state. Qed.

Lemma emitted_attempted u ok s :
  emitted (attempted u ok s) = StateChange CONNECTING :: emitted s.
Proof. field_of_state. Qed.

Lemma lookup_insert_cases {A : Type} (l : list A) i j x y z :
  l !! i = Some x -> <[i := y]> l !! j = Some z ->
  (j = i /\ z = y) \/ (j <> i /\ l !! j = Some z).
Proof.
  intros Hi Hj. destruct (decide (j = i)) as [->|Hne].
  - rewrite (lookup_insert_same _ _ x) in Hj by assumption. inversion Hj. auto.
  - rewrite list_lookup_insert_ne in Hj by congruence. auto.
Qed.

(** A property of sockets that the reactions keep: it holds of a new socket
    and is not affected by a change of state, handlers or close
    arguments. *)
Lemma sockets_reaction E u e s s' (Q : Socket -> Prop) :
  Q (wired (fresh_socket u)) ->
  (forall k r, Q k -> Q (set_ws_readyState r k)) ->
  (forall k a, Q k -> Q (closing a k)) ->
  (forall k, Q k -> Q (stripped k)) ->
  reaction E u s e s' ->
  (forall j k, sockets s !! j = Some k -> Q k) ->
  forall j k, sockets s' !! j = Some k -> Q k.
Proof.
  intros Qnew Qstate Qclosing Qstripped R HQ.
  assert (Hatt : forall ok s0, sockets s0 = sockets s ->
            forall j k, sockets (attempted u ok s0) !! j = Some k -> Q k).
  { intros ok s0 Hs0 j k. unfold attempted, rescheduled.
    destruct ok; cbn.
    - rewrite Hs0. intros Hk.
      destruct (decide (j < List.length (sockets s))%nat) as [Hlt|Hge].
      + rewrite lookup_app_l in Hk by assumption. eauto.
      + rewrite lookup_app_r in Hk by lia.
        destruct (j - List.length (sockets s))%nat; cbn in Hk; [|discriminate].
        now inversion Hk.
    - destruct (shouldConnectRef s0 && _); cbn; rewrite Hs0; eauto. }
  destruct R; try (now apply (Hatt ok)); try exact HQ.
  - (* unmount *)
    intros j k0. unfold cleaned. cbn.
    destruct (wsRef s) as [i|]; [destruct (sockets s !! i) as [k|] eqn:Hk|];
      destruct (timer_truthy (reconnectTimerRef s)); cbn; eauto;
      intros Hj; destruct (lookup_insert_cases _ _ _ _ _ _ Hk Hj) as [[-> ->]|[_ Hj']];
      eauto.
  - (* open *)
    intros j k0 Hj. cbn in Hj.
    destruct (lookup_insert_cases _ _ _ _ _ _ H0 Hj) as [[-> ->]|[_ Hj']]; eauto.
  - (* error *)
    intros j k0. unfold errored. rewrite H, H0.
    destruct (is_live (ws_readyState k)); cbn; eauto.
    intros Hj.
    destruct (lookup_insert_cases _ _ _ _ _ _ H0 Hj) as [[-> ->]|[_ Hj']]; eauto.
  - (* close *)
    intros j k0 Hj. cbn in Hj.
    destruct (lookup_insert_cases _ _ _ _ _ _ H0 Hj) as [[-> ->]|[_ Hj']]; eauto.
  - (* stale close *)
    intros j k0 Hj. cbn in Hj.
    destruct (lookup_insert_cases _ _ _ _ _ _ H0 Hj) as [[-> ->]|[_ Hj']]; eauto.
Qed.

(** ** The hook of hooks/useWebSocket.js follows the hook of App.jsx *)

Lemma mirrors_ret {A : Type} (a : A) : mirrors (mret a) (mret a).
Proof. intros s. reflexivity. Qed.

Lemma mirrors_bind {A B : Type} (m m' : M A) (f f' : A -> M B) :
  mirrors m m' -> (forall a, mirrors (f a) (f' a)) ->
  mirrors (m ≫= f) (m' ≫= f').
Proof.
  intros Hm Hf s. unfold mbind, M_bind. rewrite (Hm s).
  destruct (m s) as [[a|e] s1]; cbn; [apply Hf|reflexivity].
Qed.

Lemma mirrors_gets {A : Type} (f : Hook -> A) :
  (forall s, f (without_readyState s) = f s) -> mirrors (gets f) (gets f).
Proof. intros Hf s. unfold gets. cbn. now rewrite Hf. Qed.

Lemma mirrors_modify (g : Hook -> Hook) :
  (forall s, g (without_readyState s) = without_readyState (g s)) ->
  mirrors (modify g) (modify g).
Proof. intros Hg s. unfold modify. cbn. now rewrite Hg. Qed.

Lemma mirrors_lift {A : Type} (r : outcome A) : mirrors (lift r) (lift r).
Proof. intros s. reflexivity. Qed.

Lemma mirrors_lift_bind {A B : Type} (r r' : outcome A) (a a' : A) (f f' : A -> M B) :
  r = Ok a -> r' = Ok a' -> mirrors (f a) (f' a') ->
  mirrors (lift r ≫= f) (lift r' ≫= f').
Proof. intros -> -> H s. exact (H s). Qed.

Lemma mirrors_throw {A : Type} (e : exn) : mirrors (@throw A e) (throw e).
Proof. intros s. reflexivity. Qed.

Lemma mirrors_try_catch {A : Type} (m m' : M A) (h h' : exn -> M A) :
  mirrors m m' -> (forall e, mirrors (h e) (h' e)) ->
  mirrors (try_catch m h) (try_catch m' h').
Proof.
  intros Hm Hh s. unfold try_catch. rewrite (Hm s).
  destruct (m s) as [[a|e] s1]; cbn; [reflexivity|apply Hh].
Qed.

Lemma mirrors_try_finally {A : Type} (m m' : M A) (f f' : M unit) :
  mirrors m m' -> mirrors f f' ->
  mirrors (try_finally m f) (try_finally m' f').
Proof.
  intros Hm Hf s. unfold try_finally. rewrite (Hm s).
  destruct (m s) as [r s1]; cbn. rewrite (Hf s1).
  destruct (f s1) as [[a|e] s2]; reflexivity.
Qed.

Lemma mirrors_if {A : Type} (b : bool) (m1 m1' m2 m2' : M A) :
  mirrors m1 m1' -> mirrors m2 m2' ->
  mirrors (if b then m1 else m2) (if b then m1' else m2').
Proof. now destruct b. Qed.

Lemma mirrors_setReadyState r : mirrors (setReadyState r) (mret tt).
Proof. intros s. reflexivity. Qed.

Lemma mirrors_setLiveData v : mirrors (setLiveData v) (setLiveData v).
Proof. intros s. reflexivity. Qed.

Lemma mirrors_setTimeout d : mirrors (setTimeout d) (setTimeout d).
Proof. intros s. reflexivity. Qed.

Lemma mirrors_clearTimeout id : mirrors (clearTimeout id) (clearTimeout id).
Proof. intros s. reflexivity. Qed.

Lemma mirrors_new_WebSocket ok u : mirrors (new_WebSocket ok u) (new_WebSocket ok u).
Proof. intros s. unfold new_WebSocket. destruct ok; reflexivity. Qed.

Lemma mirrors_socket_at i : mirrors (socket_at i) (socket_at i).
Proof.
  intros s. unfold socket_at. cbn. destruct (sockets s !! i); reflexivity.
Qed.

Lemma mirrors_update_socket i f : mirrors (update_socket i f) (update_socket i f).
Proof.
  apply mirrors_bind; [apply mirrors_socket_at|].
  intros k. now apply mirrors_modify.
Qed.

Lemma mirrors_ws_close i args : mirrors (ws_close i args) (ws_close i args).
Proof.
  apply mirrors_bind; [apply mirrors_socket_at|].
  intros k. apply mirrors_if; [apply mirrors_update_socket|apply mirrors_ret].
Qed.

Lemma mirrors_current_socket : mirrors current_socket current_socket.
Proof.
  apply mirrors_bind; [now apply mirrors_gets|].
  intros [i|]; [apply mirrors_ret|apply mirrors_throw].
Qed.

Lemma mirrors_scheduleReconnect : mirrors scheduleReconnect scheduleReconnect.
Proof.
  apply mirrors_bind; [now apply mirrors_gets|]. intros sc.
  apply mirrors_if; [apply mirrors_ret|].
  apply mirrors_bind; [now apply mirrors_gets|]. intros t.
  apply mirrors_if; [apply mirrors_ret|].
  apply mirrors_bind; [apply mirrors_setTimeout|]. intros id.
  now apply mirrors_modify.
Qed.

Lemma mirrors_cleanupSocket : mirrors cleanupSocket cleanupSocket.
Proof.
  apply mirrors_try_finally; [|now apply mirrors_modify].
  apply mirrors_try_catch; [|intros e; apply mirrors_ret].
  apply mirrors_bind; [now apply mirrors_gets|]. intros t.
  apply mirrors_bind.
  { apply mirrors_if; [|apply mirrors_ret].
    apply mirrors_bind; [apply mirrors_clearTimeout|]. intros _.
    now apply mirrors_modify. }
  intros _. apply mirrors_bind; [now apply mirrors_gets|].
  intros [i|]; [|apply mirrors_ret].
  do 4 (apply mirrors_bind; [apply mirrors_update_socket|]; intros _).
  apply mirrors_bind; [apply mirrors_socket_at|]. intros k.
  apply mirrors_if; [apply mirrors_ws_close|apply mirrors_ret].
Qed.

Lemma mirrors_onmessage E data :
  mirrors (onmessage_handler E data) (onmessage_handler E data).
Proof.
  apply mirrors_try_catch; [|intros e; apply mirrors_setLiveData].
  apply mirrors_bind; [apply mirrors_lift|]. intros j. apply mirrors_setLiveData.
Qed.

Lemma mirrors_step_ret {A : Type} (m : M unit) (n n' : M A) :
  mirrors m (mret tt) -> mirrors n n' -> mirrors (m ;; n) n'.
Proof.
  intros Hm Hn s. unfold mbind, M_bind.
  pose proof (Hm s) as H.
  destruct (m s) as [[[]|e] s1].
  - change ((Ok tt, without_readyState s) = (Ok tt, without_readyState s1)) in H.
    apply (f_equal snd) in H. cbn [snd] in H. rewrite H. apply Hn.
  - cbn in H. discriminate.
Qed.

Lemma mirrors_onopen : mirrors onopen_handler HookFile.onopen_handler.
Proof. apply mirrors_setReadyState. Qed.

Lemma mirrors_onerror : mirrors onerror_handler HookFile.onerror_handler.
Proof.
  apply mirrors_step_ret; [apply mirrors_setReadyState|].
  apply mirrors_try_catch; [|intros e; apply mirrors_ret].
  apply mirrors_bind; [apply mirrors_current_socket|].
  intros i. apply mirrors_ws_close.
Qed.

Lemma mirrors_onclose : mirrors onclose_handler HookFile.onclose_handler.
Proof.
  apply mirrors_step_ret; [apply mirrors_setReadyState|].
  apply mirrors_scheduleReconnect.
Qed.

Lemma mirrors_connect E o o' ok :
  same_url (AppJsx.getUrl o (window E)) (getUrl o' (window E)) ->
  mirrors (connect E o ok) (HookFile.connect E o' ok).
Proof.
  intros (url & l & l' & Hu & Hu').
  apply mirrors_bind; [now apply mirrors_gets|]. intros sc.
  apply mirrors_if; [apply mirrors_ret|].
  apply mirrors_bind; [now apply mirrors_gets|]. intros w.
  apply mirrors_bind.
  { destruct w as [i|]; [|apply mirrors_ret].
    apply mirrors_bind; [apply mirrors_socket_at|]. intros k. apply mirrors_ret. }
  intros duplicate. apply mirrors_if; [apply mirrors_ret|].
  rewrite Hu, Hu'.
  apply (mirrors_lift_bind _ _ (url, l) (url, l') _ _ eq_refl eq_refl).
  apply mirrors_step_ret; [apply mirrors_setReadyState|].
  apply mirrors_bind.
  { apply mirrors_try_catch.
    - apply mirrors_bind; [apply mirrors_new_WebSocket|]. intros i.
      apply mirrors_bind; [now apply mirrors_modify|]. intros _. apply mirrors_ret.
    - intros e. apply mirrors_bind; [apply mirrors_scheduleReconnect|].
      intros _. apply mirrors_ret. }
  intros constructed. apply mirrors_if; [apply mirrors_ret|].
  do 3 (apply mirrors_bind;
        [apply mirrors_bind; [apply mirrors_current_socket|];
         intros i; apply mirrors_update_socket|]; intros _).
  apply mirrors_bind; [apply mirrors_current_socket|].
  intros i. apply mirrors_update_socket.
Qed.

Lemma mirrors_reconnect_callback E o o' ok :
  same_url (AppJsx.getUrl o (window E)) (getUrl o' (window E)) ->
  mirrors (reconnect_callback E o ok) (HookFile.reconnect_callback E o' ok).
Proof.
  intros Hu.
  apply mirrors_bind; [now apply mirrors_modify|]. intros _.
  apply mirrors_bind; [now apply mirrors_gets|]. intros c.
  apply mirrors_if; [now apply mirrors_connect|apply mirrors_ret].
Qed.

Lemma mirrors_mount_effects E o o' ok :
  same_url (AppJsx.getUrl o (window E)) (getUrl o' (window E)) ->
  mirrors (mount_effects E o ok) (HookFile.mount_effects E o' ok).
Proof.
  intros Hu.
  apply mirrors_bind; [now apply mirrors_modify|]. intros _.
  apply mirrors_bind; [now apply mirrors_modify|]. intros _.
  now apply mirrors_connect.
Qed.

Lemma mirrors_unmount_cleanup : mirrors unmount_cleanup HookFile.unmount_cleanup.
Proof.
  apply mirrors_bind; [now apply mirrors_modify|]. intros _.
  apply mirrors_cleanupSocket.
Qed.

Lemma mirrors_run_callback (c c' : M unit) s :
  mirrors c c' ->
  run_callback c' (without_readyState s) = without_readyState (run_callback c s).
Proof.
  intros Hc. unfold run_callback. rewrite (Hc s).
  destruct (c s) as [[a|e] s1]; reflexivity.
Qed.

Lemma mirrors_dispatch slot k (c c' : M unit) s :
  mirrors c c' ->
  dispatch slot k c' (without_readyState s)
  = without_readyState (dispatch slot k c s).
Proof.
  intros Hc. unfold dispatch. destruct (slot k); [|reflexivity].
  now apply mirrors_run_callback.
Qed.

Lemma mirrors_step E o o' e s :
  same_url (AppJsx.getUrl o (window E)) (getUrl o' (window E)) ->
  HookFile.step E o' e (without_readyState s)
  = without_readyState <$> step E o e s.
Proof.
  intros Hu.
  destruct e as [ok| |dt|id ok|i|i data|i|i]; unfold HookFile.step, step;
    cbn [timers sockets mounted clock without_readyState set_readyState set_emitted].
  - destruct (mounted s); [reflexivity|]. cbn. f_equal.
    apply (mirrors_run_callback _ _ (set_mounted true s)), mirrors_mount_effects, Hu.
  - destruct (mounted s); [|reflexivity]. cbn. f_equal.
    apply (mirrors_run_callback _ _ (set_mounted false s)), mirrors_unmount_cleanup.
  - reflexivity.
  - destruct (due_of id (timers s)) as [due|]; [|reflexivity].
    destruct (due <=? clock s)%N; [|reflexivity]. cbn. f_equal.
    apply (mirrors_run_callback _ _
             (set_timers (filter (fun t => t.1 ≠ id) (timers s)) s)),
      mirrors_reconnect_callback, Hu.
  - destruct (sockets s !! i) as [k|]; [|reflexivity].
    destruct (ws_readyState k); try reflexivity. cbn. f_equal.
    apply (mirrors_dispatch onopen k _ _
             (set_sockets (<[i := set_ws_readyState OPEN k]> (sockets s)) s)),
      mirrors_onopen.
  - destruct (sockets s !! i) as [k|]; [|reflexivity].
    destruct (ws_readyState k); try reflexivity. cbn. f_equal.
    apply mirrors_dispatch, mirrors_onmessage.
  - destruct (sockets s !! i) as [k|]; [|reflexivity].
    destruct (ws_readyState k); try reflexivity; cbn; f_equal;
      apply mirrors_dispatch, mirrors_onerror.
  - destruct (sockets s !! i) as [k|]; [|reflexivity].
    destruct (ws_readyState k); try reflexivity; cbn; f_equal;
      apply (mirrors_dispatch onclose k _ _
               (set_sockets (<[i := set_ws_readyState CLOSED k]> (sockets s)) s)),
        mirrors_onclose.
Qed.

Lemma mirrors_run E o o' es :
  same_url (AppJsx.getUrl o (window E)) (getUrl o' (window E)) ->
  forall s,
    HookFile.run E o' es (without_readyState s)
    = without_readyState <$> run E o es s.
Proof.
  intros Hu. induction es as [|e es IH]; intros s; cbn; [reflexivity|].
  rewrite (mirrors_step E o o') by exact Hu.
  destruct (step E o e s) as [s1|]; cbn; [apply IH|reflexivity].
Qed.

(** The URL the hook file resolves is not empty, so it can be handed to
    the hook of App.jsx as its argument. *)
Lemma getUrl_nonempty o w u l :
  getUrl o w = Ok (u, l) -> (0 <? String.length u)%nat = true.
Proof.
  assert (Hb : buildDefaultUrl w = Ok (u, l) -> (0 <? String.length u)%nat = true).
  { destruct w as [win|]; cbn.
    - unfold url_from_window, the_location.
      destruct (opt_truthy (__WS_URL__ win)) eqn:Hg.
      + cbn. intros H. inversion H; subst.
        destruct (__WS_URL__ win) as [[|c t]|]; try discriminate. reflexivity.
      + destruct (location win) as [loc|]; cbn; intros H; inversion H; subst;
          [|reflexivity].
        destruct (String.eqb (protocol loc) "https:"); reflexivity.
    - intros H. inversion H. reflexivity. }
  destruct o as [|t]; [exact Hb|]. unfold getUrl.
  destruct (0 <? String.length t)%nat eqn:Ht; [|exact Hb].
  intros H. inversion H; subst. exact Ht.
Qed.

Lemma same_url_resolved o w u l :
  getUrl o w = Ok (u, l) -> same_url (AppJsx.getUrl (OverrideString u) w) (getUrl o w).
Proof.
  intros H. exists u, [], l. split; [|exact H].
  unfold AppJsx.getUrl. now rewrite (getUrl_nonempty o w u l H).
Qed.

Lemma AppJsx_getUrl_without_globals o w :
  AppJsx.getUrl o w = getUrl o (without_globals <$> w).
Proof.
  assert (Hb : forall w0, AppJsx.buildDefaultUrl w0
                          = buildDefaultUrl (without_globals <$> w0)).
  { intros [win|]; [|reflexivity]. cbn.
    unfold AppJsx.url_from_window, url_from_window, the_location. cbn.
    destruct (location win); reflexivity. }
  destruct o as [|s]; unfold AppJsx.getUrl, getUrl; [apply Hb|].
  destruct (0 <? String.length s)%nat; [reflexivity|apply Hb].
Qed.

(** Where the hook file does not look at the globals, the two [getUrl]
    agree: with a non-empty override, and on a window that sets neither
    global. *)
Lemma same_url_plain o w :
  (exists t, o = OverrideString t /\ t <> EmptyString) \/
  (forall win, w = Some win ->
     opt_truthy (__WS_URL__ win) = false /\ opt_truthy (__WS_PORT__ win) = false) ->
  same_url (AppJsx.getUrl o w) (getUrl o w).
Proof.
  intros [(t & -> & Ht)|Hw].
  - exists t, [], []. unfold AppJsx.getUrl, getUrl.
    destruct t; [congruence|]. split; reflexivity.
  - assert (E : AppJsx.getUrl o w = getUrl o w).
    { rewrite AppJsx_getUrl_without_globals. destruct w as [win|]; [|reflexivity].
      destruct (Hw win eq_refl) as [Hu Hp].
      assert (Hbw : buildDefaultUrl (without_globals <$> Some win)
                    = buildDefaultUrl (Some win)).
      { cbn. unfold url_from_window. cbn. now rewrite Hu, Hp. }
      destruct o as [|s]; unfold getUrl; [exact Hbw|].
      destruct (0 <? String.length s)%nat; [reflexivity|exact Hbw]. }
    destruct (AppJsx_getUrl_total o w) as (u & l & Hu).
    exists u, l, l. split; [exact Hu|]. now rewrite <- E.
Qed.

(** X8.  Every socket a hook ever constructs is constructed for the URL
    its [getUrl] resolves, and keeps it: the [getUrl] of App.jsx for the
    hook of App.jsx, the [getUrl] of hooks/useWebSocket.js for the hook of
    that file.  [App] passes a non-empty URL to the hook, so in App.jsx
    every socket goes to [ws://localhost:8000/ws/live-analytics], whatever
    the window is: the [buildDefaultUrl] of App.jsx is never consulted. *)
Theorem every_socket_uses_resolved_url (E : Env) (es : list event) (s : Hook) :
  (forall o u l,
     AppJsx.getUrl o (window E) = Ok (u, l) ->
     run E o es initial_hook = Some s ->
     forall j k, sockets s !! j = Some k -> ws_url k = u) /\
  (forall o u l,
     getUrl o (window E) = Ok (u, l) ->
     HookFile.run E o es initial_hook = Some s ->
     forall j k, sockets s !! j = Some k -> ws_url k = u) /\
  (run E (OverrideString WS_URL) es initial_hook = Some s ->
   forall j k, sockets s !! j = Some k ->
     ws_url k = "ws://localhost:8000/ws/live-analytics").
Proof.
  assert (H : forall s0 o u l,
     AppJsx.getUrl o (window E) = Ok (u, l) ->
     run E o es initial_hook = Some s0 ->
     forall j k, sockets s0 !! j = Some k -> ws_url k = u).
  { intros s0 o u l Hu Hrun.
    destruct (run_invariant E o u l
                (fun s => forall j k, sockets s !! j = Some k -> ws_url k = u) Hu)
      with (es := es) (s := initial_hook) (s' := s0) as (_ & _ & HP);
      auto using Inv_initial, Wired_initial.
    - intros s1 e s2 _ _ HP R.
      apply (sockets_reaction E u e s1 s2 (fun k => ws_url k = u)); auto.
      intros k a Hk. unfold closing. now destruct (is_live _).
    - intros j k Hk. discriminate. }
  split; [exact (H s)|]. split.
  - intros o u l Hu Hrun.
    pose proof (mirrors_run E (OverrideString u) o es
                  (same_url_resolved o _ u l Hu) initial_hook) as Hm.
    change (without_readyState initial_hook) with initial_hook in Hm.
    rewrite Hrun in Hm.
    destruct (run E (OverrideString u) es initial_hook) as [s0|] eqn:Hrun0;
      [|discriminate].
    cbn in Hm. inversion Hm; subst s.
    apply (H s0 (OverrideString u) u []); [|exact Hrun0].
    unfold AppJsx.getUrl. now rewrite (getUrl_nonempty o _ u l Hu).
  - intros Hrun.
    apply (H s (OverrideString WS_URL) WS_URL []); [reflexivity|exact Hrun].
Qed.

(** X8, at a hook of App.jsx that has reconnected once after a close, and
    at the hook of hooks/useWebSocket.js on a page that sets the URL
    global. *)
Lemma every_socket_uses_resolved_url_witness :
  exists s s',
    run sample_env (OverrideString WS_URL)
      [Mount true; SockOpen 0; SockClose 0; Advance 5000; TimerFire 1 true]
      initial_hook = Some s /\
    List.length (sockets s) = 2%nat /\
    (forall j k, sockets s !! j = Some k ->
       ws_url k = "ws://localhost:8000/ws/live-analytics") /\
    HookFile.run configured_env NotAString [Mount true] initial_hook = Some s' /\
    List.length (sockets s') = 1%nat /\
    (forall j k, sockets s' !! j = Some k -> ws_url k = "ws://feed.example/live").
Proof.
  destruct (run sample_env (OverrideString WS_URL)
              [Mount true; SockOpen 0; SockClose 0; Advance 5000; TimerFire 1 true]
              initial_hook) as [s|] eqn:Hrun; [|vm_compute in Hrun; discriminate].
  destruct (HookFile.run configured_env NotAString [Mount true] initial_hook)
    as [s'|] eqn:Hrun'; [|vm_compute in Hrun'; discriminate].
  exists s, s'. split; [reflexivity|]. split.
  { vm_compute in Hrun. inversion Hrun. reflexivity. }
  split.
  { exact (proj2 (proj2 (every_socket_uses_resolved_url sample_env _ s)) Hrun). }
  split; [reflexivity|]. split.
  { vm_compute in Hrun'. inversion Hrun'. reflexivity. }
  exact (proj1 (proj2 (every_socket_uses_resolved_url configured_env _ s'))
           NotAString "ws://feed.example/live" [] eq_refl Hrun').
Defined.


(** ** What the state variable [readyState] says *)

Lemma current_state_connected u s : current_state (connected u s) = Some CONNECTING.
Proof.
  unfold current_state. cbn. rewrite lookup_app_r by lia.
  now rewrite Nat.sub_diag.
Qed.

Lemma current_state_ext s s' :
  wsRef s' = wsRef s -> sockets s' = sockets s -> current_state s' = current_state s.
Proof. unfold current_state. now intros -> ->. Qed.

Lemma current_state_set_current s i k k' :
  wsRef s = Some i -> sockets s !! i = Some k ->
  current_state (set_sockets (<[i := k']> (sockets s)) s) = Some (ws_readyState k').
Proof.
  intros Hw Hk. unfold current_state. cbn. rewrite Hw.
  now rewrite (lookup_insert_same _ _ k).
Qed.

Lemma current_state_set_other s i k' :
  wsRef s <> Some i ->
  current_state (set_sockets (<[i := k']> (sockets s)) s) = current_state s.
Proof.
  intros Hw. unfold current_state. cbn.
  destruct (wsRef s) as [j|]; [|reflexivity].
  rewrite list_lookup_insert_ne by congruence. reflexivity.
Qed.

Lemma reported_attempted u ok s :
  shouldConnectRef s = true -> reconnectTimerRef s = None ->
  reported (attempted u ok s).
Proof.
  intros Hs Hr. unfold reported. rewrite readyState_attempted.
  unfold attempted. destruct ok.
  - left. apply current_state_connected.
  - right. rewrite rescheduled_arms by (cbn; assumption). cbn. discriminate.
Qed.

Lemma reported_reaction E u e s s' :
  Inv s -> (mounted s = true -> reported s) ->
  reaction E u s e s' -> mounted s' = true -> reported s'.
Proof.
  intros I HP R. destruct R; intros Hm'.
  - apply reported_attempted; [reflexivity|assumption].
  - rewrite mounted_cleaned in Hm'. discriminate.
  - apply HP in Hm'. exact Hm'.
  - apply reported_attempted; [|reflexivity]. cbn.
    now destruct (inv_mounted s I H).
  - unfold reported. cbn [readyState emit_state set_emitted set_readyState].
    rewrite (current_state_ext (set_sockets (<[i := set_ws_readyState OPEN k]> (sockets s)) s) _)
      by reflexivity.
    now rewrite (current_state_set_current s i k).
  - apply HP in Hm'. exact Hm'.
  - pose proof (inv_unsent s I i k H0) as Hu.
    unfold reported, errored. rewrite H, H0.
    destruct (is_live (ws_readyState k)) eqn:Hl; cbn [readyState emit_state
      set_emitted set_readyState set_sockets].
    + left.
      rewrite (current_state_ext (set_sockets (<[i := closing None k]> (sockets s)) s) _)
        by reflexivity.
      rewrite (current_state_set_current s i k) by assumption.
      unfold closing. now rewrite Hl.
    + left. rewrite (current_state_ext s _) by reflexivity.
      unfold current_state. rewrite H, H0. cbn.
      destruct (ws_readyState k); cbn in Hl; congruence.
  - apply HP in Hm'. exact Hm'.
  - unfold reported. cbn [readyState armed emit_state set_emitted set_readyState
      set_reconnectTimerRef set_next_timer set_timers].
    right.
    rewrite (current_state_ext (set_sockets (<[i := set_ws_readyState CLOSED k]> (sockets s)) s) _)
      by reflexivity.
    now rewrite (current_state_set_current s i k).
  - cbn in Hm'. apply HP in Hm'. unfold reported in *. cbn [readyState set_sockets].
    rewrite (current_state_set_other s i) by assumption. exact Hm'.
Qed.

Lemma sockets_cleaned_nil s : sockets s = [] -> sockets (cleaned s) = [].
Proof.
  intros Hs. unfold cleaned. destruct (wsRef s) as [i|].
  - rewrite Hs, lookup_nil. destruct (timer_truthy _); exact Hs.
  - destruct (timer_truthy _); exact Hs.
Qed.

(** The values the state variable takes. *)
Lemma shown_reaction E u e s s' :
  (readyState s <> CLOSING /\
   (readyState s = UNSENT -> sockets s = [] /\ emitted s = [])) ->
  reaction E u s e s' ->
  readyState s' <> CLOSING /\
  (readyState s' = UNSENT -> sockets s' = [] /\ emitted s' = []).
Proof.
  intros [Hc Hu] R. destruct R.
  - rewrite readyState_attempted. split; discriminate.
  - rewrite readyState_cleaned, emitted_cleaned.
    cbn [readyState emitted set_shouldConnectRef set_mounted].
    split; [exact Hc|].
    intros Hun. destruct (Hu Hun) as [Hs He]. split; [|exact He].
    now apply sockets_cleaned_nil.
  - auto.
  - rewrite readyState_attempted. split; discriminate.
  - cbn. split; discriminate.
  - cbn. split; [exact Hc|]. intros Hun. destruct (Hu Hun) as [Hs _].
    rewrite Hs in H0. discriminate.
  - unfold errored. rewrite H, H0.
    destruct (is_live (ws_readyState k)); cbn; split; discriminate.
  - auto.
  - cbn. split; discriminate.
  - cbn. split; [exact Hc|]. intros Hun. destruct (Hu Hun) as [Hs _].
    rewrite Hs in H0. discriminate.
Qed.

Lemma reported_reachable E o es s :
  run E o es initial_hook = Some s ->
  Inv s /\
  (mounted s = true -> reported s) /\
  readyState s <> CLOSING /\
  (readyState s = UNSENT -> sockets s = [] /\ emitted s = []).
Proof.
  intros Hrun. destruct (AppJsx_getUrl_total o (window E)) as (u & l & Hu).
  destruct (run_invariant E o u l
              (fun s => (mounted s = true -> reported s) /\
                        readyState s <> CLOSING /\
                        (readyState s = UNSENT -> sockets s = [] /\ emitted s = []))
              Hu)
    with (es := es) (s := initial_hook) (s' := s) as (I & _ & HP);
    auto using Inv_initial, Wired_initial.
  - intros s0 e s1 I0 _ [HP Hsh] R. split.
    + now apply (reported_reaction E u e s0 s1).
    + now apply (shown_reaction E u e s0 s1).
  - cbn. split; [discriminate|]. split; [discriminate|auto].
Qed.

(** X9.  The connection badge in the header.  While the hook is mounted
    the badge is one of "Connecting", "Live" and "Closed", and it says
    "Live" exactly when the socket the hook holds is open; "Connecting"
    means that socket is connecting or a retry is pending, "Closed" that it
    is closing or closed.  In no reachable state, mounted or not, does the
    badge say "Closing" or "Unknown"; it says "Init" only while no socket
    has been constructed and no state has been reported.  The dot and the
    text of the badge always get the same, defined, colour name. *)
Theorem badge_shows_connection
    (E : Env) (o : override) (es : list event) (s : Hook) :
  run E o es initial_hook = Some s ->
  (mounted s = true ->
     (badge_label (badge (readyState s)) = "Live" <-> current_state s = Some OPEN) /\
     (badge_label (badge (readyState s)) = "Connecting" ->
        current_state s = Some CONNECTING \/ reconnectTimerRef s <> None) /\
     (badge_label (badge (readyState s)) = "Closed" ->
        current_state s = Some CLOSING \/ current_state s = Some CLOSED) /\
     (badge_label (badge (readyState s)) = "Connecting" \/
      badge_label (badge (readyState s)) = "Live" \/
      badge_label (badge (readyState s)) = "Closed")) /\
  badge_label (badge (readyState s)) <> "Closing" /\
  badge_label (badge (readyState s)) <> "Unknown" /\
  (badge_label (badge (readyState s)) = "Init" ->
     sockets s = [] /\ emitted s = []) /\
  badge_dot (badge (readyState s)) = badge_text (badge (readyState s)) /\
  is_Some (badge_dot (badge (readyState s))).
Proof.
  intros Hrun.
  destruct (reported_reachable E o es s Hrun) as (I & HP & Hc & Hu).
  split.
  - intros Hm. specialize (HP Hm). unfold reported in HP.
    assert (Hpend : reconnectTimerRef s <> None -> current_state s <> Some OPEN).
    { intros Hr Hcur. unfold current_state in Hcur.
      destruct (wsRef s) as [i|] eqn:Hw; [|discriminate].
      destruct (sockets s !! i) as [k|] eqn:Hk; [|discriminate].
      pose proof (inv_pending s I Hr i k Hw Hk) as Hcl. cbn in Hcur. congruence. }
    destruct (readyState s) eqn:Hr; cbn; try contradiction.
    + split; [split; [discriminate|]|].
      * intros Hcur. destruct HP as [HP|HP]; [congruence|]. now apply Hpend in HP.
      * split; [auto|]. split; [discriminate|auto].
    + split; [split; auto|]. split; [discriminate|]. split; [discriminate|auto].
    + split; [split; [discriminate|]|].
      * intros Hcur. destruct HP as [HP|HP]; congruence.
      * split; [discriminate|]. split; auto.
  - destruct (readyState s) eqn:Hr; cbn;
      (split; [first [discriminate | congruence]|]);
      (split; [discriminate|]);
      (split; [first [discriminate | intros _; now apply Hu]|]);
      (split; [reflexivity|eauto]).
Qed.

(** X9, at a hook whose socket has opened, and at one whose first connect
    failed. *)
Lemma badge_shows_connection_witness :
  exists s1 s2,
    run sample_env (OverrideString WS_URL) [Mount true; SockOpen 0] initial_hook
      = Some s1 /\
    badge_label (badge (readyState s1)) = "Live" /\
    run sample_env (OverrideString WS_URL) [Mount false] initial_hook = Some s2 /\
    badge_label (badge (readyState s2)) = "Connecting" /\
    current_state s2 = None.
Proof.
  destruct (run sample_env (OverrideString WS_URL) [Mount true; SockOpen 0]
              initial_hook) as [s1|] eqn:H1; [|vm_compute in H1; discriminate].
  destruct (run sample_env (OverrideString WS_URL) [Mount false] initial_hook)
    as [s2|] eqn:H2; [|vm_compute in H2; discriminate].
  exists s1, s2. split; [reflexivity|].
  destruct (badge_shows_connection sample_env _ _ s1 H1) as (Hm & _).
  assert (M1 : mounted s1 = true) by (vm_compute in H1; now inversion H1).
  destruct (Hm M1) as (Hlive & _).
  split; [apply Hlive; vm_compute in H1; inversion H1; reflexivity|].
  split; [reflexivity|].
  vm_compute in H2. inversion H2. split; reflexivity.
Defined.


(** ** Recovery after a close, errors, and the messages *)

Lemma close_current E o u l s s1 i :
  AppJsx.getUrl o (window E) = Ok (u, l) -> Inv s -> Wired s ->
  wsRef s = Some i -> step E o (SockClose i) s = Some s1 ->
  exists k,
    sockets s !! i = Some k /\ ws_readyState k <> CLOSED /\
    reconnectTimerRef s = None /\ timers s = [] /\
    s1 = armed (emit_state CLOSED
                  (set_sockets (<[i := set_ws_readyState CLOSED k]> (sockets s)) s)).
Proof.
  intros Hu I W Hw Hstep.
  pose proof (step_reaction E o u l _ s s1 Hu I W Hstep) as R.
  inversion R as [| | | | | | | |i0 k Hw' Hk Hnc Hr|i0 k Hw' Hk Hc]; subst.
  - exists k. pose proof (inv_timer s I) as Ht. rewrite Hr in Ht. auto 10.
  - contradiction.
Qed.

Lemma fire_timer E o u l s id due ok :
  AppJsx.getUrl o (window E) = Ok (u, l) -> Inv s -> Wired s ->
  timers s = [(id, due)] -> (due <= clock s)%N ->
  step E o (TimerFire id ok) s
  = Some (attempted u ok (set_reconnectTimerRef None (set_timers [] s))).
Proof.
  intros Hu I W Ht Hle.
  destruct (fire_enabled E o id due ok s Ht Hle) as [s' Hs'].
  pose proof (step_reaction E o u l _ s s' Hu I W Hs') as R.
  inversion R; subst. exact Hs'.
Qed.

(** X10.  Recovery.  When the socket the hook holds closes, in any state
    the hook has reached: the state variable becomes CLOSED and exactly one
    timeout is armed, due 5000 ms later; no socket is constructed.
    Whatever happens next, no timeout fires before those 5000 ms have
    passed.  Once they have, the timeout can fire, and if the constructor
    succeeds the hook then holds a new connecting socket, for the resolved
    URL and with the four handlers, the state variable is CONNECTING and no
    timeout is pending. *)
Theorem reconnects_after_close
    (E : Env) (o : override) (es : list event) (s s1 : Hook) (i : nat)
    (u : string) (l : list string) :
  AppJsx.getUrl o (window E) = Ok (u, l) ->
  run E o es initial_hook = Some s ->
  wsRef s = Some i ->
  step E o (SockClose i) s = Some s1 ->
  (readyState s1 = CLOSED /\ current_state s1 = Some CLOSED /\
   reconnectTimerRef s1 = Some (next_timer s) /\
   timers s1 = [(next_timer s, (clock s + 5000)%N)] /\
   List.length (sockets s1) = List.length (sockets s)) /\
  (forall es' s2 id ok s3,
     run E o es' s1 = Some s2 -> step E o (TimerFire id ok) s2 = Some s3 ->
     (clock s + 5000 <= clock s2)%N) /\
  (forall dt, (5000 <= dt)%N ->
     exists s2,
       run E o [Advance dt; TimerFire (next_timer s) true] s1 = Some s2 /\
       sockets s2 = (sockets s1 ++ [wired (fresh_socket u)])%list /\
       wsRef s2 = Some (List.length (sockets s)) /\
       current_state s2 = Some CONNECTING /\
       readyState s2 = CONNECTING /\
       reconnectTimerRef s2 = None /\ timers s2 = []).
Proof.
  intros Hu Hrun Hw Hstep.
  destruct (reachable_wired E o es s Hrun) as [I W].
  pose proof (Inv_step E o _ s s1 I Hstep) as I1.
  pose proof (Wired_reaction E u _ s s1 W (step_reaction E o u l _ s s1 Hu I W Hstep))
    as W1.
  destruct (close_current E o u l s s1 i Hu I W Hw Hstep)
    as (k & Hk & Hnc & Hr & Ht & Hs1).
  assert (Htm : timers s1 = [(next_timer s, (clock s + 5000)%N)]).
  { subst s1. cbn. unfold RECONNECT_MS. now rewrite Ht. }
  assert (Hclk : clock s1 = clock s) by (subst s1; reflexivity).
  assert (Hlen : List.length (sockets s1) = List.length (sockets s)).
  { subst s1. cbn. apply length_insert. }
  split; [|split].
  - subst s1. cbn [readyState armed emit_state set_reconnectTimerRef set_next_timer
      set_timers set_emitted set_readyState reconnectTimerRef].
    split; [reflexivity|]. split.
    { rewrite (current_state_ext
                 (set_sockets (<[i := set_ws_readyState CLOSED k]> (sockets s)) s) _)
        by reflexivity.
      now rewrite (current_state_set_current s i k). }
    auto.
  - intros es' s2 id ok s3 Hrun' Hfire.
    assert (Hd : due_after (clock s) s1).
    { split; [lia|]. rewrite Htm. intros t Hin.
      apply list_elem_of_singleton in Hin. subst t. cbn. unfold RECONNECT_MS. lia. }
    destruct (due_after_run E o es' (clock s) s1 s2 I1 Hd Hrun') as [I2 Hd2].
    apply (fire_not_before E o id ok (clock s) s2 s3 I2 Hd2 Hfire).
  - intros dt Hdt.
    set (s1' := set_clock (clock s1 + dt) s1).
    assert (I1' : Inv s1') by now apply Inv_set_clock.
    assert (W1' : Wired s1') by now apply (Wired_ext s1).
    assert (Hfire : step E o (TimerFire (next_timer s) true) s1'
                    = Some (attempted u true
                              (set_reconnectTimerRef None (set_timers [] s1')))).
    { apply (fire_timer E o u l s1' (next_timer s) (clock s + 5000)%N true
               Hu I1' W1' Htm). subst s1'. cbn. lia. }
    eexists. split.
    + change (run E o [Advance dt; TimerFire (next_timer s) true] s1)
        with (match step E o (TimerFire (next_timer s) true) s1' with
              | Some s' => Some s'
              | None => None
              end).
      rewrite Hfire. reflexivity.
    + unfold attempted. cbn [sockets wsRef readyState reconnectTimerRef timers
        connected set_sockets set_wsRef emit_state set_emitted set_readyState
        set_reconnectTimerRef set_timers s1' set_clock].
      rewrite Hlen. split; [reflexivity|]. split; [reflexivity|].
      split; [|auto]. apply current_state_connected.
Qed.

(** X10, at a hook whose open socket is closed by the peer. *)
Lemma reconnects_after_close_witness :
  exists s s1 s2,
    run sample_env (OverrideString WS_URL) [Mount true; SockOpen 0] initial_hook
      = Some s /\
    step sample_env (OverrideString WS_URL) (SockClose 0) s = Some s1 /\
    timers s1 = [(1%nat, 5000%N)] /\
    run sample_env (OverrideString WS_URL) [Advance 5000; TimerFire 1 true] s1
      = Some s2 /\
    wsRef s2 = Some 1%nat /\ current_state s2 = Some CONNECTING.
Proof.
  destruct (run sample_env (OverrideString WS_URL) [Mount true; SockOpen 0]
              initial_hook) as [s|] eqn:Hrun; [|vm_compute in Hrun; discriminate].
  destruct (step sample_env (OverrideString WS_URL) (SockClose 0) s)
    as [s1|] eqn:Hstep;
    [|vm_compute in Hrun; inversion Hrun; subst s; vm_compute in Hstep; discriminate].
  assert (Hw : wsRef s = Some 0%nat) by (vm_compute in Hrun; now inversion Hrun).
  destruct (reconnects_after_close sample_env (OverrideString WS_URL) _ s s1 0%nat
              WS_URL [] eq_refl Hrun Hw Hstep) as ((_ & _ & _ & Ht & _) & _ & Hre).
  destruct (Hre 5000%N ltac:(lia)) as (s2 & Hrun2 & _ & Hw2 & Hc2 & _).
  assert (Hn : next_timer s = 1%nat) by (vm_compute in Hrun; now inversion Hrun).
  assert (Hc : clock s = 0%N) by (vm_compute in Hrun; now inversion Hrun).
  assert (Hl : List.length (sockets s) = 1%nat)
    by (vm_compute in Hrun; now inversion Hrun).
  rewrite Hn, Hc in Ht. rewrite Hn in Hrun2. rewrite Hl in Hw2.
  exists s, s1, s2. auto 10.
Defined.

Lemma unchanged_by_errored s :
  timers (errored s) = timers s /\
  reconnectTimerRef (errored s) = reconnectTimerRef s /\
  wsRef (errored s) = wsRef s /\
  List.length (sockets (errored s)) = List.length (sockets s) /\
  next_timer (errored s) = next_timer s /\ clock (errored s) = clock s.
Proof.
  unfold errored.
  destruct (wsRef s) as [i|] eqn:Hw; [destruct (sockets s !! i) as [k|];
    [destruct (is_live (ws_readyState k))|]|]; cbn;
    rewrite ?Hw, ?length_insert; auto 10.
Qed.

(** X11.  An error event, in any state the hook has reached.  The socket
    that reports it is the one the hook holds, or one that has lost its
    handlers, for which nothing happens.  For the socket the hook holds:
    the state variable becomes CLOSED and [close()] is called on that very
    socket, without code or reason, which starts its closing handshake if it
    was connecting or open.  The error alone arms no timeout and constructs
    no socket: the retry is scheduled by the close event that follows, 5000
    ms after that event. *)
Theorem error_closes_reporting_socket
    (E : Env) (o : override) (es : list event) (s s1 : Hook) (i : nat) :
  run E o es initial_hook = Some s ->
  step E o (SockError i) s = Some s1 ->
  (wsRef s <> Some i -> s1 = s) /\
  (wsRef s = Some i ->
     readyState s1 = CLOSED /\
     emitted s1 = StateChange CLOSED :: emitted s /\
     current_state s1 = Some CLOSING /\
     (forall k, sockets s !! i = Some k -> is_live (ws_readyState k) = true ->
        exists k', sockets s1 !! i = Some k' /\ close_args k' = Some None) /\
     timers s1 = [] /\
     forall s2, step E o (SockClose i) s1 = Some s2 ->
       timers s2 = [(next_timer s, (clock s + 5000)%N)]) /\
  timers s1 = timers s /\ reconnectTimerRef s1 = reconnectTimerRef s /\
  wsRef s1 = wsRef s /\ List.length (sockets s1) = List.length (sockets s) /\
  liveData s1 = liveData s.
Proof.
  intros Hrun Hstep.
  destruct (AppJsx_getUrl_total o (window E)) as (u & l & Hu).
  destruct (reachable_wired E o es s Hrun) as [I W].
  pose proof (step_reaction E o u l _ s s1 Hu I W Hstep) as R.
  pose proof (Inv_step E o _ s s1 I Hstep) as I1.
  pose proof (Wired_reaction E u _ s s1 W R) as W1.
  inversion R as [| | | | | |i0 k Hw Hk Hnc Hr|i0 k Hw Hk Hc| |]; subst.
  - (* the socket the hook holds *)
    destruct (unchanged_by_errored s) as (Ht & Hre & Hws & Hlen & Hnx & Hcl).
    split; [intros Hn; contradiction|].
    split; [|rewrite liveData_errored; auto 10].
    intros _.
    pose proof (inv_unsent s I i k Hk) as Hun.
    pose proof (inv_timer s I) as Htm. rewrite Hr in Htm.
    assert (Hcur : current_state (errored s) = Some CLOSING).
    { unfold errored. rewrite Hw, Hk.
      destruct (is_live (ws_readyState k)) eqn:Hl.
      - rewrite (current_state_ext
                   (set_sockets (<[i := closing None k]> (sockets s)) s) _)
          by reflexivity.
        rewrite (current_state_set_current s i k) by assumption.
        unfold closing. now rewrite Hl.
      - rewrite (current_state_ext s _) by reflexivity.
        unfold current_state. rewrite Hw, Hk. cbn.
        destruct (ws_readyState k); cbn in Hl; congruence. }
    split; [unfold errored; rewrite Hw, Hk; now destruct (is_live _)|].
    split; [unfold errored; rewrite Hw, Hk; now destruct (is_live _)|].
    split; [exact Hcur|]. split.
    { intros k0 Hk0 Hl. rewrite Hk in Hk0. inversion Hk0; subst k0.
      unfold errored. rewrite Hw, Hk, Hl. cbn.
      rewrite (lookup_insert_same _ _ k) by assumption.
      eexists. split; [reflexivity|]. unfold closing. now rewrite Hl. }
    split; [now rewrite Ht|].
    intros s2 Hclose.
    destruct (close_current E o u l (errored s) s2 i Hu I1 W1) as
      (k' & _ & _ & _ & Ht' & ->); [now rewrite Hws|exact Hclose|].
    cbn. unfold RECONNECT_MS. now rewrite Ht', Hnx, Hcl.
  - (* a socket that has lost its handlers *)
    split; [reflexivity|]. split; [intros Hw'; contradiction|]. auto.
Qed.

(** X11, at an error on the open socket of a mounted hook. *)
Lemma error_closes_reporting_socket_witness :
  exists s s1 s2,
    run sample_env (OverrideString WS_URL) [Mount true; SockOpen 0] initial_hook
      = Some s /\
    step sample_env (OverrideString WS_URL) (SockError 0) s = Some s1 /\
    readyState s1 = CLOSED /\ timers s1 = [] /\
    step sample_env (OverrideString WS_URL) (SockClose 0) s1 = Some s2 /\
    timers s2 = [(1%nat, 5000%N)].
Proof.
  destruct (run sample_env (OverrideString WS_URL) [Mount true; SockOpen 0]
              initial_hook) as [s|] eqn:Hrun; [|vm_compute in Hrun; discriminate].
  destruct (step sample_env (OverrideString WS_URL) (SockError 0) s)
    as [s1|] eqn:Hstep;
    [|vm_compute in Hrun; inversion Hrun; subst s; vm_compute in Hstep; discriminate].
  destruct (step sample_env (OverrideString WS_URL) (SockClose 0) s1)
    as [s2|] eqn:Hclose;
    [|vm_compute in Hrun; inversion Hrun; subst s;
      vm_compute in Hstep; inversion Hstep; subst s1;
      vm_compute in Hclose; discriminate].
  assert (Hw : wsRef s = Some 0%nat) by (vm_compute in Hrun; now inversion Hrun).
  destruct (error_closes_reporting_socket sample_env (OverrideString WS_URL) _ s s1
              0%nat Hrun Hstep) as (_ & Hcur & _).
  destruct (Hcur Hw) as (Hr & _ & _ & _ & Ht & Hnext).
  pose proof (Hnext s2 Hclose) as Ht2.
  assert (Hn : next_timer s = 1%nat) by (vm_compute in Hrun; now inversion Hrun).
  assert (Hc : clock s = 0%N) by (vm_compute in Hrun; now inversion Hrun).
  rewrite Hn, Hc in Ht2.
  exists s, s1, s2. auto 10.
Defined.

(** X12.  Messages.  In any state the hook has reached, a message event
    can only come from the socket the hook holds, and it is always
    delivered: [liveData] becomes the parsed payload, or the payload itself
    when it does not parse, [setLiveData] is called exactly once and
    nothing is thrown.  No other event touches [liveData]: a close, an
    error, a reconnect or a teardown never resets it, so the last message
    stays on display while the connection is down. *)
Theorem live_data_is_last_message
    (E : Env) (o : override) (es : list event) (s : Hook) :
  run E o es initial_hook = Some s ->
  (forall i data s',
     step E o (SockMessage i data) s = Some s' ->
     wsRef s = Some i /\ current_state s = Some OPEN /\
     liveData s' = delivered E data /\
     emitted s' = MessageDelivered (delivered E data) :: emitted s /\
     readyState s' = readyState s /\ sockets s' = sockets s /\
     timers s' = timers s /\ uncaught s' = []) /\
  (forall e s',
     ~ is_message e -> step E o e s = Some s' -> liveData s' = liveData s).
Proof.
  intros Hrun.
  destruct (AppJsx_getUrl_total o (window E)) as (u & l & Hu).
  destruct (reachable_wired E o es s Hrun) as [I W].
  split.
  - intros i data s' Hstep.
    pose proof (step_reaction E o u l _ s s' Hu I W Hstep) as R.
    inversion R as [| | | | |i0 k d Hw Hk Hs| | | |]; subst.
    split; [exact Hw|]. split.
    { unfold current_state. rewrite Hw, Hk. cbn. now rewrite Hs. }
    cbn. repeat (split; [reflexivity|]). apply (inv_uncaught s I).
  - intros e s' Hne Hstep.
    pose proof (step_reaction E o u l _ s s' Hu I W Hstep) as R.
    destruct R; try reflexivity.
    + now rewrite liveData_attempted.
    + now rewrite liveData_cleaned.
    + now rewrite liveData_attempted.
    + exfalso. apply Hne. exact Logic.I.
    + now rewrite liveData_errored.
Qed.

(** X12, at a message that parses, and at a close. *)
Lemma live_data_is_last_message_witness :
  exists s s1 s2,
    run sample_env (OverrideString WS_URL) [Mount true; SockOpen 0] initial_hook
      = Some s /\
    step sample_env (OverrideString WS_URL) (SockMessage 0 (Text sample_text)) s
      = Some s1 /\
    liveData s1 = delivered sample_env (Text sample_text) /\
    step sample_env (OverrideString WS_URL) (SockClose 0) s = Some s2 /\
    liveData s2 = liveData s.
Proof.
  destruct (run sample_env (OverrideString WS_URL) [Mount true; SockOpen 0]
              initial_hook) as [s|] eqn:Hrun; [|vm_compute in Hrun; discriminate].
  destruct (step sample_env (OverrideString WS_URL)
              (SockMessage 0 (Text sample_text)) s) as [s1|] eqn:Hstep;
    [|vm_compute in Hrun; inversion Hrun; subst s; vm_compute in Hstep; discriminate].
  destruct (step sample_env (OverrideString WS_URL) (SockClose 0) s)
    as [s2|] eqn:Hclose;
    [|vm_compute in Hrun; inversion Hrun; subst s;
      vm_compute in Hclose; discriminate].
  destruct (live_data_is_last_message sample_env (OverrideString WS_URL) _ s Hrun)
    as (Hmsg & Hkeep).
  destruct (Hmsg _ _ s1 Hstep) as (_ & _ & Hl & _).
  pose proof (Hkeep (SockClose 0) s2 (fun H => H) Hclose) as Hl2.
  exists s, s1, s2.
  split; [reflexivity|]. split; [exact Hstep|]. split; [exact Hl|].
  split; [exact Hclose|exact Hl2].
Defined.


(** ** The copy of the URL builder in App.jsx *)

(** X13.  The [buildDefaultUrl] of App.jsx is the one of
    hooks/useWebSocket.js on a window without the two configuration
    globals: for every override and window the two [getUrl] agree once the
    globals are taken away, and they agree on the window as it is whenever
    neither global is set to a non-empty value.  Like the other, the copy
    never throws.  With a global set they differ: the copy ignores it. *)
Theorem app_copy_ignores_url_globals (o : override) (w : option Window) :
  AppJsx.getUrl o w = getUrl o (without_globals <$> w) /\
  ((forall win, w = Some win ->
      opt_truthy (__WS_URL__ win) = false /\ opt_truthy (__WS_PORT__ win) = false) ->
   AppJsx.getUrl o w = getUrl o w) /\
  (exists u l, AppJsx.getUrl o w = Ok (u, l)) /\
  AppJsx.getUrl NotAString (Some configured_window)
    = Ok ("wss://dash.example:8000/ws/live-analytics", []) /\
  AppJsx.getUrl NotAString (Some port_window)
    = Ok ("wss://dash.example:8000/ws/live-analytics", []).
Proof.
  assert (Hb : forall w0, AppJsx.buildDefaultUrl w0
                          = buildDefaultUrl (without_globals <$> w0)).
  { intros [win|]; [|reflexivity]. cbn.
    unfold AppJsx.url_from_window, url_from_window, the_location. cbn.
    destruct (location win); reflexivity. }
  assert (Hg : AppJsx.getUrl o w = getUrl o (without_globals <$> w)).
  { destruct o as [|s]; unfold AppJsx.getUrl, getUrl; [apply Hb|].
    destruct (0 <? String.length s)%nat; [reflexivity|apply Hb]. }
  split; [exact Hg|]. split; [|split; [|split; reflexivity]].
  - intros Hw. rewrite Hg. destruct w as [win|]; [|reflexivity].
    destruct (Hw win eq_refl) as [Hu Hp].
    assert (Hbw : buildDefaultUrl (without_globals <$> Some win)
                  = buildDefaultUrl (Some win)).
    { cbn. unfold url_from_window. cbn. now rewrite Hu, Hp. }
    destruct o as [|s]; unfold getUrl; [exact Hbw|].
    destruct (0 <? String.length s)%nat; [reflexivity|exact Hbw].
  - rewrite Hg. apply getUrl_total.
Qed.

(** X13, at a plain page. *)
Lemma app_copy_ignores_url_globals_witness :
  AppJsx.getUrl NotAString (Some plain_window)
    = getUrl NotAString (Some plain_window) /\
  AppJsx.getUrl NotAString (Some plain_window)
    = Ok ("ws://dash.example:8000/ws/live-analytics", []).
Proof.
  split; [|reflexivity].
  apply (proj1 (proj2 (app_copy_ignores_url_globals NotAString (Some plain_window)))).
  intros win Hw. inversion Hw. split; reflexivity.
Defined.


(** ** The hook of hooks/useWebSocket.js against the hook of App.jsx *)

(** X14.  The hook of hooks/useWebSocket.js is the hook of App.jsx without
    [readyState], called with the URL the hook file resolves.  For every
    environment, override and sequence of events: the sequence can happen to
    the hook file's hook exactly when it can happen to the hook of App.jsx
    that is given that URL as its argument, and then the two end with the
    same refs, the same sockets in the same states with the same handlers,
    the same pending timeout, the same clock and the same [liveData]; the
    log of the first is the log of the second without the calls of
    [setReadyState].  Given the same argument the two hooks agree in this
    way when the argument is a non-empty string (as in [App]) or the window
    sets neither configuration global.  They differ otherwise: on a page
    that sets [__WS_URL__], without argument, the hook file connects to that
    URL and the hook of App.jsx to the page's host. *)
Theorem hook_file_is_app_hook_without_readyState
    (E : Env) (o : override) (es : list event) :
  (forall u l,
     getUrl o (window E) = Ok (u, l) ->
     HookFile.run E o es initial_hook
     = without_readyState <$> run E (OverrideString u) es initial_hook /\
     (forall s, run E (OverrideString u) es initial_hook = Some s ->
        exists s',
          HookFile.run E o es initial_hook = Some s' /\
          shouldConnectRef s' = shouldConnectRef s /\ wsRef s' = wsRef s /\
          reconnectTimerRef s' = reconnectTimerRef s /\
          sockets s' = sockets s /\ timers s' = timers s /\ clock s' = clock s /\
          mounted s' = mounted s /\ liveData s' = liveData s /\
          uncaught s' = uncaught s /\
          emitted s' = List.filter is_delivery (emitted s)) /\
     (run E (OverrideString u) es initial_hook = None
      <-> HookFile.run E o es initial_hook = None)) /\
  ((exists t, o = OverrideString t /\ t <> EmptyString) \/
   (forall win, window E = Some win ->
      opt_truthy (__WS_URL__ win) = false /\ opt_truthy (__WS_PORT__ win) = false) ->
   HookFile.run E o es initial_hook = without_readyState <$> run E o es initial_hook) /\
  (exists s s',
     run configured_env NotAString [Mount true] initial_hook = Some s /\
     HookFile.run configured_env NotAString [Mount true] initial_hook = Some s' /\
     ws_url <$> sockets s = ["wss://dash.example:8000/ws/live-analytics"] /\
     ws_url <$> sockets s' = ["ws://feed.example/live"]).
Proof.
  split; [|split].
  - intros u l Hu.
    pose proof (mirrors_run E (OverrideString u) o es
                  (same_url_resolved o _ u l Hu) initial_hook) as H.
    change (without_readyState initial_hook) with initial_hook in H.
    split; [exact H|]. split.
    + intros s Hs. rewrite H, Hs. eexists. split; [reflexivity|]. cbn. auto 12.
    + rewrite H. destruct (run E (OverrideString u) es initial_hook); cbn;
        split; congruence.
  - intros Hsame.
    pose proof (mirrors_run E o o es (same_url_plain o _ Hsame) initial_hook) as H.
    exact H.
  - destruct (run configured_env NotAString [Mount true] initial_hook)
      as [s|] eqn:Hs; [|vm_compute in Hs; discriminate].
    destruct (HookFile.run configured_env NotAString [Mount true] initial_hook)
      as [s'|] eqn:Hs'; [|vm_compute in Hs'; discriminate].
    exists s, s'. split; [reflexivity|]. split; [reflexivity|].
    vm_compute in Hs, Hs'. inversion Hs. inversion Hs'. split; reflexivity.
Qed.

(** X14, at the hook file's hook on a page that sets the URL global, and
    at both hooks called as [App] calls them. *)
Lemma hook_file_is_app_hook_without_readyState_witness :
  HookFile.run configured_env NotAString [Mount true; SockOpen 0] initial_hook
  = without_readyState
      <$> run configured_env (OverrideString "ws://feed.example/live")
            [Mount true; SockOpen 0] initial_hook /\
  HookFile.run sample_env (OverrideString WS_URL) [Mount true; SockOpen 0]
    initial_hook
  = without_readyState
      <$> run sample_env (OverrideString WS_URL) [Mount true; SockOpen 0]
            initial_hook.
Proof.
  split.
  - apply (proj1 (proj1 (hook_file_is_app_hook_without_readyState configured_env
                           NotAString [Mount true; SockOpen 0])
                    "ws://feed.example/live" [] eq_refl)).
  - apply (proj1 (proj2 (hook_file_is_app_hook_without_readyState sample_env
                           (OverrideString WS_URL) [Mount true; SockOpen 0]))).
    left. exists WS_URL. split; [reflexivity|discriminate].
Defined.


(** ** The earlier [App] *)



Lemma to_bars_length items bars :
  Legacy.to_bars items = Ok bars -> List.length bars = List.length items.
Proof.
  revert bars. induction items as [|bar items IH]; intros bars H.
  - cbn in H. now inversion H.
  - cbn [Legacy.to_bars] in H.
    destruct (Legacy.to_bar bar) as [b|]; [|discriminate]. cbn in H.
    destruct (Legacy.to_bars items) as [bs|]; [|discriminate]. cbn in H.
    inversion H. cbn. f_equal. now apply IH.
Qed.

Lemma to_bar_ok bar :
  bar <> JNull ->
  exists b, Legacy.to_bar bar = Ok b /\
    Legacy.prop bar "timestamp" = Ok (match Legacy.x b with Legacy.new_Date t => t end) /\
    Legacy.prop bar "open" = Ok (Legacy.open b) /\
    Legacy.prop bar "high" = Ok (Legacy.high b) /\
    Legacy.prop bar "low" = Ok (Legacy.low b) /\
    Legacy.prop bar "close" = Ok (Legacy.close b) /\
    Legacy.prop bar "volume" = Ok (Legacy.volume b).
Proof.
  intros Hn. destruct bar; try congruence; cbn; eexists; repeat split.
Qed.

Lemma to_bars_ok items :
  Forall (fun bar => bar <> JNull) items ->
  exists bars, Legacy.to_bars items = Ok bars.
Proof.
  induction 1 as [|bar items Hb _ IH]; cbn [Legacy.to_bars]; [cbn; eauto|].
  destruct (to_bar_ok bar Hb) as (b & -> & _). destruct IH as (bs & ->).
  cbn. eauto.
Qed.

Lemma to_bars_null items :
  Exists (fun bar => bar = JNull) items -> Legacy.to_bars items = Throw TypeError.
Proof.
  induction 1 as [bar items ->|bar items _ IH]; cbn [Legacy.to_bars];
    [reflexivity|].
  destruct bar; cbn; try (now rewrite IH); reflexivity.
Qed.

(** X16.  [fetchHistoricalData], run to its end.  Whatever the network
    does, [loading] ends [false].  The chart data is replaced by one bar for
    each element of the body, in order, exactly when the response has a
    status in 200-299 and its body is a JSON array without a [null]
    element; the five series of the chart then have that length and
    nothing is logged.  In every other case (the request is rejected, the
    status is 503 or otherwise not ok, the body is not JSON, not an array,
    or has one [null] element) the chart data becomes empty, whatever it
    was, and one error is logged; for the status 503 it is the
    database message. *)
Theorem historical_fetch_outcome
    (B : Browser) (timeframe : string) (p : Legacy.Page) :
  let p' := Legacy.fetchHistoricalData B timeframe p in
  Legacy.loading p' = false /\
  (forall status items,
     fetch B (Legacy.historical_url timeframe) = Response status (Ok (JArr items)) ->
     response_ok status = true ->
     Forall (fun bar => bar <> JNull) items ->
     Legacy.to_bars items = Ok (Legacy.historicalData p') /\
     List.length (Legacy.historicalData p') = List.length items /\
     Legacy.logged p' = Legacy.logged p /\
     (let '(xs, opens, highs, lows, closes) :=
        Legacy.candlestickTrace (Legacy.historicalData p') in
      List.length xs = List.length items /\
      List.length opens = List.length items /\
      List.length highs = List.length items /\
      List.length lows = List.length items /\
      List.length closes = List.length items)) /\
  ((forall status items,
      fetch B (Legacy.historical_url timeframe) = Response status (Ok (JArr items)) ->
      response_ok status = true ->
      Exists (fun bar => bar = JNull) items) ->
   Legacy.historicalData p' = [] /\
   exists error, Legacy.logged p' = error :: Legacy.logged p) /\
  (forall body,
     fetch B (Legacy.historical_url timeframe) = Response 503 body ->
     Legacy.logged p'
     = Error "Database connection not available. Check Python backend."
         :: Legacy.logged p).
Proof.
  cbv zeta. unfold Legacy.fetchHistoricalData.
  split; [|split; [|split]].
  - destruct (Legacy.load _); reflexivity.
  - intros status items Hf Hok Hitems. rewrite Hf. unfold Legacy.load.
    assert (H503 : (status =? 503)%N = false).
    { apply N.eqb_neq. intros ->. discriminate. }
    rewrite H503, Hok. cbn [negb Legacy.plot_data].
    destruct (to_bars_ok items Hitems) as (bars & Hb). rewrite Hb.
    cbn. pose proof (to_bars_length items bars Hb) as Hlen.
    rewrite !length_map. auto 10.
  - intros Hbad.
    destruct (fetch B (Legacy.historical_url timeframe)) as [|status body] eqn:Hf;
      cbn [Legacy.load]; [cbn; eauto|].
    destruct (status =? 503)%N; [cbn; eauto|].
    destruct (response_ok status) eqn:Hok; cbn [negb]; [|cbn; eauto].
    destruct body as [data|e]; [|cbn; eauto].
    destruct data as [| | | |items|]; cbn [Legacy.plot_data]; try (cbn; eauto).
    rewrite (to_bars_null items (Hbad status items eq_refl Hok)). cbn. eauto.
  - intros body Hf. rewrite Hf. reflexivity.
Qed.

(** X16, at a body with two bars, at an empty failure, and at a body whose
    second element is [null]. *)
Lemma historical_fetch_outcome_witness :
  let bars := JArr [JObj [("timestamp", JNum 1); ("open", JNum 2)]; JObj []] in
  let good := {| fetch := fun _ => Response 200 (Ok bars);
                 Number_toString := fun _ => EmptyString |} in
  let bad := {| fetch := fun _ => Response 200 (Ok (JArr [JObj []; JNull]));
                Number_toString := fun _ => EmptyString |} in
  List.length (Legacy.historicalData
                 (Legacy.fetchHistoricalData good "1m" Legacy.initial_page)) = 2%nat /\
  Legacy.historicalData
    (Legacy.fetchHistoricalData bad "1m"
       (Legacy.fetchHistoricalData good "1m" Legacy.initial_page)) = [].
Proof.
  intros bars good bad. split.
  - destruct (historical_fetch_outcome good "1m" Legacy.initial_page)
      as (_ & Hgood & _).
    destruct (Hgood 200%N [JObj [("timestamp", JNum 1); ("open", JNum 2)]; JObj []]
                eq_refl eq_refl) as (_ & Hlen & _).
    + repeat constructor; discriminate.
    + exact Hlen.
  - destruct (historical_fetch_outcome bad "1m"
                (Legacy.fetchHistoricalData good "1m" Legacy.initial_page))
      as (_ & _ & Hbad & _).
    apply Hbad. intros status items Hf _. cbn in Hf. inversion Hf; subst.
    apply Exists_cons_tl, Exists_cons_hd. reflexivity.
Defined.


(** ** The download button *)

Lemma split_free c p : free_of c p = true -> split c p = [p].
Proof.
  induction p as [|a p IH]; cbn; [reflexivity|]. intros H.
  apply andb_true_iff in H as [Ha Hp]. apply negb_true_iff in Ha.
  rewrite Ha, (IH Hp). reflexivity.
Qed.

Lemma split_app c p r :
  free_of c p = true -> split c (p ++ String c r) = p :: split c r.
Proof.
  induction p as [|a p IH]; intros H.
  - rewrite append_nil. cbn. now rewrite Ascii.eqb_refl.
  - cbn in H. apply andb_true_iff in H as [Ha Hp]. apply negb_true_iff in Ha.
    rewrite append_cons. cbn [split]. rewrite Ha, (IH Hp). reflexivity.
Qed.

Lemma join_strings_cons sep p q l :
  join_strings sep (p :: q :: l) = p ++ sep ++ join_strings sep (q :: l).
Proof. reflexivity. Qed.

Lemma split_join c l :
  l <> [] -> Forall (fun p => free_of c p = true) l ->
  split c (join_strings (String c EmptyString) l) = l.
Proof.
  intros Hne Hl. induction Hl as [|p l Hp Hl IH]; [congruence|].
  destruct l as [|q l].
  - cbn. now apply split_free.
  - rewrite join_strings_cons, append_cons, append_nil.
    rewrite split_app by assumption. f_equal. apply IH. discriminate.
Qed.

Lemma free_of_app c p q :
  free_of c (p ++ q) = free_of c p && free_of c q.
Proof.
  induction p as [|a p IH]; [reflexivity|].
  rewrite append_cons. cbn. rewrite IH. now rewrite andb_assoc.
Qed.

Lemma free_of_join c sep l :
  free_of c sep = true -> Forall (fun p => free_of c p = true) l ->
  free_of c (join_strings sep l) = true.
Proof.
  intros Hsep Hl. induction Hl as [|p l Hp Hl IH]; [reflexivity|].
  destruct l as [|q l]; [exact Hp|].
  rewrite join_strings_cons, !free_of_app, Hp, Hsep, IH. reflexivity.
Qed.

Lemma plain_cell_text v :
  plain_cell v = true ->
  v = JStr (cell_text v) /\ free_of "," (cell_text v) = true /\
  free_of (ascii_of_nat 10) (cell_text v) = true.
Proof.
  destruct v; cbn; try discriminate. intros H.
  apply andb_true_iff in H as [H1 H2]. auto.
Qed.

Lemma pieces_plain B values :
  forallb plain_cell values = true ->
  pieces_with (ToString B) values = Ok (map cell_text values).
Proof.
  induction values as [|v values IH]; intros H; [reflexivity|].
  cbn in H. apply andb_true_iff in H as [Hv Hvs].
  destruct (plain_cell_text v Hv) as (Ev & _). rewrite Ev.
  cbn. rewrite (IH Hvs). reflexivity.
Qed.

Lemma plain_record_cells r :
  plain_record r = true ->
  exists fields,
    r = JObj fields /\ fields <> [] /\
    forallb plain_cell (map snd fields) = true /\
    record_cells r <> [] /\
    Forall (fun p => free_of "," p = true) (record_cells r) /\
    Forall (fun p => free_of (ascii_of_nat 10) p = true) (record_cells r).
Proof.
  destruct r as [| | | | |fields]; cbn; try discriminate.
  destruct fields as [|[k c] fields]; [discriminate|]. intros H.
  exists ((k, c) :: fields). split; [reflexivity|]. split; [discriminate|].
  split; [exact H|]. split; [discriminate|].
  change (forallb plain_cell (map snd ((k, c) :: fields)) = true) in H.
  revert H. generalize ((k, c) :: fields). clear.
  intros l H. split.
  - induction l as [|f l IH]; cbn; [constructor|].
    cbn in H. apply andb_true_iff in H as [Hf Hl].
    constructor; [|now apply IH]. now destruct (plain_cell_text _ Hf) as (_ & ? & _).
  - induction l as [|f l IH]; cbn; [constructor|].
    cbn in H. apply andb_true_iff in H as [Hf Hl].
    constructor; [|now apply IH]. now destruct (plain_cell_text _ Hf) as (_ & _ & ?).
Qed.

Lemma plain_record_keys r :
  plain_record r = true ->
  Object_keys (Some r) = Ok (record_keys r) /\ record_keys r <> [].
Proof.
  destruct r as [| | | | |fields]; cbn; try discriminate.
  destruct fields; [discriminate|]. intros _. split; [reflexivity|discriminate].
Qed.

Lemma row_line_plain B r :
  plain_record r = true ->
  (values ← Object_values r; join_values B values)
  = Ok (join_strings "," (record_cells r)).
Proof.
  intros H. destruct (plain_record_cells r H) as (fields & -> & _ & Hc & _).
  cbn [Object_values mbind outcome_bind]. unfold join_values.
  cbn [ToString]. rewrite (pieces_plain B _ Hc). cbn [mbind outcome_bind].
  unfold record_cells. now rewrite map_map.
Qed.

Lemma row_lines_plain B items :
  forallb plain_record items = true ->
  row_lines B items
  = Ok (map (fun r => join_strings "," (record_cells r)) items).
Proof.
  induction items as [|r items IH]; intros H; [reflexivity|].
  cbn in H. apply andb_true_iff in H as [Hr Hitems].
  pose proof (row_line_plain B r Hr) as Hline. cbn [row_lines].
  destruct (Object_values r) as [values|]; [|discriminate].
  cbn [mbind outcome_bind] in *. rewrite Hline. cbn [mbind outcome_bind].
  rewrite (IH Hitems). reflexivity.
Qed.

(** X17.  The table the download button writes can be read back.  For a
    body that is a non-empty array of records whose values are strings
    without comma and line break, the keys of the first record being such
    strings too: the text is produced, and reading it line by line and
    cell by cell gives the keys of the first record followed by the values
    of each record, in order.  The header comes from the first record
    alone: a later record contributes its values whatever its keys are. *)
Theorem csv_reads_back (B : Browser) (first : json) (rest : list json) :
  forallb plain_record (first :: rest) = true ->
  Forall (fun k => free_of "," k = true /\ free_of (ascii_of_nat 10) k = true)
         (record_keys first) ->
  exists content,
    csvContent B (JArr (first :: rest)) = Ok content /\
    split (ascii_of_nat 10) content
    = join_strings "," (record_keys first)
        :: map (fun r => join_strings "," (record_cells r)) (first :: rest) /\
    map (split ",") (split (ascii_of_nat 10) content)
    = record_keys first :: map record_cells (first :: rest).
Proof.
  intros Hplain Hkeys.
  pose proof Hplain as Hp. cbn [forallb] in Hp.
  apply andb_true_iff in Hp as [Hfirst Hrest].
  destruct (plain_record_keys first Hfirst) as [Hobj Hkne].
  assert (Hk1 : Forall (fun k => free_of "," k = true) (record_keys first)).
  { eapply Forall_impl; [exact Hkeys|]. now intros k [? _]. }
  assert (Hk2 : Forall (fun k => free_of (ascii_of_nat 10) k = true)
                  (record_keys first)).
  { eapply Forall_impl; [exact Hkeys|]. now intros k [_ ?]. }
  set (lines := map (fun r => join_strings "," (record_cells r)) (first :: rest)).
  assert (Hlines : Forall (fun p => free_of (ascii_of_nat 10) p = true) lines).
  { subst lines. apply Forall_map. apply Forall_forall. intros r Hr.
    assert (Hpr : plain_record r = true).
    { rewrite forallb_forall in Hplain. apply Hplain.
      now apply list_elem_of_In. }
    destruct (plain_record_cells r Hpr) as (_ & _ & _ & _ & _ & _ & Hnl).
    now apply free_of_join. }
  exists (join_strings "," (record_keys first) ++ newline ++ join_strings newline lines).
  split; [|split].
  - unfold csvContent. cbn [first_of head mbind outcome_bind].
    rewrite Hobj. cbn [mbind outcome_bind csv_rows].
    rewrite (row_lines_plain B _ Hplain). reflexivity.
  - unfold newline. rewrite append_cons, append_nil.
    rewrite split_app by now apply free_of_join.
    f_equal. apply split_join; [subst lines; discriminate|exact Hlines].
  - unfold newline. rewrite append_cons, append_nil.
    rewrite split_app by now apply free_of_join.
    rewrite split_join by (subst lines; (discriminate || exact Hlines)).
    change (map (split ",") (?h :: ?t)) with (split "," h :: map (split ",") t).
    f_equal; [now apply split_join|].
    subst lines. rewrite map_map. apply map_ext_in. intros r Hr.
    assert (Hpr : plain_record r = true).
    { rewrite forallb_forall in Hplain. now apply Hplain. }
    destruct (plain_record_cells r Hpr) as (_ & _ & _ & _ & Hcne & Hc & _).
    now apply split_join.
Qed.

(** X17, at two records with different keys. *)
Lemma csv_reads_back_witness :
  let B := {| fetch := fun _ => Rejected; Number_toString := fun _ => EmptyString |} in
  exists content,
    csvContent B (JArr [JObj [("t", JStr "1"); ("close", JStr "10.5")];
                        JObj [("volume", JStr "7")]]) = Ok content /\
    map (split ",") (split (ascii_of_nat 10) content)
    = [["t"; "close"]; ["1"; "10.5"]; ["7"]].
Proof.
  intros B.
  destruct (csv_reads_back B (JObj [("t", JStr "1"); ("close", JStr "10.5")])
              [JObj [("volume", JStr "7")]] eq_refl) as (content & Hc & _ & Hr).
  - repeat constructor.
  - exists content. split; [exact Hc|exact Hr].
Defined.

Lemma row_lines_not_null B items lines :
  row_lines B items = Ok lines -> Forall (fun row => row <> JNull) items.
Proof.
  revert lines. induction items as [|r items IH]; intros lines H; [constructor|].
  cbn [row_lines] in H.
  destruct (Object_values r) as [values|] eqn:Hv; [|discriminate].
  cbn [mbind outcome_bind] in H.
  destruct (join_values B values) as [line|]; [|discriminate].
  cbn [mbind outcome_bind] in H.
  destruct (row_lines B items) as [ls|]; [|discriminate].
  constructor; [|now apply (IH ls)].
  intros ->. discriminate.
Qed.

(** X18.  When the download button hands over a file.  The file is named
    [<symbol>_<timeframe>_data.csv], and there is one only if the response
    has a status in 200-299 and its body is a non-empty JSON array without
    a [null] element.  In particular an empty result, [[]], ends in the
    failure alert and not in an empty file, as does a rejected request, a
    status that is not ok, a body that is not JSON or not an array.  The
    click never throws. *)
Theorem download_needs_rows (B : Browser) (symbol timeframe : string) :
  (forall filename content,
     handleDownload B symbol timeframe = Saved filename content ->
     filename = symbol ++ "_" ++ timeframe ++ "_data.csv" /\
     exists status first rest,
       fetch B (download_url symbol timeframe)
         = Response status (Ok (JArr (first :: rest))) /\
       response_ok status = true /\
       Forall (fun row => row <> JNull) (first :: rest) /\
       csvContent B (JArr (first :: rest)) = Ok content) /\
  (forall status,
     fetch B (download_url symbol timeframe) = Response status (Ok (JArr [])) ->
     exists error, handleDownload B symbol timeframe = Alerted error) /\
  (forall status data,
     fetch B (download_url symbol timeframe) = Response status (Ok data) ->
     (forall items, data <> JArr items) ->
     exists error, handleDownload B symbol timeframe = Alerted error) /\
  (fetch B (download_url symbol timeframe) = Rejected ->
     handleDownload B symbol timeframe = Alerted FetchRejected) /\
  (forall status body,
     fetch B (download_url symbol timeframe) = Response status body ->
     response_ok status = false ->
     handleDownload B symbol timeframe
     = Alerted (Error ("HTTP error! Status: " ++ string_of_N status))).
Proof.
  unfold handleDownload. split; [|split; [|split; [|split]]].
  - intros filename content H.
    destruct (fetch B (download_url symbol timeframe)) as [|status body];
      [discriminate|].
    destruct (response_ok status) eqn:Hok; cbn [negb] in H; [|discriminate].
    destruct body as [data|e]; [|discriminate].
    destruct (csvContent B data) as [c|e] eqn:Hc; [|discriminate].
    inversion H; subst. split; [reflexivity|].
    unfold csvContent in Hc.
    destruct (first_of data) as [first|] eqn:Hf; [|discriminate].
    cbn [mbind outcome_bind] in Hc.
    destruct (Object_keys first) as [keys|] eqn:Hk; [|discriminate].
    cbn [mbind outcome_bind] in Hc.
    destruct data as [| | | |items|]; try discriminate.
    cbn [csv_rows] in Hc.
    destruct (row_lines B items) as [lines|] eqn:Hl; [|discriminate].
    destruct items as [|r items].
    { cbn in Hf. inversion Hf; subst first. discriminate. }
    exists status, r, items. split; [reflexivity|]. split; [exact Hok|].
    split; [now apply (row_lines_not_null B _ lines)|].
    unfold csvContent. rewrite Hf. cbn [mbind outcome_bind]. rewrite Hk.
    cbn [mbind outcome_bind csv_rows]. now rewrite Hl.
  - intros status ->. destruct (response_ok status); cbn; eauto.
  - intros status data -> Hna. destruct (response_ok status); cbn [negb]; [|eauto].
    assert (Hc : exists e, csvContent B data = Throw e).
    { unfold csvContent.
      destruct (first_of data) as [first|]; [|cbn; eauto].
      cbn [mbind outcome_bind].
      destruct (Object_keys first) as [keys|]; [|cbn; eauto].
      cbn [mbind outcome_bind].
      destruct data as [| | | |items|]; cbn; eauto.
      exfalso. now apply (Hna items). }
    destruct Hc as [e ->]. eauto.
  - now intros ->.
  - intros status body -> ->. reflexivity.
Qed.

(** X18, at an empty result and at a result with one row. *)
Lemma download_needs_rows_witness :
  let empty := {| fetch := fun _ => Response 200 (Ok (JArr []));
                  Number_toString := fun _ => EmptyString |} in
  let one := {| fetch := fun _ => Response 200 (Ok (JArr [JObj [("t", JStr "1")]]));
                Number_toString := fun _ => EmptyString |} in
  (exists error, handleDownload empty "BTCUSDT" "1m" = Alerted error) /\
  (exists content, handleDownload one "BTCUSDT" "1m" = Saved "BTCUSDT_1m_data.csv" content).
Proof.
  intros empty one. split.
  - apply (proj1 (proj2 (download_needs_rows empty "BTCUSDT" "1m")) 200%N).
    reflexivity.
  - destruct (handleDownload one "BTCUSDT" "1m") as [filename content|error] eqn:H;
      [|vm_compute in H; discriminate].
    destruct (proj1 (download_needs_rows one "BTCUSDT" "1m") _ _ H) as [-> _].
    eauto.
Defined.


(** ** The metric boxes *)

Lemma not_placeholder v : v <> "---" -> String.eqb v "---" = false.
Proof. intros H. now apply String.eqb_neq. Qed.

Lemma StatBox_effect_compares v b :
  prevValueRef b <> "---" -> v <> "---" ->
  prevValueRef (StatBox_effect v b) = prevValueRef b /\
  flashClass (StatBox_effect v b)
  = (if num_gt (parseFloat v) (parseFloat (prevValueRef b)) then "flash-up"
     else if num_lt (parseFloat v) (parseFloat (prevValueRef b)) then "flash-down"
     else flashClass b) /\
  flash_timers (StatBox_effect v b)
  = (flash_next b, (flash_clock b + 400)%N) :: flash_timers b.
Proof.
  intros Hp Hv. unfold StatBox_effect.
  rewrite (not_placeholder _ Hp), (not_placeholder _ Hv). cbn. auto.
Qed.

Lemma prevValueRef_cleanup b : prevValueRef (StatBox_cleanup b) = prevValueRef b.
Proof. unfold StatBox_cleanup. now destruct (cleanup b). Qed.

Lemma flashClass_cleanup b : flashClass (StatBox_cleanup b) = flashClass b.
Proof. unfold StatBox_cleanup. now destruct (cleanup b). Qed.

Lemma frozen_step first e b b' :
  first <> "---" -> no_placeholder e ->
  prevValueRef b = first -> box_step e b = Some b' -> prevValueRef b' = first.
Proof.
  intros Hf He Hp H. destruct e as [v|dt|id]; cbn in H.
  - destruct (bool_decide (value b = Some v)); inversion H; subst b'; [exact Hp|].
    assert (Hv : v <> "---") by (intros ->; now apply He).
    destruct (StatBox_effect_compares v (StatBox_cleanup b)) as (-> & _);
      rewrite ?prevValueRef_cleanup; congruence.
  - now inversion H; subst b'.
  - destruct (due_of id (flash_timers b)); [|discriminate].
    destruct (_ <=? _)%N; inversion H; subst b'. exact Hp.
Qed.

Lemma frozen_run first es : forall b b',
  first <> "---" -> Forall no_placeholder es ->
  prevValueRef b = first -> box_run es b = Some b' -> prevValueRef b' = first.
Proof.
  induction es as [|e es IH]; intros b b' Hf Hes Hp H; cbn in H.
  - now inversion H; subst b'.
  - destruct (box_step e b) as [b1|] eqn:H1; [|discriminate].
    inversion Hes as [|? ? He Hes']; subst.
    apply (IH b1 b'); auto. eapply frozen_step; eauto.
Qed.

Lemma fixed_or_held_written f d held r :
  fixed_or_held f d held = Ok r -> held <> "---" -> r <> "---".
Proof.
  destruct f as [j|]; cbn; [|congruence].
  destruct j; cbn; try discriminate. intros H _. inversion H; subst r.
  apply String.eqb_neq, toFixed_not_dashes.
Qed.

(** X19.  The flash of a numeric box.  Such a box is mounted showing the
    placeholder "---".  Its first value does not flash and becomes the
    reference of the box.  From then on, as long as the placeholder is not
    rendered again, the reference never changes: the effect leaves through
    the [return] of its cleanup before it reaches
    [prevValueRef.current = value].  So every later value flashes up or
    down by comparison with the first value the box showed, not with the
    value before it.  (In [App] the placeholder does not come back: a
    snapshot field that has been written is never "---" again.) *)
Theorem flash_compares_with_first_value
    (first : string) (es : list box_event) (b : StatBox) :
  first <> "---" ->
  Forall no_placeholder es ->
  box_run (Render first :: es) (StatBox_mount "---" "---") = Some b ->
  (exists b0,
     box_step (Render first) (StatBox_mount "---" "---") = Some b0 /\
     flashClass b0 = EmptyString /\ flash_timers b0 = [] /\
     prevValueRef b0 = first) /\
  prevValueRef b = first /\
  (forall v b',
     v <> "---" -> value b <> Some v -> box_step (Render v) b = Some b' ->
     prevValueRef b' = first /\
     flashClass b'
     = if num_gt (parseFloat v) (parseFloat first) then "flash-up"
       else if num_lt (parseFloat v) (parseFloat first) then "flash-down"
       else flashClass b) /\
  (forall now u s s',
     update_effect now u s = Ok s' ->
     (z_score (analytics s) <> "---" -> z_score (analytics s') <> "---") /\
     (hedge_ratio (analytics s) <> "---" -> hedge_ratio (analytics s') <> "---") /\
     (latest_spread (analytics s) <> "---" ->
        latest_spread (analytics s') <> "---")).
Proof.
  intros Hf Hes Hrun.
  assert (H0 : box_step (Render first) (StatBox_mount "---" "---")
               = Some (StatBox_effect first (StatBox_mount "---" "---"))).
  { cbn [box_step]. rewrite bool_decide_eq_false_2; [reflexivity|].
    cbn. congruence. }
  assert (Hb0 : StatBox_effect first (StatBox_mount "---" "---")
                = {| flashClass := EmptyString; prevValueRef := first;
                     value := Some first; cleanup := None; flash_timers := [];
                     flash_next := 1; flash_clock := 0 |}).
  { reflexivity. }
  split; [|split; [|split]].
  - eexists. split; [exact H0|]. rewrite Hb0. auto.
  - cbn [box_run] in Hrun. rewrite H0 in Hrun.
    apply (frozen_run first es (StatBox_effect first (StatBox_mount "---" "---")) b
             Hf Hes); [|exact Hrun]. now rewrite Hb0.
  - intros v b' Hv Hdep Hstep.
    assert (Hp : prevValueRef b = first).
    { cbn [box_run] in Hrun. rewrite H0 in Hrun.
      apply (frozen_run first es (StatBox_effect first (StatBox_mount "---" "---")) b
             Hf Hes); [|exact Hrun]. now rewrite Hb0. }
    cbn [box_step] in Hstep.
    rewrite bool_decide_eq_false_2 in Hstep by exact Hdep.
    inversion Hstep; subst b'.
    destruct (StatBox_effect_compares v (StatBox_cleanup b)) as (Hr & Hfl & _);
      rewrite ?prevValueRef_cleanup; try congruence.
    rewrite prevValueRef_cleanup in Hr, Hfl. rewrite flashClass_cleanup in Hfl.
    rewrite Hr, Hfl, Hp. auto.
  - intros now u s s' H. destruct (accepts u) eqn:Ha.
    + apply update_effect_accepted in H as (na & Hna & ->); [|assumption].
      apply newAnalytics_fields in Hna as (Hz & Hh & Hl & _). cbn [analytics].
      repeat split; intros Hw; eapply fixed_or_held_written; eauto.
    + rewrite update_effect_ignored in H by assumption. inversion H; subst. auto.
Qed.

(** X19, at three values: the third has fallen from the second, and still
    flashes up, being above the first. *)
Lemma flash_compares_with_first_value_witness :
  exists b b',
    box_run [Render "1.00"; Render "3.00"; Wait 400; Expire 1]
      (StatBox_mount "---" "---") = Some b /\
    prevValueRef b = "1.00" /\
    box_step (Render "2.00") b = Some b' /\
    flashClass b' = "flash-up".
Proof.
  destruct (box_run [Render "1.00"; Render "3.00"; Wait 400; Expire 1]
              (StatBox_mount "---" "---")) as [b|] eqn:Hrun;
    [|vm_compute in Hrun; discriminate].
  destruct (box_step (Render "2.00") b) as [b'|] eqn:Hstep;
    [|vm_compute in Hrun; inversion Hrun; subst b; vm_compute in Hstep; discriminate].
  destruct (flash_compares_with_first_value "1.00"
              [Render "3.00"; Wait 400; Expire 1] b) as (_ & Hp & Hcmp & _).
  - discriminate.
  - repeat constructor; discriminate.
  - exact Hrun.
  - destruct (Hcmp "2.00" b') as (_ & Hfl).
    + discriminate.
    + vm_compute in Hrun. inversion Hrun. cbn. discriminate.
    + exact Hstep.
    + exists b, b'. split; [reflexivity|]. split; [exact Hp|].
      split; [exact Hstep|]. rewrite Hfl. reflexivity.
Defined.










(** ** The velocity that is appended *)

Lemma double_of_thousandth :
  double_of (1 # 1000) = Fin (1152921504606847 # 1152921504606846976).
Proof. vm_compute. reflexivity. Qed.

(** A multiple of 0.001 other than zero is read as a number other than
    zero. *)
Lemma rounded_truthy p :
  ~ (rounded p 3 == 0)%Q -> num_truthy (double_of (rounded p 3)) = true.
Proof.
  intros Hnz.
  assert (Hge : (1 # 1000 <= Qabs (rounded p 3))%Q).
  { pose proof (Qabs_rounded p 3) as Hr.
    change (Pos.of_nat (Nat.pow 10 3)) with 1000%positive in Hr.
    rewrite Hr. unfold Qle. cbn [Qnum Qden].
    assert (Hn : round_scaled p 3 <> 0%N).
    { intros Hn. apply Hnz. unfold rounded. rewrite Hn, Qred_correct.
      destruct (Qnum p <? 0)%Z; reflexivity. }
    lia. }
  pose proof (double_of_above _ _ _ double_of_thousandth Hge) as Hm.
  rewrite <- Math_abs_double_of in Hm.
  destruct (double_of (rounded p 3)) as [|b|y]; try discriminate; [reflexivity|].
  cbn [Math_abs num_ge] in Hm. apply Qle_bool_iff in Hm.
  cbn [num_truthy]. apply negb_true_iff, Z.eqb_neq. intros Hy.
  assert (Hy0 : (Qabs y == 0)%Q).
  { destruct y as [yn yd]. cbn in Hy. subst yn. reflexivity. }
  rewrite Hy0 in Hm. unfold Qle in Hm. cbn in Hm. lia.
Qed.

(** X21.  The velocity an accepted update appends, when it carries a
    finite numeric [latest_spread].  When the previous snapshot the
    callback closed over still shows "---" the velocity is 0; and when it
    shows a spread that rounds to zero ("0.000") the velocity is 0 as well,
    however far the spread has moved: [parseFloat(...) || currentSpread]
    takes a zero for a missing value.  Otherwise, for spreads below [10^21],
    it is a difference of doubles: the double read in the new text (the
    spread rounded to three decimals) minus the double read in the text of
    that previous snapshot, rounded once more to a double; so 0.3 after 0.1
    gives 0.19999999999999998, not 0.2. *)
Theorem velocity_is_difference_of_rounded
    (now : string) (v : live_value) (l x : Q) (s s' : App) :
  accepts v = true ->
  member v "latest_spread" = Some (JNum l) ->
  double_of l = Fin x ->
  update_effect now v s = Ok s' ->
  latest_spread (analytics s') = toFixed (Fin x) 3 /\
  (latest_spread (prevAnalytics s) = "---" ->
     last (spreadVelocity (history s')) = Some (Fin 0)) /\
  (forall p,
     latest_spread (prevAnalytics s) = toFixed (Fin p) 3 ->
     (Qabs p < 10 ^ 21)%Q -> (rounded p 3 == 0)%Q ->
     last (spreadVelocity (history s')) = Some (Fin 0)) /\
  (forall p,
     latest_spread (prevAnalytics s) = toFixed (Fin p) 3 ->
     (Qabs p < 10 ^ 21)%Q -> ~ (rounded p 3 == 0)%Q ->
     (Qabs x < 10 ^ 21)%Q ->
     last (spreadVelocity (history s'))
     = Some (num_sub (double_of (rounded x 3)) (double_of (rounded p 3)))).
Proof.
  intros Ha Hl Hx H.
  apply update_effect_accepted in H as (na & Hna & ->); [|assumption].
  apply newAnalytics_fields in Hna as (_ & _ & Hls & _).
  rewrite Hl in Hls. cbn in Hls. rewrite Hx in Hls. inversion Hls as [Hls'].
  cbn [analytics history prevAnalytics updateHistory spreadVelocity].
  split; [now symmetry|].
  rewrite last_snoc, <- Hls', StringToNumber_toFixed.
  destruct (read_back_finite x 3 (double_of_range l x Hx)) as [w Hw].
  split; [|split].
  - intros ->. change (parseFloat "---") with NaN. cbn [num_truthy ToNumber].
    now rewrite StringToNumber_toFixed, Hw, num_sub_self.
  - intros p -> Hp Hz. rewrite parseFloat_toFixed, (shown_decimal p 3 Hp).
    rewrite (double_of_zero _ Hz). cbn [num_truthy Qnum Z.eqb negb ToNumber].
    now rewrite StringToNumber_toFixed, Hw, num_sub_self.
  - intros p -> Hp Hnz Hxs.
    rewrite parseFloat_toFixed, (shown_decimal p 3 Hp), (shown_decimal x 3 Hxs).
    rewrite (rounded_truthy p Hnz). reflexivity.
Qed.

(** X21, at a spread that moves from 0.0004 to 5: the velocity appended is
    0; and at one that moves from 0.1 to 0.3: the velocity appended is the
    double 0.19999999999999998. *)
Lemma velocity_is_difference_of_rounded_witness :
  exists s2 s3 t2 t3,
    feed [("10:00:01", metric_update 0 1 (4 # 10000));
          ("10:00:02", metric_update 0 1 (4 # 10000))] initial_app = Ok s2 /\
    latest_spread (prevAnalytics s2) = "0.000" /\
    update_effect "10:00:03" (metric_update 0 1 5) s2 = Ok s3 /\
    last (spreadVelocity (history s3)) = Some (Fin 0) /\
    feed [("10:00:01", metric_update 0 1 (1 # 10));
          ("10:00:02", metric_update 0 1 (1 # 10))] initial_app = Ok t2 /\
    update_effect "10:00:03" (metric_update 0 1 (3 # 10)) t2 = Ok t3 /\
    last (spreadVelocity (history t3))
    = Some (Fin (7205759403792793 # 36028797018963968)).
Proof.
  destruct (feed [("10:00:01", metric_update 0 1 (4 # 10000));
                  ("10:00:02", metric_update 0 1 (4 # 10000))] initial_app)
    as [s2|] eqn:H2; [|vm_compute in H2; discriminate].
  destruct (update_effect "10:00:03" (metric_update 0 1 5) s2) as [s3|] eqn:H3;
    [|vm_compute in H2; inversion H2; subst s2; vm_compute in H3; discriminate].
  destruct (feed [("10:00:01", metric_update 0 1 (1 # 10));
                  ("10:00:02", metric_update 0 1 (1 # 10))] initial_app)
    as [t2|] eqn:G2; [|vm_compute in G2; discriminate].
  destruct (update_effect "10:00:03" (metric_update 0 1 (3 # 10)) t2) as [t3|] eqn:G3;
    [|vm_compute in G2; inversion G2; subst t2; vm_compute in G3; discriminate].
  assert (Hp : latest_spread (prevAnalytics s2) = "0.000")
    by (vm_compute in H2; now inversion H2).
  assert (Gp : latest_spread (prevAnalytics t2) = "0.100")
    by (vm_compute in G2; now inversion G2).
  destruct (velocity_is_difference_of_rounded "10:00:03" (metric_update 0 1 5) 5 5
              s2 s3 eq_refl eq_refl eq_refl H3) as (_ & _ & Hzero & _).
  destruct (velocity_is_difference_of_rounded "10:00:03"
              (metric_update 0 1 (3 # 10)) (3 # 10)
              (5404319552844595 # 18014398509481984)
              t2 t3 eq_refl eq_refl eq_refl G3) as (_ & _ & _ & Hdiff).
  exists s2, s3, t2, t3. split; [reflexivity|]. split; [exact Hp|].
  split; [exact H3|]. split.
  { apply (Hzero (double_of_value (4 # 10000))); [exact Hp| |]; vm_compute; reflexivity. }
  split; [reflexivity|]. split; [exact G3|].
  rewrite (Hdiff (double_of_value (1 # 10))); [vm_compute; reflexivity|exact Gp| | |];
    vm_compute; try reflexivity; discriminate.
Defined.
